(** * Epstein civil violence with a censored small-world network

    A shallow embedding of [epstein_civil_violence/agent.py] and
    [epstein_civil_violence/model.py].

    Conventions.
    - Python [int]s are [Z]; Python [float]s are idealised as real numbers
      ([R]): sums, products and quotients are exact, and [math.exp] is the
      real exponential wherever its value is a finite double; beyond the
      largest double it raises OverflowError, as [math.exp] does.
    - Exceptions are values of [exn]; a computation that may raise returns
      a [result].
    - Agents are objects shared between the scheduler, the grid and
      [agent_dict]; the embedding keeps them in one store keyed by
      [unique_id], and every reference is that key.
    - [mesa] and [networkx] are outside the repository.  The few graph
      primitives that [agent.py] calls are written out below from their
      documented behaviour; the grid neighbourhood and the small-world
      generator are carried as functions, so every statement holds for
      whatever they return; what a statement needs of the generator is a
      hypothesis of it ([small_world_generator]). *)

From Stdlib Require Import ZArith Reals Lra Lia List.
From stdpp Require Import gmap list fin_maps fin_sets.

Local Open Scope Z_scope.

(** ** Exceptions *)

Inductive exn : Type :=
| ValueError
| ZeroDivisionError
| NetworkXError
| NodeNotFound
| KeyError
| OverflowError.

Inductive result (A : Type) : Type :=
| Ok (a : A)
| Raise (e : exn).
Arguments Ok {A} a.
Arguments Raise {A} e.

#[global] Instance result_ret : MRet result := λ A a, Ok a.
#[global] Instance result_bind : MBind result :=
  λ A B f r, match r with Ok a => f a | Raise e => Raise e end.

Definition succeeds {A} (r : result A) : Prop := ∃ a, r = Ok a.

(** ** The random stream

    [random.Random] is a deterministic stream of draws behind a cursor.
    [random()] is a multiple of 2^-53 in [0,1); [randbelow n] is a value in
    [0,n); [choice] indexes with [randbelow (len seq)]; [randint a b] is
    [a + randbelow (b - a + 1)] and raises on an empty range; [shuffle] is
    the in-place Fisher-Yates loop of the standard library. *)

Module Rng.

Record Random : Type := mkRandom {
  stream : nat → Z;
  cursor : nat
}.

Definition next (r : Random) : Z * Random :=
  (stream r (cursor r), mkRandom (stream r) (S (cursor r))).

Definition random (r : Random) : R * Random :=
  let '(x, r') := next r in
  ((IZR (x mod 2 ^ 53) / IZR (2 ^ 53))%R, r').

Definition randbelow (n : Z) (r : Random) : Z * Random :=
  let '(x, r') := next r in (x mod n, r').

Definition choice {A} (seq : list A) (r : Random) : option A * Random :=
  let '(j, r') := randbelow (Z.of_nat (length seq)) r in
  (seq !! Z.to_nat j, r').

Definition randint (a b : Z) (r : Random) : result Z * Random :=
  if decide (b < a) then (Raise ValueError, r)
  else let '(j, r') := randbelow (b - a + 1) r in (Ok (a + j), r').

Definition swap (x : list Z) (i j : nat) : list Z :=
  match x !! i, x !! j with
  | Some a, Some b => <[i := b]> (<[j := a]> x)
  | _, _ => x
  end.

(** [for i in reversed(range(1, len(x))): j = randbelow(i + 1); swap] *)
Fixpoint shuffle_from (i : nat) (x : list Z) (r : Random) : list Z * Random :=
  match i with
  | O => (x, r)
  | S i' =>
      let '(j, r') := randbelow (Z.of_nat (S i)) r in
      shuffle_from i' (swap x i (Z.to_nat j)) r'
  end.

Definition shuffle (x : list Z) (r : Random) : list Z * Random :=
  shuffle_from (length x - 1) x r.

End Rng.

(** ** Graph primitives (the part of [networkx] that the model calls)

    An undirected graph with one integer attribute, [censor_steps], on
    every edge.  An edge is stored under its ordered pair of endpoints, so
    [G[u][v]] and [G[v][u]] are the same cell. *)

Module Nx.

Definition canon (u v : Z) : Z * Z := if u <? v then (u, v) else (v, u).

Record Graph : Type := mkGraph {
  nodes : gset Z;
  edges : gmap (Z * Z) Z
}.

Definition empty_graph : Graph := mkGraph ∅ ∅.

Definition get_edge (g : Graph) (u v : Z) : option Z := edges g !! canon u v.

Definition add_edge (g : Graph) (u v : Z) (d : Z) : Graph :=
  mkGraph ({[u]} ∪ {[v]} ∪ nodes g) (<[canon u v := d]> (edges g)).

Definition set_edge (g : Graph) (u v : Z) (d : Z) : Graph :=
  mkGraph (nodes g) (<[canon u v := d]> (edges g)).

(** the other endpoint of edge [e] seen from [n], if [e] is at [n] *)
Definition other_end (n : Z) (e : Z * Z) : option Z :=
  if decide (e.1 = n) then Some e.2
  else if decide (e.2 = n) then Some e.1
  else None.

(** [G.neighbors(n)] *)
Definition neighbors (g : Graph) (n : Z) : gset Z :=
  list_to_set (omap (other_end n) (elements (dom (edges g)))).

(** [G.edges(n)]: the edges at [n], each reported from [n] outwards *)
Definition edges_at (g : Graph) (n : Z) : list (Z * Z) :=
  (λ v, (n, v)) <$> elements (neighbors g n).

(** nodes at distance at most two from [n] *)
Definition within2 (g : Graph) (n : Z) : gset Z :=
  {[n]} ∪ neighbors g n ∪ ⋃ ((neighbors g) <$> elements (neighbors g n)).

(** [G.subgraph(S).copy()] *)
Definition subgraph (g : Graph) (S : gset Z) : Graph :=
  mkGraph (nodes g ∩ S)
          (filter (λ kv, kv.1.1 ∈ S ∧ kv.1.2 ∈ S) (edges g)).

(** [nx.ego_graph(G, n, radius=2)]: the centre is kept; a centre that is
    not a node of [G] is an error. *)
Definition ego_graph (g : Graph) (n : Z) : result Graph :=
  if decide (n ∈ nodes g) then Ok (subgraph g (within2 g n))
  else Raise NodeNotFound.

(** [G.remove_edges_from(ebunch)] *)
Definition remove_edges_from (g : Graph) (ebunch : list (Z * Z)) : Graph :=
  mkGraph (nodes g)
          (foldr (λ e es, delete (canon e.1 e.2) es) (edges g) ebunch).

Definition number_of_edges (g : Graph) : Z := Z.of_nat (size (edges g)).

(** [nx.relabel_nodes(G, mapping)] followed by
    [nx.set_edge_attributes(G, 0, "censor_steps")], for a graph given by
    its node list and edge list; a node outside the mapping keeps its
    label. *)
Definition relabel (mapping : gmap Z Z) (n : Z) : Z := default n (mapping !! n).

Definition relabel_nodes (ns : list Z) (es : list (Z * Z)) (mapping : gmap Z Z)
  : Graph :=
  foldr (λ e g, add_edge g (relabel mapping e.1) (relabel mapping e.2) 0)
        (mkGraph (list_to_set (relabel mapping <$> ns)) ∅) es.

End Nx.

(** ** Agents ([agent.py]) *)

Inductive Condition : Type := Quiescent | Active.

#[global] Instance Condition_eq_dec : EqDecision Condition.
Proof. solve_decision. Defined.

Record Citizen : Type := mkCitizen {
  pos : Z * Z;
  hardship : R;
  regime_legitimacy : R;
  risk_aversion : R;
  threshold : R;
  condition : Condition;
  vision : Z;
  jail_sentence : Z;
  grievance : R;
  arrest_probability : option R;
  strong_ties_received : Z;
  weak_ties_received : Z;
  actives_in_vision : option R
}.

Record Cop : Type := mkCop {
  cop_pos : Z * Z;
  cop_vision : Z
}.

(** [breed] is the constructor. *)
Inductive Agent : Type :=
| ACitizen (c : Citizen)
| ACop (k : Cop).

Definition is_cop (a : Agent) : bool :=
  match a with ACop _ => true | ACitizen _ => false end.

Definition agent_pos (a : Agent) : Z * Z :=
  match a with ACitizen c => pos c | ACop k => cop_pos k end.

(** [Citizen.__init__] *)
Definition new_Citizen (p : Z * Z) (h l ra th : R) (v : Z) : Citizen :=
  {| pos := p; hardship := h; regime_legitimacy := l; risk_aversion := ra;
     threshold := th; condition := Quiescent; vision := v;
     jail_sentence := 0; grievance := (h * (1 - l))%R;
     arrest_probability := None; strong_ties_received := 0;
     weak_ties_received := 0; actives_in_vision := None |}.

Definition set_jail_sentence (j : Z) (c : Citizen) : Citizen :=
  {| pos := pos c; hardship := hardship c;
     regime_legitimacy := regime_legitimacy c;
     risk_aversion := risk_aversion c; threshold := threshold c;
     condition := condition c; vision := vision c; jail_sentence := j;
     grievance := grievance c; arrest_probability := arrest_probability c;
     strong_ties_received := strong_ties_received c;
     weak_ties_received := weak_ties_received c;
     actives_in_vision := actives_in_vision c |}.

Definition set_condition (k : Condition) (c : Citizen) : Citizen :=
  {| pos := pos c; hardship := hardship c;
     regime_legitimacy := regime_legitimacy c;
     risk_aversion := risk_aversion c; threshold := threshold c;
     condition := k; vision := vision c; jail_sentence := jail_sentence c;
     grievance := grievance c; arrest_probability := arrest_probability c;
     strong_ties_received := strong_ties_received c;
     weak_ties_received := weak_ties_received c;
     actives_in_vision := actives_in_vision c |}.

Definition set_pos (p : Z * Z) (c : Citizen) : Citizen :=
  {| pos := p; hardship := hardship c;
     regime_legitimacy := regime_legitimacy c;
     risk_aversion := risk_aversion c; threshold := threshold c;
     condition := condition c; vision := vision c;
     jail_sentence := jail_sentence c;
     grievance := grievance c; arrest_probability := arrest_probability c;
     strong_ties_received := strong_ties_received c;
     weak_ties_received := weak_ties_received c;
     actives_in_vision := actives_in_vision c |}.

(** the four attributes written by the arrest-probability estimators *)
Definition set_estimate (a p : R) (s w : Z) (c : Citizen) : Citizen :=
  {| pos := pos c; hardship := hardship c;
     regime_legitimacy := regime_legitimacy c;
     risk_aversion := risk_aversion c; threshold := threshold c;
     condition := condition c; vision := vision c;
     jail_sentence := jail_sentence c;
     grievance := grievance c; arrest_probability := Some p;
     strong_ties_received := s; weak_ties_received := w;
     actives_in_vision := Some a |}.

Definition set_agent_pos (p : Z * Z) (a : Agent) : Agent :=
  match a with
  | ACitizen c => ACitizen (set_pos p c)
  | ACop k => ACop (mkCop p (cop_vision k))
  end.

(** ** The model ([model.py]) *)

Inductive ScheduleType : Type := Sequential | Random | Simultaneous.

(** ["With SWN"], or any other string (the [else] branch of
    [Citizen.step]) *)
Inductive ActivationType : Type := WithSWN | WithoutSWN.

#[global] Instance ActivationType_eq_dec : EqDecision ActivationType.
Proof. solve_decision. Defined.

(** [mesa.space.Grid]: at most one agent per cell; [get_neighborhood] is
    the grid's own method, with [moore=True] and the centre left out. *)
Record Grid : Type := mkGrid {
  grid_width : Z;
  grid_height : Z;
  cells : gmap (Z * Z) Z;
  get_neighborhood : Z * Z → Z → list (Z * Z)
}.

(** one row of the data collector's model table *)
Record Row : Type := mkRow {
  row_Quiescent : Z;
  row_Active : Z;
  row_Jailed : Z;
  row_Citizens : Z;
  row_Cops : Z;
  row_Average_Jailing_Term : R;
  row_Average_Strong_Receival : R;
  row_Average_Weak_Receival : R;
  row_Active_Links : Z;
  row_Activated_Links_Ratio : R;
  row_Censored_Links_per_step : Z
}.

Record Model : Type := mkModel {
  (* constructor arguments *)
  citizen_density : R;
  cop_density : R;
  citizen_vision : Z;
  cop_vision_param : Z;
  legitimacy : R;
  max_jail_term : Z;
  active_threshold : R;
  arrest_prob_constant : R;
  movement : bool;
  max_iters : Z;
  schedule_type : ScheduleType;
  activation_type : ActivationType;
  strong_weak_ratio : R;
  t_censor : Z;
  p_link_censor : R;
  (* state *)
  iteration : Z;
  schedule : list Z;            (* scheduler keys, in insertion order *)
  agents : gmap Z Agent;        (* the agent objects *)
  grid : Grid;
  citizen_count : Z;
  cop_count : Z;
  jail_count : Z;
  active_count : Z;
  quiescent_count : Z;
  average_jail_term : R;
  strong_ties_receival : R;
  weak_ties_receival : R;
  link_to_censor : gset (Z * Z);
  active_links : Z;
  activated_link_ratio : R;
  censored_links : Z;
  G : Nx.Graph;
  number_of_edges : Z;
  running : bool;
  datacollector : list Row;
  random : Rng.Random
}.

(** Attribute assignment, one function per attribute that [model.py] or
    [agent.py] writes after construction. *)

Definition set_iteration (x : Z) (m : Model) : Model :=
  {| citizen_density := citizen_density m; cop_density := cop_density m;
     citizen_vision := citizen_vision m;
     cop_vision_param := cop_vision_param m; legitimacy := legitimacy m;
     max_jail_term := max_jail_term m;
     active_threshold := active_threshold m;
     arrest_prob_constant := arrest_prob_constant m; movement := movement m;
     max_iters := max_iters m; schedule_type := schedule_type m;
     activation_type := activation_type m;
     strong_weak_ratio := strong_weak_ratio m; t_censor := t_censor m;
     p_link_censor := p_link_censor m; iteration := x;
     schedule := schedule m; agents := agents m; grid := grid m;
     citizen_count := citizen_count m; cop_count := cop_count m;
     jail_count := jail_count m; active_count := active_count m;
     quiescent_count := quiescent_count m;
     average_jail_term := average_jail_term m;
     strong_ties_receival := strong_ties_receival m;
     weak_ties_receival := weak_ties_receival m;
     link_to_censor := link_to_censor m; active_links := active_links m;
     activated_link_ratio := activated_link_ratio m;
     censored_links := censored_links m; G := G m;
     number_of_edges := number_of_edges m; running := running m;
     datacollector := datacollector m; random := random m |}.

Definition set_agents (x : gmap Z Agent) (m : Model) : Model :=
  {| citizen_density := citizen_density m; cop_density := cop_density m;
     citizen_vision := citizen_vision m;
     cop_vision_param := cop_vision_param m; legitimacy := legitimacy m;
     max_jail_term := max_jail_term m;
     active_threshold := active_threshold m;
     arrest_prob_constant := arrest_prob_constant m; movement := movement m;
     max_iters := max_iters m; schedule_type := schedule_type m;
     activation_type := activation_type m;
     strong_weak_ratio := strong_weak_ratio m; t_censor := t_censor m;
     p_link_censor := p_link_censor m; iteration := iteration m;
     schedule := schedule m; agents := x; grid := grid m;
     citizen_count := citizen_count m; cop_count := cop_count m;
     jail_count := jail_count m; active_count := active_count m;
     quiescent_count := quiescent_count m;
     average_jail_term := average_jail_term m;
     strong_ties_receival := strong_ties_receival m;
     weak_ties_receival := weak_ties_receival m;
     link_to_censor := link_to_censor m; active_links := active_links m;
     activated_link_ratio := activated_link_ratio m;
     censored_links := censored_links m; G := G m;
     number_of_edges := number_of_edges m; running := running m;
     datacollector := datacollector m; random := random m |}.

Definition set_grid (x : Grid) (m : Model) : Model :=
  {| citizen_density := citizen_density m; cop_density := cop_density m;
     citizen_vision := citizen_vision m;
     cop_vision_param := cop_vision_param m; legitimacy := legitimacy m;
     max_jail_term := max_jail_term m;
     active_threshold := active_threshold m;
     arrest_prob_constant := arrest_prob_constant m; movement := movement m;
     max_iters := max_iters m; schedule_type := schedule_type m;
     activation_type := activation_type m;
     strong_weak_ratio := strong_weak_ratio m; t_censor := t_censor m;
     p_link_censor := p_link_censor m; iteration := iteration m;
     schedule := schedule m; agents := agents m; grid := x;
     citizen_count := citizen_count m; cop_count := cop_count m;
     jail_count := jail_count m; active_count := active_count m;
     quiescent_count := quiescent_count m;
     average_jail_term := average_jail_term m;
     strong_ties_receival := strong_ties_receival m;
     weak_ties_receival := weak_ties_receival m;
     link_to_censor := link_to_censor m; active_links := active_links m;
     activated_link_ratio := activated_link_ratio m;
     censored_links := censored_links m; G := G m;
     number_of_edges := number_of_edges m; running := running m;
     datacollector := datacollector m; random := random m |}.

Definition set_citizen_count (x : Z) (m : Model) : Model :=
  {| citizen_density := citizen_density m; cop_density := cop_density m;
     citizen_vision := citizen_vision m;
     cop_vision_param := cop_vision_param m; legitimacy := legitimacy m;
     max_jail_term := max_jail_term m;
     active_threshold := active_threshold m;
     arrest_prob_constant := arrest_prob_constant m; movement := movement m;
     max_iters := max_iters m; schedule_type := schedule_type m;
     activation_type := activation_type m;
     strong_weak_ratio := strong_weak_ratio m; t_censor := t_censor m;
     p_link_censor := p_link_censor m; iteration := iteration m;
     schedule := schedule m; agents := agents m; grid := grid m;
     citizen_count := x; cop_count := cop_count m;
     jail_count := jail_count m; active_count := active_count m;
     quiescent_count := quiescent_count m;
     average_jail_term := average_jail_term m;
     strong_ties_receival := strong_ties_receival m;
     weak_ties_receival := weak_ties_receival m;
     link_to_censor := link_to_censor m; active_links := active_links m;
     activated_link_ratio := activated_link_ratio m;
     censored_links := censored_links m; G := G m;
     number_of_edges := number_of_edges m; running := running m;
     datacollector := datacollector m; random := random m |}.

Definition set_cop_count (x : Z) (m : Model) : Model :=
  {| citizen_density := citizen_density m; cop_density := cop_density m;
     citizen_vision := citizen_vision m;
     cop_vision_param := cop_vision_param m; legitimacy := legitimacy m;
     max_jail_term := max_jail_term m;
     active_threshold := active_threshold m;
     arrest_prob_constant := arrest_prob_constant m; movement := movement m;
     max_iters := max_iters m; schedule_type := schedule_type m;
     activation_type := activation_type m;
     strong_weak_ratio := strong_weak_ratio m; t_censor := t_censor m;
     p_link_censor := p_link_censor m; iteration := iteration m;
     schedule := schedule m; agents := agents m; grid := grid m;
     citizen_count := citizen_count m; cop_count := x;
     jail_count := jail_count m; active_count := active_count m;
     quiescent_count := quiescent_count m;
     average_jail_term := average_jail_term m;
     strong_ties_receival := strong_ties_receival m;
     weak_ties_receival := weak_ties_receival m;
     link_to_censor := link_to_censor m; active_links := active_links m;
     activated_link_ratio := activated_link_ratio m;
     censored_links := censored_links m; G := G m;
     number_of_edges := number_of_edges m; running := running m;
     datacollector := datacollector m; random := random m |}.

Definition set_jail_count (x : Z) (m : Model) : Model :=
  {| citizen_density := citizen_density m; cop_density := cop_density m;
     citizen_vision := citizen_vision m;
     cop_vision_param := cop_vision_param m; legitimacy := legitimacy m;
     max_jail_term := max_jail_term m;
     active_threshold := active_threshold m;
     arrest_prob_constant := arrest_prob_constant m; movement := movement m;
     max_iters := max_iters m; schedule_type := schedule_type m;
     activation_type := activation_type m;
     strong_weak_ratio := strong_weak_ratio m; t_censor := t_censor m;
     p_link_censor := p_link_censor m; iteration := iteration m;
     schedule := schedule m; agents := agents m; grid := grid m;
     citizen_count := citizen_count m; cop_count := cop_count m;
     jail_count := x; active_count := active_count m;
     quiescent_count := quiescent_count m;
     average_jail_term := average_jail_term m;
     strong_ties_receival := strong_ties_receival m;
     weak_ties_receival := weak_ties_receival m;
     link_to_censor := link_to_censor m; active_links := active_links m;
     activated_link_ratio := activated_link_ratio m;
     censored_links := censored_links m; G := G m;
     number_of_edges := number_of_edges m; running := running m;
     datacollector := datacollector m; random := random m |}.

Definition set_active_count (x : Z) (m : Model) : Model :=
  {| citizen_density := citizen_density m; cop_density := cop_density m;
     citizen_vision := citizen_vision m;
     cop_vision_param := cop_vision_param m; legitimacy := legitimacy m;
     max_jail_term := max_jail_term m;
     active_threshold := active_threshold m;
     arrest_prob_constant := arrest_prob_constant m; movement := movement m;
     max_iters := max_iters m; schedule_type := schedule_type m;
     activation_type := activation_type m;
     strong_weak_ratio := strong_weak_ratio m; t_censor := t_censor m;
     p_link_censor := p_link_censor m; iteration := iteration m;
     schedule := schedule m; agents := agents m; grid := grid m;
     citizen_count := citizen_count m; cop_count := cop_count m;
     jail_count := jail_count m; active_count := x;
     quiescent_count := quiescent_count m;
     average_jail_term := average_jail_term m;
     strong_ties_receival := strong_ties_receival m;
     weak_ties_receival := weak_ties_receival m;
     link_to_censor := link_to_censor m; active_links := active_links m;
     activated_link_ratio := activated_link_ratio m;
     censored_links := censored_links m; G := G m;
     number_of_edges := number_of_edges m; running := running m;
     datacollector := datacollector m; random := random m |}.

Definition set_quiescent_count (x : Z) (m : Model) : Model :=
  {| citizen_density := citizen_density m; cop_density := cop_density m;
     citizen_vision := citizen_vision m;
     cop_vision_param := cop_vision_param m; legitimacy := legitimacy m;
     max_jail_term := max_jail_term m;
     active_threshold := active_threshold m;
     arrest_prob_constant := arrest_prob_constant m; movement := movement m;
     max_iters := max_iters m; schedule_type := schedule_type m;
     activation_type := activation_type m;
     strong_weak_ratio := strong_weak_ratio m; t_censor := t_censor m;
     p_link_censor := p_link_censor m; iteration := iteration m;
     schedule := schedule m; agents := agents m; grid := grid m;
     citizen_count := citizen_count m; cop_count := cop_count m;
     jail_count := jail_count m; active_count := active_count m;
     quiescent_count := x; average_jail_term := average_jail_term m;
     strong_ties_receival := strong_ties_receival m;
     weak_ties_receival := weak_ties_receival m;
     link_to_censor := link_to_censor m; active_links := active_links m;
     activated_link_ratio := activated_link_ratio m;
     censored_links := censored_links m; G := G m;
     number_of_edges := number_of_edges m; running := running m;
     datacollector := datacollector m; random := random m |}.

Definition set_average_jail_term (x : R) (m : Model) : Model :=
  {| citizen_density := citizen_density m; cop_density := cop_density m;
     citizen_vision := citizen_vision m;
     cop_vision_param := cop_vision_param m; legitimacy := legitimacy m;
     max_jail_term := max_jail_term m;
     active_threshold := active_threshold m;
     arrest_prob_constant := arrest_prob_constant m; movement := movement m;
     max_iters := max_iters m; schedule_type := schedule_type m;
     activation_type := activation_type m;
     strong_weak_ratio := strong_weak_ratio m; t_censor := t_censor m;
     p_link_censor := p_link_censor m; iteration := iteration m;
     schedule := schedule m; agents := agents m; grid := grid m;
     citizen_count := citizen_count m; cop_count := cop_count m;
     jail_count := jail_count m; active_count := active_count m;
     quiescent_count := quiescent_count m; average_jail_term := x;
     strong_ties_receival := strong_ties_receival m;
     weak_ties_receival := weak_ties_receival m;
     link_to_censor := link_to_censor m; active_links := active_links m;
     activated_link_ratio := activated_link_ratio m;
     censored_links := censored_links m; G := G m;
     number_of_edges := number_of_edges m; running := running m;
     datacollector := datacollector m; random := random m |}.

Definition set_strong_ties_receival (x : R) (m : Model) : Model :=
  {| citizen_density := citizen_density m; cop_density := cop_density m;
     citizen_vision := citizen_vision m;
     cop_vision_param := cop_vision_param m; legitimacy := legitimacy m;
     max_jail_term := max_jail_term m;
     active_threshold := active_threshold m;
     arrest_prob_constant := arrest_prob_constant m; movement := movement m;
     max_iters := max_iters m; schedule_type := schedule_type m;
     activation_type := activation_type m;
     strong_weak_ratio := strong_weak_ratio m; t_censor := t_censor m;
     p_link_censor := p_link_censor m; iteration := iteration m;
     schedule := schedule m; agents := agents m; grid := grid m;
     citizen_count := citizen_count m; cop_count := cop_count m;
     jail_count := jail_count m; active_count := active_count m;
     quiescent_count := quiescent_count m;
     average_jail_term := average_jail_term m; strong_ties_receival := x;
     weak_ties_receival := weak_ties_receival m;
     link_to_censor := link_to_censor m; active_links := active_links m;
     activated_link_ratio := activated_link_ratio m;
     censored_links := censored_links m; G := G m;
     number_of_edges := number_of_edges m; running := running m;
     datacollector := datacollector m; random := random m |}.

Definition set_weak_ties_receival (x : R) (m : Model) : Model :=
  {| citizen_density := citizen_density m; cop_density := cop_density m;
     citizen_vision := citizen_vision m;
     cop_vision_param := cop_vision_param m; legitimacy := legitimacy m;
     max_jail_term := max_jail_term m;
     active_threshold := active_threshold m;
     arrest_prob_constant := arrest_prob_constant m; movement := movement m;
     max_iters := max_iters m; schedule_type := schedule_type m;
     activation_type := activation_type m;
     strong_weak_ratio := strong_weak_ratio m; t_censor := t_censor m;
     p_link_censor := p_link_censor m; iteration := iteration m;
     schedule := schedule m; agents := agents m; grid := grid m;
     citizen_count := citizen_count m; cop_count := cop_count m;
     jail_count := jail_count m; active_count := active_count m;
     quiescent_count := quiescent_count m;
     average_jail_term := average_jail_term m;
     strong_ties_receival := strong_ties_receival m; weak_ties_receival := x;
     link_to_censor := link_to_censor m; active_links := active_links m;
     activated_link_ratio := activated_link_ratio m;
     censored_links := censored_links m; G := G m;
     number_of_edges := number_of_edges m; running := running m;
     datacollector := datacollector m; random := random m |}.

Definition set_link_to_censor (x : gset (Z * Z)) (m : Model) : Model :=
  {| citizen_density := citizen_density m; cop_density := cop_density m;
     citizen_vision := citizen_vision m;
     cop_vision_param := cop_vision_param m; legitimacy := legitimacy m;
     max_jail_term := max_jail_term m;
     active_threshold := active_threshold m;
     arrest_prob_constant := arrest_prob_constant m; movement := movement m;
     max_iters := max_iters m; schedule_type := schedule_type m;
     activation_type := activation_type m;
     strong_weak_ratio := strong_weak_ratio m; t_censor := t_censor m;
     p_link_censor := p_link_censor m; iteration := iteration m;
     schedule := schedule m; agents := agents m; grid := grid m;
     citizen_count := citizen_count m; cop_count := cop_count m;
     jail_count := jail_count m; active_count := active_count m;
     quiescent_count := quiescent_count m;
     average_jail_term := average_jail_term m;
     strong_ties_receival := strong_ties_receival m;
     weak_ties_receival := weak_ties_receival m; link_to_censor := x;
     active_links := active_links m;
     activated_link_ratio := activated_link_ratio m;
     censored_links := censored_links m; G := G m;
     number_of_edges := number_of_edges m; running := running m;
     datacollector := datacollector m; random := random m |}.

Definition set_active_links (x : Z) (m : Model) : Model :=
  {| citizen_density := citizen_density m; cop_density := cop_density m;
     citizen_vision := citizen_vision m;
     cop_vision_param := cop_vision_param m; legitimacy := legitimacy m;
     max_jail_term := max_jail_term m;
     active_threshold := active_threshold m;
     arrest_prob_constant := arrest_prob_constant m; movement := movement m;
     max_iters := max_iters m; schedule_type := schedule_type m;
     activation_type := activation_type m;
     strong_weak_ratio := strong_weak_ratio m; t_censor := t_censor m;
     p_link_censor := p_link_censor m; iteration := iteration m;
     schedule := schedule m; agents := agents m; grid := grid m;
     citizen_count := citizen_count m; cop_count := cop_count m;
     jail_count := jail_count m; active_count := active_count m;
     quiescent_count := quiescent_count m;
     average_jail_term := average_jail_term m;
     strong_ties_receival := strong_ties_receival m;
     weak_ties_receival := weak_ties_receival m;
     link_to_censor := link_to_censor m; active_links := x;
     activated_link_ratio := activated_link_ratio m;
     censored_links := censored_links m; G := G m;
     number_of_edges := number_of_edges m; running := running m;
     datacollector := datacollector m; random := random m |}.

Definition set_activated_link_ratio (x : R) (m : Model) : Model :=
  {| citizen_density := citizen_density m; cop_density := cop_density m;
     citizen_vision := citizen_vision m;
     cop_vision_param := cop_vision_param m; legitimacy := legitimacy m;
     max_jail_term := max_jail_term m;
     active_threshold := active_threshold m;
     arrest_prob_constant := arrest_prob_constant m; movement := movement m;
     max_iters := max_iters m; schedule_type := schedule_type m;
     activation_type := activation_type m;
     strong_weak_ratio := strong_weak_ratio m; t_censor := t_censor m;
     p_link_censor := p_link_censor m; iteration := iteration m;
     schedule := schedule m; agents := agents m; grid := grid m;
     citizen_count := citizen_count m; cop_count := cop_count m;
     jail_count := jail_count m; active_count := active_count m;
     quiescent_count := quiescent_count m;
     average_jail_term := average_jail_term m;
     strong_ties_receival := strong_ties_receival m;
     weak_ties_receival := weak_ties_receival m;
     link_to_censor := link_to_censor m; active_links := active_links m;
     activated_link_ratio := x; censored_links := censored_links m; G := G m;
     number_of_edges := number_of_edges m; running := running m;
     datacollector := datacollector m; random := random m |}.

Definition set_censored_links (x : Z) (m : Model) : Model :=
  {| citizen_density := citizen_density m; cop_density := cop_density m;
     citizen_vision := citizen_vision m;
     cop_vision_param := cop_vision_param m; legitimacy := legitimacy m;
     max_jail_term := max_jail_term m;
     active_threshold := active_threshold m;
     arrest_prob_constant := arrest_prob_constant m; movement := movement m;
     max_iters := max_iters m; schedule_type := schedule_type m;
     activation_type := activation_type m;
     strong_weak_ratio := strong_weak_ratio m; t_censor := t_censor m;
     p_link_censor := p_link_censor m; iteration := iteration m;
     schedule := schedule m; agents := agents m; grid := grid m;
     citizen_count := citizen_count m; cop_count := cop_count m;
     jail_count := jail_count m; active_count := active_count m;
     quiescent_count := quiescent_count m;
     average_jail_term := average_jail_term m;
     strong_ties_receival := strong_ties_receival m;
     weak_ties_receival := weak_ties_receival m;
     link_to_censor := link_to_censor m; active_links := active_links m;
     activated_link_ratio := activated_link_ratio m; censored_links := x;
     G := G m; number_of_edges := number_of_edges m; running := running m;
     datacollector := datacollector m; random := random m |}.

Definition set_G (x : Nx.Graph) (m : Model) : Model :=
  {| citizen_density := citizen_density m; cop_density := cop_density m;
     citizen_vision := citizen_vision m;
     cop_vision_param := cop_vision_param m; legitimacy := legitimacy m;
     max_jail_term := max_jail_term m;
     active_threshold := active_threshold m;
     arrest_prob_constant := arrest_prob_constant m; movement := movement m;
     max_iters := max_iters m; schedule_type := schedule_type m;
     activation_type := activation_type m;
     strong_weak_ratio := strong_weak_ratio m; t_censor := t_censor m;
     p_link_censor := p_link_censor m; iteration := iteration m;
     schedule := schedule m; agents := agents m; grid := grid m;
     citizen_count := citizen_count m; cop_count := cop_count m;
     jail_count := jail_count m; active_count := active_count m;
     quiescent_count := quiescent_count m;
     average_jail_term := average_jail_term m;
     strong_ties_receival := strong_ties_receival m;
     weak_ties_receival := weak_ties_receival m;
     link_to_censor := link_to_censor m; active_links := active_links m;
     activated_link_ratio := activated_link_ratio m;
     censored_links := censored_links m; G := x;
     number_of_edges := number_of_edges m; running := running m;
     datacollector := datacollector m; random := random m |}.

Definition set_running (x : bool) (m : Model) : Model :=
  {| citizen_density := citizen_density m; cop_density := cop_density m;
     citizen_vision := citizen_vision m;
     cop_vision_param := cop_vision_param m; legitimacy := legitimacy m;
     max_jail_term := max_jail_term m;
     active_threshold := active_threshold m;
     arrest_prob_constant := arrest_prob_constant m; movement := movement m;
     max_iters := max_iters m; schedule_type := schedule_type m;
     activation_type := activation_type m;
     strong_weak_ratio := strong_weak_ratio m; t_censor := t_censor m;
     p_link_censor := p_link_censor m; iteration := iteration m;
     schedule := schedule m; agents := agents m; grid := grid m;
     citizen_count := citizen_count m; cop_count := cop_count m;
     jail_count := jail_count m; active_count := active_count m;
     quiescent_count := quiescent_count m;
     average_jail_term := average_jail_term m;
     strong_ties_receival := strong_ties_receival m;
     weak_ties_receival := weak_ties_receival m;
     link_to_censor := link_to_censor m; active_links := active_links m;
     activated_link_ratio := activated_link_ratio m;
     censored_links := censored_links m; G := G m;
     number_of_edges := number_of_edges m; running := x;
     datacollector := datacollector m; random := random m |}.

Definition set_datacollector (x : list Row) (m : Model) : Model :=
  {| citizen_density := citizen_density m; cop_density := cop_density m;
     citizen_vision := citizen_vision m;
     cop_vision_param := cop_vision_param m; legitimacy := legitimacy m;
     max_jail_term := max_jail_term m;
     active_threshold := active_threshold m;
     arrest_prob_constant := arrest_prob_constant m; movement := movement m;
     max_iters := max_iters m; schedule_type := schedule_type m;
     activation_type := activation_type m;
     strong_weak_ratio := strong_weak_ratio m; t_censor := t_censor m;
     p_link_censor := p_link_censor m; iteration := iteration m;
     schedule := schedule m; agents := agents m; grid := grid m;
     citizen_count := citizen_count m; cop_count := cop_count m;
     jail_count := jail_count m; active_count := active_count m;
     quiescent_count := quiescent_count m;
     average_jail_term := average_jail_term m;
     strong_ties_receival := strong_ties_receival m;
     weak_ties_receival := weak_ties_receival m;
     link_to_censor := link_to_censor m; active_links := active_links m;
     activated_link_ratio := activated_link_ratio m;
     censored_links := censored_links m; G := G m;
     number_of_edges := number_of_edges m; running := running m;
     datacollector := x; random := random m |}.

Definition set_random (x : Rng.Random) (m : Model) : Model :=
  {| citizen_density := citizen_density m; cop_density := cop_density m;
     citizen_vision := citizen_vision m;
     cop_vision_param := cop_vision_param m; legitimacy := legitimacy m;
     max_jail_term := max_jail_term m;
     active_threshold := active_threshold m;
     arrest_prob_constant := arrest_prob_constant m; movement := movement m;
     max_iters := max_iters m; schedule_type := schedule_type m;
     activation_type := activation_type m;
     strong_weak_ratio := strong_weak_ratio m; t_censor := t_censor m;
     p_link_censor := p_link_censor m; iteration := iteration m;
     schedule := schedule m; agents := agents m; grid := grid m;
     citizen_count := citizen_count m; cop_count := cop_count m;
     jail_count := jail_count m; active_count := active_count m;
     quiescent_count := quiescent_count m;
     average_jail_term := average_jail_term m;
     strong_ties_receival := strong_ties_receival m;
     weak_ties_receival := weak_ties_receival m;
     link_to_censor := link_to_censor m; active_links := active_links m;
     activated_link_ratio := activated_link_ratio m;
     censored_links := censored_links m; G := G m;
     number_of_edges := number_of_edges m; running := running m;
     datacollector := datacollector m; random := x |}.

(** ** Grid services used by the agents *)

Definition is_cell_empty (g : Grid) (p : Z * Z) : bool :=
  bool_decide (cells g !! p = None).

Definition get_cell_list_contents (g : Grid) (ps : list (Z * Z)) : list Z :=
  omap (λ p, cells g !! p) ps.

Definition set_cells (cs : gmap (Z * Z) Z) (g : Grid) : Grid :=
  mkGrid (grid_width g) (grid_height g) cs (get_neighborhood g).

(** [grid.move_agent(agent, new_pos)]: vacate the old cell, occupy the new
    one, update [agent.pos]. *)
Definition move_agent (uid : Z) (new_pos : Z * Z) (m : Model) : Model :=
  match agents m !! uid with
  | Some a =>
      set_agents (<[uid := set_agent_pos new_pos a]> (agents m))
        (set_grid
           (set_cells (<[new_pos := uid]> (delete (agent_pos a) (cells (grid m))))
                      (grid m)) m)
  | None => m
  end.

(** [update_neighbors], the same for both breeds: the occupants of the
    neighbourhood (as references) and its empty cells. *)
Definition update_neighbors (m : Model) (p : Z * Z) (v : Z)
  : list Z * list (Z * Z) :=
  let neighborhood := get_neighborhood (grid m) p v in
  (get_cell_list_contents (grid m) neighborhood,
   filter (λ c, is_cell_empty (grid m) c = true) neighborhood).

(** [if self.model.movement and self.empty_neighbors: ...] *)
Definition try_move (uid : Z) (empty_neighbors : list (Z * Z)) (m : Model)
  : Model :=
  if movement m then
    match empty_neighbors with
    | [] => m
    | _ :: _ =>
        let '(new_pos, r) := Rng.choice empty_neighbors (random m) in
        match new_pos with
        | Some p => move_agent uid p (set_random r m)
        | None => set_random r m
        end
    end
  else m.

(** ** [Citizen] *)

Definition lookup_citizen (m : Model) (i : Z) : option Citizen :=
  match agents m !! i with
  | Some (ACitizen c) => Some c
  | _ => None
  end.

(** [get_agents_by_ids]: [agent_dict] holds exactly the citizens *)
Definition get_agents_by_ids (m : Model) (id_list : list Z) : list Citizen :=
  omap (lookup_citizen m) id_list.

(** [c.condition == "Active" and c.jail_sentence == 0] *)
Definition active_free (c : Citizen) : bool :=
  bool_decide (condition c = Active) && bool_decide (jail_sentence c = 0).

(** the same test behind [c.breed == "citizen"], on a reference *)
Definition active_free_citizen (m : Model) (i : Z) : bool :=
  match lookup_citizen m i with
  | Some c => active_free c
  | None => false
  end.

Definition censored_edges (g : Nx.Graph) : list (Z * Z) :=
  (λ kv, kv.1) <$>
    filter (λ kv : Z * Z * Z, 0 < kv.2) (map_to_list (Nx.edges g)).

(** the ego network after the two passes of [prepare_ego] *)
Definition pruned_ego (g : Nx.Graph) (uid : Z) : result Nx.Graph :=
  ego ← Nx.ego_graph g uid;
  Nx.ego_graph (Nx.remove_edges_from ego (censored_edges ego)) uid.

Definition degree_1_ids (ego_network : Nx.Graph) (uid : Z) : gset Z :=
  Nx.neighbors ego_network uid.

Definition degree_2_ids (ego_network : Nx.Graph) (uid : Z) : gset Z :=
  Nx.nodes ego_network ∖ degree_1_ids ego_network uid.

(** [prepare_ego]: the ego network, [degree_1_neighbors] and
    [degree_2_neighbors] *)
Definition prepare_ego (m : Model) (uid : Z)
  : result (Nx.Graph * list Citizen * list Citizen) :=
  ego_network ← pruned_ego (G m) uid;
  Ok (ego_network,
      get_agents_by_ids m (elements (degree_1_ids ego_network uid)),
      get_agents_by_ids m (elements (degree_2_ids ego_network uid))).

(** [sys.float_info.max], the largest finite double: 2^1024 - 2^971 *)
Definition DBL_MAX : R := IZR (2 ^ 1024 - 2 ^ 971).

(** [math.exp]: a result beyond the largest double is a range error
    (OverflowError); the exponent itself is taken to be a finite double *)
Definition math_exp (x : R) : result R :=
  if Rgt_dec (exp x) DBL_MAX then Raise OverflowError else Ok (exp x).

(** [1 - math.exp(-1 * k * math.floor(cops_in_vision / actives_in_vision))];
    the division raises on a zero denominator, and the exponential on a
    result out of range. *)
Definition estimate (k : R) (cops_in_vision : Z) (actives : R) : result R :=
  if Req_dec_T actives 0 then Raise ZeroDivisionError
  else
    e ← math_exp (-1 * k * IZR (Int_part (IZR cops_in_vision / actives)))%R;
    Ok (1 - e)%R.

(** the estimate as a function of the floored ratio *)
Definition saturation (k : R) (n : Z) : R := (1 - exp (-1 * k * IZR n))%R.

Definition cops_among (m : Model) (neighbors : list Z) : Z :=
  Z.of_nat (length (filter (λ i, from_option is_cop false (agents m !! i) = true)
                           neighbors)).

(** the first loop of both estimators *)
Definition count_spatial (m : Model) (neighbors : list Z) (a0 : R) : R :=
  fold_left (λ a i, if active_free_citizen m i then (a + 1)%R else a)
            neighbors a0.

(** the loops over [degree_1_neighbors] and [degree_2_neighbors]: the
    running sum and the ties counter *)
Definition count_ties (w : R) (cs : list Citizen) (a0 : R) : R * Z :=
  fold_left (λ '(a, n) c, if active_free c then ((a + w)%R, n + 1) else (a, n))
            cs (a0, 0).

(** [update_network_arrest_probability] *)
Definition update_network_arrest_probability (m : Model) (self : Citizen)
    (neighbors : list Z) (degree_1_neighbors degree_2_neighbors : list Citizen)
  : result Citizen :=
  let cops_in_vision := cops_among m neighbors in
  let a1 := count_spatial m neighbors 1%R in
  let '(a2, strong) := count_ties (strong_weak_ratio m) degree_1_neighbors a1 in
  let '(a3, weak) := count_ties 1%R degree_2_neighbors a2 in
  p ← estimate (arrest_prob_constant m) cops_in_vision a3;
  Ok (set_estimate a3 p strong weak self).

(** [update_estimated_arrest_probability] leaves the ties counters alone *)
Definition update_estimated_arrest_probability (m : Model) (self : Citizen)
    (neighbors : list Z) : result Citizen :=
  let cops_in_vision := cops_among m neighbors in
  let a1 := count_spatial m neighbors 1%R in
  p ← estimate (arrest_prob_constant m) cops_in_vision a1;
  Ok (set_estimate a1 p (strong_ties_received self) (weak_ties_received self)
                   self).

(** [if self.grievance - net_risk > self.threshold: condition = "Active"],
    for a Quiescent citizen *)
Definition decide_condition (self : Citizen) : Citizen :=
  match condition self, arrest_probability self with
  | Quiescent, Some p =>
      if Rgt_dec (grievance self - risk_aversion self * p) (threshold self)
      then set_condition Active self else self
  | _, _ => self
  end.

(** the edges that an Active citizen adds to [link_to_censor] *)
Definition links_of (ego_network : Nx.Graph) (uid : Z) : gset (Z * Z) :=
  list_to_set ((λ e, Nx.canon e.1 e.2) <$> Nx.edges_at ego_network uid).

(** [Citizen.step] for the citizen stored under [uid] *)
Definition Citizen_step (uid : Z) (self : Citizen) (m : Model) : result Model :=
  if decide (jail_sentence self ≠ 0) then
    Ok (set_agents
          (<[uid := ACitizen (set_jail_sentence (jail_sentence self - 1) self)]>
             (agents m)) m)
  else
    match activation_type m with
    | WithSWN =>
        ego ← prepare_ego m uid;
        let neighbors := (update_neighbors m (pos self) (vision self)).1 in
        let empty_neighbors := (update_neighbors m (pos self) (vision self)).2 in
        self1 ← update_network_arrest_probability m self neighbors
                  ego.1.2 ego.2;
        let m1 :=
          if decide (condition self1 = Active)
          then set_link_to_censor (link_to_censor m ∪ links_of ego.1.1 uid) m
          else m in
        let self2 := decide_condition self1 in
        Ok (try_move uid empty_neighbors
              (set_agents (<[uid := ACitizen self2]> (agents m1)) m1))
    | WithoutSWN =>
        let neighbors := (update_neighbors m (pos self) (vision self)).1 in
        let empty_neighbors := (update_neighbors m (pos self) (vision self)).2 in
        self1 ← update_estimated_arrest_probability m self neighbors;
        let self2 := decide_condition self1 in
        Ok (try_move uid empty_neighbors
              (set_agents (<[uid := ACitizen self2]> (agents m)) m))
    end.

(** ** [Cop] *)

(** [active_neighbors] of [Cop.step] *)
Definition active_neighbors (m : Model) (k : Cop) : list Z :=
  filter (λ i, active_free_citizen m i = true)
         (update_neighbors m (cop_pos k) (cop_vision k)).1.

(** the citizen that the cop picks, if it picks one *)
Definition arrestee_of (m : Model) (k : Cop) : option Z :=
  match active_neighbors m k with
  | [] => None
  | l => (Rng.choice l (random m)).1
  end.

Definition arrest (i : Z) (sentence : Z) (m : Model) : Model :=
  match lookup_citizen m i with
  | Some c =>
      set_agents
        (<[i := ACitizen (set_condition Quiescent (set_jail_sentence sentence c))]>
           (agents m)) m
  | None => m
  end.

(** [Cop.step] for the cop stored under [uid] *)
Definition Cop_step (uid : Z) (self : Cop) (m : Model) : result Model :=
  let empty_neighbors :=
    (update_neighbors m (cop_pos self) (cop_vision self)).2 in
  m1 ← match arrestee_of m self with
       | Some arrestee =>
           let r1 := (Rng.choice (active_neighbors m self) (random m)).2 in
           let '(sentence, r2) := Rng.randint 0 (max_jail_term m) r1 in
           s ← sentence;
           Ok (arrest arrestee s (set_random r2 m))
       | None => Ok m
       end;
  Ok (try_move uid empty_neighbors m1).

(** ** The scheduler *)

(** [agent.step()] on the object stored under [uid] *)
Definition activate (uid : Z) (m : Model) : result Model :=
  match agents m !! uid with
  | Some (ACitizen c) => Citizen_step uid c m
  | Some (ACop k) => Cop_step uid k m
  | None => Ok m
  end.

Fixpoint activate_all (order : list Z) (m : Model) : result Model :=
  match order with
  | [] => Ok m
  | uid :: rest => m' ← activate uid m; activate_all rest m'
  end.

(** the order in which [schedule.step()] visits the agents, and the
    generator after the shuffle.  [SimultaneousActivation] calls [step]
    and then [advance]; the agents inherit the empty [advance]. *)
Definition activation_order (m : Model) : list Z * Rng.Random :=
  match schedule_type m with
  | Sequential | Simultaneous => (schedule m, random m)
  | Random => Rng.shuffle (schedule m) (random m)
  end.

Definition schedule_step (m : Model) : result Model :=
  let '(order, r) := activation_order m in
  activate_all order (set_random r m).

(** ** Aggregates *)

(** [model.schedule.agents] *)
Definition schedule_agents (m : Model) : list Agent :=
  omap (λ i, agents m !! i) (schedule m).

(** [count_type_citizens(model, condition)], with [exclude_jailed=True] *)
Definition count_type_citizens (m : Model) (k : Condition) : Z :=
  fold_left
    (λ count a,
       match a with
       | ACop _ => count
       | ACitizen c =>
           if decide (0 < jail_sentence c) then count
           else if decide (condition c = k) then count + 1 else count
       end)
    (schedule_agents m) 0.

Definition count_jailed (m : Model) : Z :=
  fold_left
    (λ count a,
       match a with
       | ACitizen c => if decide (0 < jail_sentence c) then count + 1 else count
       | ACop _ => count
       end)
    (schedule_agents m) 0.

Definition count_citizens (m : Model) : Z :=
  fold_left (λ count a, if is_cop a then count else count + 1)
            (schedule_agents m) 0.

Definition count_cops (m : Model) : Z :=
  fold_left (λ count a, if is_cop a then count + 1 else count)
            (schedule_agents m) 0.

Definition get_active_link (m : Model) : Z := active_links m.

(** [model.active_links / model.number_of_edges] *)
Definition get_active_link_ratio (m : Model) : result R :=
  if decide (number_of_edges m = 0) then Raise ZeroDivisionError
  else Ok (IZR (active_links m) / IZR (number_of_edges m))%R.

Definition get_censored_link (m : Model) : Z := censored_links m.

(** the sum of the sentences of the jailed citizens *)
Definition jail_total (m : Model) : Z :=
  fold_left
    (λ total a,
       match a with
       | ACitizen c =>
           if decide (0 < jail_sentence c) then total + jail_sentence c
           else total
       | ACop _ => total
       end)
    (schedule_agents m) 0.

(** [get_average_jail_term]: the denominator is the attribute
    [model.jail_count] *)
Definition get_average_jail_term (m : Model) : result R :=
  let total := jail_total m in
  if decide (jail_count m = 0) then Ok 0%R
  else Ok (IZR total / IZR (jail_count m))%R.

(** the loop shared by the two receival averages: total and count over
    the citizens with [jail_sentence == 0] *)
Definition receival_loop (f : Citizen → Z) (m : Model) : Z * Z :=
  fold_left
    (λ '(total, count) a,
       match a with
       | ACitizen c =>
           if decide (jail_sentence c = 0) then (total + f c, count + 1)
           else (total, count)
       | ACop _ => (total, count)
       end)
    (schedule_agents m) (0, 0).

Definition average_receival (f : Citizen → Z) (m : Model) : result R :=
  let '(total, count) := receival_loop f m in
  if decide (total = 0) then Ok 0%R
  else if decide (count = 0) then Raise ZeroDivisionError
  else Ok (IZR total / IZR count)%R.

Definition get_average_strong_ties_receival (m : Model) : result R :=
  average_receival strong_ties_received m.

Definition get_average_weak_ties_receival (m : Model) : result R :=
  average_receival weak_ties_received m.

(** [datacollector.collect(self)]: every model reporter is called, in the
    order of [model_reporters]; the agent reporters only read attributes. *)
Definition collect (m : Model) : result Model :=
  jt ← get_average_jail_term m;
  sr ← get_average_strong_ties_receival m;
  wr ← get_average_weak_ties_receival m;
  ratio ← get_active_link_ratio m;
  Ok (set_datacollector
        (datacollector m ++
           [ {| row_Quiescent := count_type_citizens m Quiescent;
                row_Active := count_type_citizens m Active;
                row_Jailed := count_jailed m;
                row_Citizens := count_citizens m;
                row_Cops := count_cops m;
                row_Average_Jailing_Term := jt;
                row_Average_Strong_Receival := sr;
                row_Average_Weak_Receival := wr;
                row_Active_Links := get_active_link m;
                row_Activated_Links_Ratio := ratio;
                row_Censored_Links_per_step := get_censored_link m |} ])
        m).

(** ** [EpsteinCivilViolence.step] *)

(** the countdown update that opens the tick *)
Definition decay (g : Nx.Graph) : Nx.Graph :=
  Nx.mkGraph (Nx.nodes g)
             ((λ d, if decide (0 < d) then d - 1 else d) <$> Nx.edges g).

(** the body of [for u, v in self.link_to_censor] *)
Definition censor_link (e : Z * Z) (m : Model) : result Model :=
  match Nx.get_edge (G m) e.1 e.2 with
  | None => Raise KeyError
  | Some d =>
      if decide (d = 0) then
        let '(x, r) := Rng.random (random m) in
        if Rlt_dec x (p_link_censor m) then
          Ok (set_censored_links (censored_links m + 1)
                (set_G (Nx.set_edge (G m) e.1 e.2 (t_censor m))
                   (set_random r m)))
        else Ok (set_random r m)
      else Ok m
  end.

Fixpoint censor_links (pending : list (Z * Z)) (m : Model) : result Model :=
  match pending with
  | [] => Ok m
  | e :: rest => m' ← censor_link e m; censor_links rest m'
  end.

(** the tick up to and including [schedule.step()] *)
Definition begin_step (m : Model) : Model :=
  set_G (decay (G m)) (set_censored_links 0 m).

(** the attribute updates that close the tick, after [collect] *)
Definition update_counts (m5 : Model) : result Model :=
  let m6 := set_active_count (count_type_citizens m5 Active) m5 in
  let m7 := set_quiescent_count (count_type_citizens m6 Quiescent) m6 in
  let m8 := set_jail_count (count_jailed m7) m7 in
  jt ← get_average_jail_term m8;
  let m9 := set_average_jail_term jt m8 in
  sr ← get_average_strong_ties_receival m9;
  let m10 := set_strong_ties_receival sr m9 in
  wr ← get_average_weak_ties_receival m10;
  let m11 := set_weak_ties_receival wr m10 in
  let m12 := set_iteration (iteration m11 + 1) m11 in
  Ok (if decide (max_iters m12 < iteration m12) then set_running false m12
      else m12).

(** the tick after [schedule.step()] *)
Definition end_step (m : Model) : result Model :=
  let m1 := set_active_links (Z.of_nat (size (link_to_censor m))) m in
  ratio ← get_active_link_ratio m1;
  let m2 := set_activated_link_ratio ratio m1 in
  m3 ← censor_links (elements (link_to_censor m2)) m2;
  let m4 := set_link_to_censor ∅ m3 in
  m5 ← collect m4;
  update_counts m5.

Definition step (m : Model) : result Model :=
  m' ← schedule_step (begin_step m);
  end_step m'.

(** [n] ticks in a row *)
Fixpoint steps (n : nat) (m : Model) : result Model :=
  match n with
  | O => Ok m
  | S n' => m' ← step m; steps n' m'
  end.

(** ** [EpsteinCivilViolence.__init__] *)

Record Config : Type := mkConfig {
  cfg_width : Z;
  cfg_height : Z;
  cfg_citizen_density : R;
  cfg_cop_density : R;
  cfg_citizen_vision : Z;
  cfg_cop_vision : Z;
  cfg_legitimacy : R;
  cfg_max_jail_term : Z;
  cfg_active_threshold : R;
  cfg_arrest_prob_constant : R;
  cfg_movement : bool;
  cfg_max_iters : Z;
  cfg_schedule_type : ScheduleType;
  cfg_activation_type : ActivationType;
  cfg_lattice_neighbor : Z;
  cfg_rewire_prob : R;
  cfg_strong_weak_ratio : R;
  cfg_t_censor : Z;
  cfg_p_link_censor : R
}.

(** What the constructor takes from outside the repository: the seed's
    stream of draws, the grid's neighbourhood method (by width and
    height), and [networkx]'s [watts_strogatz_graph n k p], which returns
    the nodes in iteration order and the edges, or raises. *)
Record Env : Type := mkEnv {
  seed_stream : nat → Z;
  neighborhood : Z → Z → Z * Z → Z → list (Z * Z);
  watts_strogatz_graph : Z → Z → R → result (list Z * list (Z * Z))
}.

(** [if self.cop_density + self.citizen_density > 1: raise ValueError] *)
Definition density_check (cfg : Config) : result unit :=
  if Rgt_dec (cfg_cop_density cfg + cfg_citizen_density cfg) 1
  then Raise ValueError else Ok tt.

(** [grid.coord_iter()] *)
Definition coord_iter (w h : Z) : list (Z * Z) :=
  x ← seqZ 0 w; y ← seqZ 0 h; [(x, y)].

(** the local state of the placement loop *)
Record Placement : Type := mkPlacement {
  unique_id : Z;
  list_citizen_ids : list Z;
  placed_agents : gmap Z Agent;
  placed_cells : gmap (Z * Z) Z;
  placed_schedule : list Z;
  placed_random : Rng.Random
}.

(** the body of [for (contents, x, y) in self.grid.coord_iter()] *)
Definition place (cfg : Config) (s : Placement) (xy : Z * Z) : Placement :=
  let '(r1, g1) := Rng.random (placed_random s) in
  if Rlt_dec r1 (cfg_cop_density cfg) then
    {| unique_id := unique_id s + 1;
       list_citizen_ids := list_citizen_ids s;
       placed_agents :=
         <[unique_id s := ACop (mkCop xy (cfg_cop_vision cfg))]> (placed_agents s);
       placed_cells := <[xy := unique_id s]> (placed_cells s);
       placed_schedule := placed_schedule s ++ [unique_id s];
       placed_random := g1 |}
  else
    let '(r2, g2) := Rng.random g1 in
    if Rlt_dec r2 (cfg_cop_density cfg + cfg_citizen_density cfg) then
      let '(h, g3) := Rng.random g2 in
      let '(ra, g4) := Rng.random g3 in
      {| unique_id := unique_id s + 1;
         list_citizen_ids := list_citizen_ids s ++ [unique_id s];
         placed_agents :=
           <[unique_id s :=
               ACitizen (new_Citizen xy h (cfg_legitimacy cfg) ra
                           (cfg_active_threshold cfg) (cfg_citizen_vision cfg))]>
             (placed_agents s);
         placed_cells := <[xy := unique_id s]> (placed_cells s);
         placed_schedule := placed_schedule s ++ [unique_id s];
         placed_random := g4 |}
    else
      {| unique_id := unique_id s;
         list_citizen_ids := list_citizen_ids s;
         placed_agents := placed_agents s;
         placed_cells := placed_cells s;
         placed_schedule := placed_schedule s;
         placed_random := g2 |}.

Definition placement (env : Env) (cfg : Config) : Placement :=
  fold_left (place cfg) (coord_iter (cfg_width cfg) (cfg_height cfg))
    {| unique_id := 0; list_citizen_ids := []; placed_agents := ∅;
       placed_cells := ∅; placed_schedule := [];
       placed_random := Rng.mkRandom (seed_stream env) 0 |}.

(** [watts_strogatz_graph(len(list_citizen_ids), lattice_neighbor,
    rewire_prob)], relabelled by [dict(zip(self.G, list_citizen_ids))],
    every edge with [censor_steps = 0] *)
Definition build_graph (env : Env) (cfg : Config) (ids : list Z)
  : result Nx.Graph :=
  '(ns, es) ← watts_strogatz_graph env (Z.of_nat (length ids))
                 (cfg_lattice_neighbor cfg) (cfg_rewire_prob cfg);
  Ok (Nx.relabel_nodes ns es (list_to_map (reverse (zip ns ids)))).

(** the model as it stands just before the first [collect] *)
Definition assemble (env : Env) (cfg : Config) (s : Placement) (g : Nx.Graph)
  : Model :=
  {| citizen_density := cfg_citizen_density cfg;
     cop_density := cfg_cop_density cfg;
     citizen_vision := cfg_citizen_vision cfg;
     cop_vision_param := cfg_cop_vision cfg;
     legitimacy := cfg_legitimacy cfg;
     max_jail_term := cfg_max_jail_term cfg;
     active_threshold := cfg_active_threshold cfg;
     arrest_prob_constant := cfg_arrest_prob_constant cfg;
     movement := cfg_movement cfg;
     max_iters := cfg_max_iters cfg;
     schedule_type := cfg_schedule_type cfg;
     activation_type := cfg_activation_type cfg;
     strong_weak_ratio := cfg_strong_weak_ratio cfg;
     t_censor := cfg_t_censor cfg;
     p_link_censor := cfg_p_link_censor cfg;
     iteration := 0;
     schedule := placed_schedule s;
     agents := placed_agents s;
     grid := mkGrid (cfg_width cfg) (cfg_height cfg) (placed_cells s)
               (neighborhood env (cfg_width cfg) (cfg_height cfg));
     citizen_count := 0; cop_count := 0; jail_count := 0;
     active_count := 0; quiescent_count := 0; average_jail_term := 0%R;
     strong_ties_receival := 0%R; weak_ties_receival := 0%R;
     link_to_censor := ∅; active_links := 0; activated_link_ratio := 0%R;
     censored_links := 0;
     G := g; number_of_edges := Nx.number_of_edges g;
     running := true; datacollector := [];
     random := placed_random s |}.

Definition init (env : Env) (cfg : Config) : result Model :=
  _ ← density_check cfg;
  let s := placement env cfg in
  g ← build_graph env cfg (list_citizen_ids s);
  m ← collect (assemble env cfg s g);
  let m1 :=
    set_citizen_count
      (count_type_citizens m Quiescent + count_type_citizens m Active
       + count_jailed m) m in
  Ok (set_cop_count (count_cops m1) m1).


(** the same configuration with another activation mode *)
Definition with_activation_type (mode : ActivationType) (cfg : Config) : Config :=
  {| cfg_width := cfg_width cfg; cfg_height := cfg_height cfg;
     cfg_citizen_density := cfg_citizen_density cfg;
     cfg_cop_density := cfg_cop_density cfg;
     cfg_citizen_vision := cfg_citizen_vision cfg;
     cfg_cop_vision := cfg_cop_vision cfg;
     cfg_legitimacy := cfg_legitimacy cfg;
     cfg_max_jail_term := cfg_max_jail_term cfg;
     cfg_active_threshold := cfg_active_threshold cfg;
     cfg_arrest_prob_constant := cfg_arrest_prob_constant cfg;
     cfg_movement := cfg_movement cfg; cfg_max_iters := cfg_max_iters cfg;
     cfg_schedule_type := cfg_schedule_type cfg;
     cfg_activation_type := mode;
     cfg_lattice_neighbor := cfg_lattice_neighbor cfg;
     cfg_rewire_prob := cfg_rewire_prob cfg;
     cfg_strong_weak_ratio := cfg_strong_weak_ratio cfg;
     cfg_t_censor := cfg_t_censor cfg;
     cfg_p_link_censor := cfg_p_link_censor cfg |}.

(** * Predicates and views used to state the properties *)

(** every edge is stored under its ordered pair of endpoints *)
Definition canonical (g : Nx.Graph) : Prop :=
  ∀ k, k ∈ dom (Nx.edges g) → k.1 ≤ k.2.

(** the graph without its censored edges *)
Definition live (g : Nx.Graph) : Nx.Graph :=
  Nx.mkGraph (Nx.nodes g) (filter (λ kv, ¬ 0 < kv.2) (Nx.edges g)).

(** the graph that the agents read during the tick that starts in [m] *)
Definition seen (m : Model) : Nx.Graph := G (begin_step m).

(** the live edges at [n], each under its ordered pair *)
Definition incident_live (g : Nx.Graph) (n : Z) : gset (Z * Z) :=
  filter (λ k, k.1 = n ∨ k.2 = n) (dom (Nx.edges (live g))).




(** how [m'] may differ from [m] after some steps of the resolution loop:
    same agents, same constants, same edge set, and every countdown
    either untouched or raised from 0 to [t_censor] *)
Definition resolved (m m' : Model) : Prop :=
  agents m' = agents m
  ∧ schedule m' = schedule m
  ∧ t_censor m' = t_censor m
  ∧ Nx.nodes (G m') = Nx.nodes (G m)
  ∧ dom (Nx.edges (G m')) = dom (Nx.edges (G m))
  ∧ ∀ k, Nx.edges (G m') !! k = Nx.edges (G m) !! k
         ∨ (Nx.edges (G m) !! k = Some 0
            ∧ Nx.edges (G m') !! k = Some (t_censor m)).

(** the invariant of every model built by [init] and advanced by [step]:
    edges are stored in order, the scheduler holds every agent once, and
    a jail sentence is never negative and always goes with the condition
    that an arrest sets *)
Definition consistent (m : Model) : Prop :=
  canonical (G m)
  ∧ NoDup (schedule m)
  ∧ (∀ i, is_Some (agents m !! i) → i ∈ schedule m)
  ∧ (∀ i c, lookup_citizen m i = Some c →
            0 ≤ jail_sentence c
            ∧ (0 < jail_sentence c → condition c = Quiescent)).

(** what a tick needs in order not to raise: in network mode every
    citizen is a node of the graph and the tie weight is not negative;
    the arrest constant is not negative, so that the exponent of the
    estimate is not positive; the sentence range is not empty; the graph
    has an edge; and the pending edges are edges of the graph *)
Definition runnable (m : Model) : Prop :=
  canonical (G m)
  ∧ (activation_type m = WithSWN →
     (∀ i, is_Some (lookup_citizen m i) → i ∈ Nx.nodes (G m))
     ∧ (0 <= strong_weak_ratio m)%R)
  ∧ (0 <= arrest_prob_constant m)%R
  ∧ 0 ≤ max_jail_term m
  ∧ number_of_edges m ≠ 0
  ∧ link_to_censor m ⊆ dom (Nx.edges (G m)).

(** what [networkx.watts_strogatz_graph] guarantees of its result,
    whatever it rewires: a lattice degree above the number of nodes is
    refused with [NetworkXError]; a graph that has an edge has the nodes
    [0 .. n-1], in this order, and every edge joins two of them *)
Definition small_world_generator
    (gen : Z → Z → R → result (list Z * list (Z * Z))) : Prop :=
  (∀ n k p, n < k → gen n k p = Raise NetworkXError)
  ∧ (∀ n k p ns es, gen n k p = Ok (ns, es) → es ≠ [] →
       ns = seqZ 0 n
       ∧ ∀ u v, (u, v) ∈ es → (0 ≤ u < n) ∧ (0 ≤ v < n)).

(** the edges that the agents of [order], activated in turn from [m],
    mark for censorship: the live edges at every citizen that is Active
    and out of jail when its own activation begins *)
Fixpoint marked (order : list Z) (m : Model) : gset (Z * Z) :=
  match order with
  | [] => ∅
  | uid :: rest =>
      (if active_free_citizen m uid then incident_live (G m) uid else ∅)
      ∪ match activate uid m with
        | Ok m' => marked rest m'
        | Raise _ => ∅
        end
  end.

(** * Counting functions used to state the properties *)

(** the non-jailed Active citizens among the occupants [neighbors] *)
Definition active_spatial (m : Model) (neighbors : list Z) : Z :=
  Z.of_nat (length (filter (λ i, active_free_citizen m i = true) neighbors)).

(** the non-jailed Active citizens among the ids [ids] *)
Definition active_ties (m : Model) (ids : gset Z) : Z :=
  Z.of_nat (size (filter (λ i, active_free_citizen m i = true) ids)).

(** the non-jailed Active citizens in a list of citizens *)
Definition active_in (cs : list Citizen) : Z :=
  Z.of_nat (length (filter (λ c, active_free c = true) cs)).

(** the sum of the four contributions to [actives_in_vision] in network
    mode, for given occupants and given tie lists *)
Definition network_actives (m : Model) (neighbors : list Z)
    (d1 d2 : list Citizen) : R :=
  (1 + IZR (active_spatial m neighbors)
   + strong_weak_ratio m * IZR (active_in d1) + IZR (active_in d2))%R.

(** * Concrete models used in the examples below *)

Module Examples.

(** a grid whose every neighbourhood is the whole list [cellsL] but the
    centre *)
Definition all_but (cellsL : list (Z * Z)) (p : Z * Z) (_ : Z) : list (Z * Z) :=
  filter (λ q, q ≠ p) cellsL.

(** a model with the given mode, constants, agents (in scheduler order,
    each with its key), graph, and value of the [jail_count] attribute;
    agents stand on the cells they name *)
Definition model_of (mode : ActivationType) (k ratio : R) (t : Z) (p : R)
    (ags : list (Z * Agent)) (g : Nx.Graph) (jc : Z) (draws : nat → Z) : Model :=
  {| citizen_density := 0%R; cop_density := 0%R;
     citizen_vision := 1; cop_vision_param := 1;
     legitimacy := 0%R; max_jail_term := 30;
     active_threshold := 0%R; arrest_prob_constant := k;
     movement := false; max_iters := 1000;
     schedule_type := Sequential; activation_type := mode;
     strong_weak_ratio := ratio; t_censor := t; p_link_censor := p;
     iteration := 0;
     schedule := ags.*1;
     agents := list_to_map ags;
     grid := mkGrid 3 1
               (list_to_map ((λ ia, (agent_pos ia.2, ia.1)) <$> ags))
               (all_but [(0, 0); (1, 0); (2, 0)]);
     citizen_count := 0; cop_count := 0; jail_count := jc;
     active_count := 0; quiescent_count := 0; average_jail_term := 0%R;
     strong_ties_receival := 0%R; weak_ties_receival := 0%R;
     link_to_censor := ∅; active_links := 0; activated_link_ratio := 0%R;
     censored_links := 0;
     G := g; number_of_edges := Nx.number_of_edges g;
     running := true; datacollector := [];
     random := Rng.mkRandom draws 0 |}.

(** a citizen at [p] with hardship 1, risk aversion 1, legitimacy 0 and
    threshold 0 *)
Definition citizen_at (p : Z * Z) (k : Condition) (jail : Z) : Citizen :=
  set_jail_sentence jail (set_condition k (new_Citizen p 1 0 1 0 1)).

Definition graph_of (ns : list Z) (es : list (Z * Z * Z)) : Nx.Graph :=
  foldr (λ e g, Nx.add_edge g e.1.1 e.1.2 e.2) (Nx.mkGraph (list_to_set ns) ∅) es.

Definition zeros : nat → Z := λ _, 0.

(** one citizen and one cop next to it; the arrest constant is negative *)
Definition negative_constant : Model :=
  model_of WithoutSWN (-1) 5 5 0
    [(0, ACitizen (citizen_at (0, 0) Quiescent 0)); (1, ACop (mkCop (1, 0) 1))]
    (graph_of [0] []) 0 zeros.

(** one Active citizen, alone on the grid and alone in the network *)
Definition lonely_active : Model :=
  model_of WithSWN 2.3 5 5 0
    [(0, ACitizen (citizen_at (0, 0) Active 0))]
    (graph_of [0] []) 0 zeros.

(** two citizens joined by one uncensored edge; citizen 0 has just been
    arrested for ten ticks, and [jail_count] still holds the count of the
    previous tick, zero *)
Definition fresh_arrest : Model :=
  model_of WithoutSWN 2.3 5 5 0
    [(0, ACitizen (citizen_at (0, 0) Quiescent 10));
     (1, ACitizen (citizen_at (1, 0) Quiescent 0))]
    (graph_of [0; 1] [((0, 1), 0)]) 0 zeros.

(** cop density and citizen density that sum to exactly one *)
Definition half_half : Config :=
  {| cfg_width := 40; cfg_height := 40;
     cfg_citizen_density := 0.5; cfg_cop_density := 0.5;
     cfg_citizen_vision := 7; cfg_cop_vision := 7;
     cfg_legitimacy := 0.8; cfg_max_jail_term := 30;
     cfg_active_threshold := 0.1; cfg_arrest_prob_constant := 2.3;
     cfg_movement := true; cfg_max_iters := 1000;
     cfg_schedule_type := Random; cfg_activation_type := WithSWN;
     cfg_lattice_neighbor := 4; cfg_rewire_prob := 0.5;
     cfg_strong_weak_ratio := 5; cfg_t_censor := 5;
     cfg_p_link_censor := 0.1 |}.

(** two Quiescent citizens joined by one uncensored edge, in network
    mode, with no cop around *)
Definition both_quiet : Model :=
  model_of WithSWN 2.3 5 5 1
    [(0, ACitizen (citizen_at (0, 0) Quiescent 0));
     (1, ACitizen (citizen_at (1, 0) Quiescent 0))]
    (graph_of [0; 1] [((0, 1), 0)]) 0 zeros.

(** the same, with citizen 0 already Active; a marked edge is censored
    for sure, for five ticks *)
Definition censoring : Model :=
  model_of WithSWN 2.3 5 5 1
    [(0, ACitizen (citizen_at (0, 0) Active 0));
     (1, ACitizen (citizen_at (1, 0) Quiescent 0))]
    (graph_of [0; 1] [((0, 1), 0)]) 0 zeros.

(** [networkx.complete_graph(n)]: the nodes [0 .. n-1] and every pair of
    them *)
Definition complete_graph (n : Z) : list Z * list (Z * Z) :=
  (seqZ 0 n, i ← seqZ 0 n; j ← seqZ (i + 1) (n - i - 1); [(i, j)]).

(** an example of a generator: [networkx.watts_strogatz_graph(n, k, p)]
    on a run that rewires no edge, as for [p = 0].  A lattice degree
    [k > n] is refused; [k = n] gives the complete graph; otherwise node
    [i] is joined to [i + j mod n] for [j = 1 .. k // 2].  A node enters
    the graph with its first edge: the edges of distance 1 bring in
    [0, 1, .., n-1] in this order, and a graph without an edge has no
    node. *)
Definition ring_lattice (n k : Z) (_ : R) : result (list Z * list (Z * Z)) :=
  if decide (n < k) then Raise NetworkXError
  else if decide (k = n) then Ok (complete_graph n)
  else
    let es := j ← seqZ 1 (k / 2); i ← seqZ 0 n; [(i, (i + j) mod n)] in
    Ok (if decide (es = []) then [] else seqZ 0 n, es).

Definition ring_env : Env :=
  {| seed_stream := zeros;
     neighborhood := λ _ _, all_but [(0, 0); (1, 0); (2, 0)];
     watts_strogatz_graph := ring_lattice |}.

(** a [w] x 1 grid, no cop, citizen density [d], lattice degree [k],
    legitimacy 0 and threshold 0 *)
Definition row_config (w : Z) (d : R) (k : Z) (mode : ActivationType) : Config :=
  {| cfg_width := w; cfg_height := 1;
     cfg_citizen_density := d; cfg_cop_density := 0;
     cfg_citizen_vision := 1; cfg_cop_vision := 1;
     cfg_legitimacy := 0; cfg_max_jail_term := 30;
     cfg_active_threshold := 0; cfg_arrest_prob_constant := 2.3;
     cfg_movement := false; cfg_max_iters := 1000;
     cfg_schedule_type := Sequential; cfg_activation_type := mode;
     cfg_lattice_neighbor := k; cfg_rewire_prob := 0;
     cfg_strong_weak_ratio := 5; cfg_t_censor := 5;
     cfg_p_link_censor := 0.1 |}.

(** the model that the constructor returns, when it returns *)
Definition built (env : Env) (cfg : Config) : option Model :=
  match init env cfg with Ok m => Some m | Raise _ => None end.

Definition sevens : nat → Z := λ _, 7.

(** a cop next to an Active citizen, and a citizen with five ticks left in
    jail; [jail_count] holds the count that closed the previous tick,
    one; no network mode, no movement *)
Definition patrol : Model :=
  model_of WithoutSWN 2.3 5 5 0
    [(0, ACop (mkCop (0, 0) 1));
     (1, ACitizen (citizen_at (1, 0) Active 0));
     (2, ACitizen (citizen_at (2, 0) Quiescent 5))]
    (graph_of [1; 2] [((1, 2), 0)]) 1 sevens.

Definition after (m : Model) : Model :=
  match step m with Ok m' => m' | Raise _ => m end.

Definition after_schedule (m : Model) : Model :=
  match schedule_step (begin_step m) with Ok m' => m' | Raise _ => m end.

End Examples.

(** * Definitions used to state further properties *)

(** the attributes that the constructors set and nothing assigns later:
    for a citizen hardship, legitimacy, risk aversion, threshold and
    grievance, and for either breed the vision *)
Definition exogenous (a : Agent) : option (R * R * R * R * R) * Z :=
  match a with
  | ACitizen c =>
      (Some (hardship c, regime_legitimacy c, risk_aversion c, threshold c,
             grievance c), vision c)
  | ACop k => (None, cop_vision k)
  end.

(** the grid and the agents agree: a cell holds an agent exactly when
    that agent's [pos] is the cell *)
Definition grid_sync (m : Model) : Prop :=
  ∀ p i, cells (grid m) !! p = Some i
         ↔ ∃ a, agents m !! i = Some a ∧ agent_pos a = p.

(** [f] reads nothing that a tick assigns: it is blind to every attribute
    assignment made by [step], by the agents' [step] methods and by the
    data collector *)
Definition tick_constant {A : Type} (f : Model → A) : Prop :=
  (∀ x m, f (set_agents x m) = f m)
  ∧ (∀ x m, f (set_grid x m) = f m)
  ∧ (∀ x m, f (set_random x m) = f m)
  ∧ (∀ x m, f (set_link_to_censor x m) = f m)
  ∧ (∀ x m, f (set_G x m) = f m)
  ∧ (∀ x m, f (set_censored_links x m) = f m)
  ∧ (∀ x m, f (set_active_links x m) = f m)
  ∧ (∀ x m, f (set_activated_link_ratio x m) = f m)
  ∧ (∀ x m, f (set_datacollector x m) = f m)
  ∧ (∀ x m, f (set_active_count x m) = f m)
  ∧ (∀ x m, f (set_quiescent_count x m) = f m)
  ∧ (∀ x m, f (set_jail_count x m) = f m)
  ∧ (∀ x m, f (set_average_jail_term x m) = f m)
  ∧ (∀ x m, f (set_strong_ties_receival x m) = f m)
  ∧ (∀ x m, f (set_weak_ties_receival x m) = f m)
  ∧ (∀ x m, f (set_iteration x m) = f m)
  ∧ (∀ x m, f (set_running x m) = f m).

(** the constructor arguments kept on the model, with the population
    counts that only the constructor assigns *)
Definition parameters (m : Model)
  : (R * R * Z * Z * R) * (Z * R * R * bool * Z)
    * (ScheduleType * ActivationType * R * Z * R) * (Z * Z * Z) :=
  ((citizen_density m, cop_density m, citizen_vision m, cop_vision_param m,
    legitimacy m),
   (max_jail_term m, active_threshold m, arrest_prob_constant m, movement m,
    max_iters m),
   (schedule_type m, activation_type m, strong_weak_ratio m, t_censor m,
    p_link_censor m),
   (citizen_count m, cop_count m, number_of_edges m)).

(** [f] reads nothing that a tick assigns before its closing attribute
    updates *)
Definition collect_constant {A : Type} (f : Model → A) : Prop :=
  (∀ x m, f (set_agents x m) = f m)
  ∧ (∀ x m, f (set_grid x m) = f m)
  ∧ (∀ x m, f (set_random x m) = f m)
  ∧ (∀ x m, f (set_link_to_censor x m) = f m)
  ∧ (∀ x m, f (set_G x m) = f m)
  ∧ (∀ x m, f (set_censored_links x m) = f m)
  ∧ (∀ x m, f (set_active_links x m) = f m)
  ∧ (∀ x m, f (set_activated_link_ratio x m) = f m)
  ∧ (∀ x m, f (set_datacollector x m) = f m).

(** a citizen as [Citizen.__init__] leaves it under the configuration
    [cfg] *)
Definition fresh_citizen (cfg : Config) (c : Citizen) : Prop :=
  jail_sentence c = 0
  ∧ condition c = Quiescent
  ∧ arrest_probability c = None
  ∧ strong_ties_received c = 0
  ∧ weak_ties_received c = 0
  ∧ (0 <= hardship c < 1)%R
  ∧ (0 <= risk_aversion c < 1)%R
  ∧ regime_legitimacy c = cfg_legitimacy cfg
  ∧ threshold c = cfg_active_threshold cfg
  ∧ vision c = cfg_citizen_vision cfg
  ∧ grievance c = (hardship c * (1 - cfg_legitimacy cfg))%R.

(** an agent as the placement loop creates it *)
Definition fresh_agent (cfg : Config) (a : Agent) : Prop :=
  match a with
  | ACitizen c => fresh_citizen cfg c
  | ACop k => cop_vision k = cfg_cop_vision cfg
  end.

(** the placement loop after it has put agent [a] on cell [xy] *)
Definition with_agent (xy : Z * Z) (a : Agent) (g : Rng.Random)
    (s : Placement) : Placement :=
  {| unique_id := unique_id s + 1;
     list_citizen_ids :=
       if is_cop a then list_citizen_ids s
       else list_citizen_ids s ++ [unique_id s];
     placed_agents := <[unique_id s := a]> (placed_agents s);
     placed_cells := <[xy := unique_id s]> (placed_cells s);
     placed_schedule := placed_schedule s ++ [unique_id s];
     placed_random := g |}.

(** the citizens among the agents that the scheduler holds so far *)
Definition placed_citizens (s : Placement) : Z :=
  fold_left (λ count a, if is_cop a then count else count + 1)
    (omap (λ i, placed_agents s !! i) (placed_schedule s)) 0.

(** the invariant of the placement loop: ids are handed out in order,
    the scheduler holds them in that order, [list_citizen_ids] holds the
    citizens, every agent is as its constructor leaves it, and each
    stands on the cell that holds it *)
Definition placed_ok (cfg : Config) (s : Placement) : Prop :=
  0 ≤ unique_id s
  ∧ placed_schedule s = seqZ 0 (unique_id s)
  ∧ (∀ i, is_Some (placed_agents s !! i) ↔ 0 ≤ i < unique_id s)
  ∧ (∀ i, i ∈ list_citizen_ids s
          ↔ ∃ c, placed_agents s !! i = Some (ACitizen c))
  ∧ NoDup (list_citizen_ids s)
  ∧ (∀ i a, placed_agents s !! i = Some a → fresh_agent cfg a)
  ∧ (∀ p i, placed_cells s !! p = Some i
            ↔ ∃ a, placed_agents s !! i = Some a ∧ agent_pos a = p)
  ∧ placed_citizens s = Z.of_nat (length (list_citizen_ids s)).

(** * The canvas and the chart ([server.py]) *)

(** colours, as the 24-bit values that the strings spell *)
Definition COP_COLOR : Z := 0x000000.
Definition AGENT_QUIET_COLOR : Z := 0x648FFF.
Definition AGENT_REBEL_COLOR : Z := 0xFE6100.
Definition JAIL_COLOR : Z := 0x808080.

Inductive Shape : Type := circle | rect.

Definition JAIL_SHAPE : Shape := rect.

(** the portrayal dict; a key that is not set is [None], and the strings
    "true" and "false" of [Filled] are the booleans *)
Record Portrayal : Type := mkPortrayal {
  p_Shape : Shape;
  p_x : Z;
  p_y : Z;
  p_Filled : bool;
  p_Color : option Z;
  p_r : option R;
  p_w : option R;
  p_h : option R;
  p_Layer : option Z
}.

(** [citizen_cop_portrayal(agent)]; [if agent.jail_sentence] is the test
    [jail_sentence != 0] *)
Definition citizen_cop_portrayal (agent : option Agent) : option Portrayal :=
  match agent with
  | None => None
  | Some (ACitizen c) =>
      let color :=
        if decide (condition c = Quiescent) then AGENT_QUIET_COLOR
        else AGENT_REBEL_COLOR in
      let color := if decide (jail_sentence c ≠ 0) then JAIL_COLOR else color in
      let shape := if decide (jail_sentence c ≠ 0) then JAIL_SHAPE else circle in
      Some match shape with
           | rect =>
               {| p_Shape := shape; p_x := (pos c).1; p_y := (pos c).2;
                  p_Filled := true; p_Color := Some color; p_r := None;
                  p_w := Some 0.9%R; p_h := Some 0.9%R; p_Layer := Some 0 |}
           | circle =>
               {| p_Shape := shape; p_x := (pos c).1; p_y := (pos c).2;
                  p_Filled := false; p_Color := Some color;
                  p_r := Some 0.5%R; p_w := None; p_h := None;
                  p_Layer := Some 0 |}
           end
  | Some (ACop k) =>
      Some {| p_Shape := circle; p_x := (cop_pos k).1; p_y := (cop_pos k).2;
              p_Filled := true; p_Color := Some COP_COLOR;
              p_r := Some 0.9%R; p_w := None; p_h := None;
              p_Layer := Some 1 |}
  end.

(** the three series of the [ChartModule], by label *)
Inductive Series : Type := Quiescent_series | Active_series | Jailed_series.

(** the colour that the chart gives each series *)
Definition chart_color (s : Series) : Z :=
  match s with
  | Quiescent_series => 0x648FFF
  | Active_series => 0xFE6100
  | Jailed_series => 0x808080
  end.

(** the reporter of the data collector behind each label *)
Definition series_count (m : Model) (s : Series) : Z :=
  match s with
  | Quiescent_series => count_type_citizens m Quiescent
  | Active_series => count_type_citizens m Active
  | Jailed_series => count_jailed m
  end.

(** the agents of the scheduler that the canvas draws in colour [col] *)
Definition drawn_in (m : Model) (col : Z) : Z :=
  Z.of_nat
    (length
       (filter (λ a, (citizen_cop_portrayal (Some a) ≫= p_Color) = Some col)
          (schedule_agents m))).

(** * The batch script ([run_batch.py]) *)

(** [itertools.product] of the pools: the leftmost pool varies slowest *)
Fixpoint product {A : Type} (pools : list (list A)) : list (list A) :=
  match pools with
  | [] => [[]]
  | pool :: rest => x ← pool; t ← product rest; [x :: t]
  end.

(** [dict_product(dicts)]; a dict is the list of its items in insertion
    order *)
Definition dict_product {K V : Type} (dicts : list (K * list V))
  : list (list (K * V)) :=
  (λ x, zip dicts.*1 x) <$> product dicts.*2.

(** the keys of [params] *)
Inductive ParamKey : Type := lattice_neighbor | rewire_prob.

Definition params : list (ParamKey * list R) :=
  [(lattice_neighbor, [3; 4]%R); (rewire_prob, [0; 0.2; 0.5; 0.8; 1]%R)].

Definition parameters_list : list (list (ParamKey * R)) := dict_product params.
(** * Properties *)

#[local] Set Warnings "-clear-no-such-hyp".

(** ** Tactics and basic facts *)

Lemma bind_Ok {A B} (f : A → result B) (r : result A) (b : B) :
  r ≫= f = Ok b ↔ ∃ a, r = Ok a ∧ f a = Ok b.
Proof.
  destruct r; simpl; split.
  - eauto.
  - intros (a' & [= ->] & H). exact H.
  - discriminate.
  - intros (a' & [=] & _).
Qed.

(** inversion of a fallible step that ended well: its value [a] and the
    equation [E] that gives it *)
Ltac bind_case H :=
  let a := fresh "a" in
  let E := fresh "E" in
  cbv zeta in H;
  apply bind_Ok in H as (a & E & H);
  cbv beta in H.

Section RandomFacts.
Import Rng.

Lemma random_range (r : Random) : (0 <= (random r).1 < 1)%R.
Proof.
  unfold random, next. simpl.
  pose proof (Z.mod_pos_bound (stream r (cursor r)) (2 ^ 53) ltac:(lia))
    as [Hlo Hhi].
  apply IZR_le in Hlo. apply IZR_lt in Hhi.
  assert (0 < IZR (2 ^ 53))%R as Hpos by (apply IZR_lt; lia).
  split.
  - apply Rmult_le_pos; [ exact Hlo | left; apply Rinv_0_lt_compat, Hpos ].
  - apply (Rmult_lt_reg_r (IZR (2 ^ 53))); [ exact Hpos | ].
    unfold Rdiv. rewrite Rmult_assoc, Rinv_l, Rmult_1_r, Rmult_1_l;
      [ exact Hhi | lra ].
Qed.

Lemma randbelow_range (n : Z) (r : Random) :
  0 < n → 0 ≤ (randbelow n r).1 < n.
Proof. intros Hn. unfold randbelow, next. simpl. apply Z.mod_pos_bound, Hn. Qed.

Lemma choice_is_Some {A} (seq : list A) (r : Random) :
  seq ≠ [] → ∃ a, (choice seq r).1 = Some a ∧ a ∈ seq.
Proof.
  intros Hne. unfold choice.
  destruct (randbelow (Z.of_nat (length seq)) r) as [j r'] eqn:E. simpl.
  assert (0 < Z.of_nat (length seq)) as Hlen by (destruct seq; simpl; [done | lia]).
  pose proof (randbelow_range _ r Hlen) as Hj. rewrite E in Hj. simpl in Hj.
  destruct (lookup_lt_is_Some_2 seq (Z.to_nat j)) as [a Ha]; [ lia | ].
  exists a. split; [ exact Ha | ]. eapply list_elem_of_lookup_2, Ha.
Qed.
End RandomFacts.

(** ** The arrest-probability estimate *)

Section Estimate.
Local Open Scope R_scope.

Lemma DBL_MAX_ge_3 : 3 <= DBL_MAX.
Proof. unfold DBL_MAX. apply IZR_le. by vm_compute. Qed.

(** an exponent that is not positive is in the range of [math.exp] *)
Lemma math_exp_nonpos (x : R) : x <= 0 → math_exp x = Ok (exp x).
Proof.
  intros Hx. unfold math_exp.
  destruct (Rgt_dec (exp x) DBL_MAX) as [ Hgt | ]; [ | reflexivity ].
  exfalso. pose proof DBL_MAX_ge_3.
  destruct Hx as [ Hlt | -> ].
  - apply exp_increasing in Hlt. rewrite exp_0 in Hlt. lra.
  - rewrite exp_0 in Hgt. lra.
Qed.

Lemma math_exp_one : math_exp 1 = Ok (exp 1).
Proof.
  unfold math_exp.
  destruct (Rgt_dec (exp 1) DBL_MAX) as [ Hgt | ]; [ | reflexivity ].
  exfalso. pose proof DBL_MAX_ge_3. pose proof exp_le_3. lra.
Qed.

Lemma math_exp_Ok (x e : R) : math_exp x = Ok e → e = exp x.
Proof.
  unfold math_exp. destruct (Rgt_dec _ _); [ discriminate | ].
  by intros [= <-].
Qed.

Lemma estimate_Ok (k : R) (c : Z) (a p : R) :
  estimate k c a = Ok p →
  a ≠ 0 ∧ p = saturation k (Int_part (IZR c / a)).
Proof.
  unfold estimate, saturation. destruct (Req_dec_T a 0); [ discriminate | ].
  destruct (math_exp _) as [ e | ] eqn:E; simpl; [ | discriminate ].
  apply math_exp_Ok in E as ->.
  intros [= <-]. split; [ assumption | reflexivity ].
Qed.

(** the estimate is defined when the denominator is not zero and the
    exponential is in range *)
Lemma estimate_defined (k : R) (c : Z) (a : R) :
  a ≠ 0 →
  math_exp (-1 * k * IZR (Int_part (IZR c / a)))
  = Ok (exp (-1 * k * IZR (Int_part (IZR c / a)))) →
  estimate k c a = Ok (saturation k (Int_part (IZR c / a))).
Proof.
  intros Ha He. unfold estimate, saturation.
  destruct (Req_dec_T a 0); [ contradiction | ].
  rewrite He. reflexivity.
Qed.

Lemma Int_part_nonneg (x : R) : 0 <= x → (0 ≤ Int_part x)%Z.
Proof.
  intros Hx. destruct (base_Int_part x) as [_ H].
  assert (-1 < IZR (Int_part x)) as H1 by lra.
  apply lt_IZR in H1. lia.
Qed.

Lemma Int_part_zero_over (a : R) : Int_part (0 / a) = 0%Z.
Proof.
  symmetry. apply Int_part_spec. unfold Rdiv. rewrite Rmult_0_l. lra.
Qed.

Lemma saturation_range (k : R) (n : Z) :
  0 <= k → (0 ≤ n)%Z → 0 <= saturation k n <= 1.
Proof.
  intros Hk Hn. unfold saturation.
  apply IZR_le in Hn.
  assert (-1 * k * IZR n <= 0) as Hle by nra.
  pose proof (exp_pos (-1 * k * IZR n)) as Hpos.
  destruct Hle as [Hlt | Heq].
  - apply exp_increasing in Hlt. rewrite exp_0 in Hlt. lra.
  - rewrite Heq, exp_0. lra.
Qed.

Lemma saturation_zero (k : R) : saturation k 0 = 0.
Proof. unfold saturation. rewrite Rmult_0_r, exp_0. lra. Qed.

(** exponential saturation: the estimate is within [eps] of 1 once the
    floored ratio passes a bound *)
Lemma saturation_limit (k eps : R) :
  0 < k → 0 < eps →
  ∃ N : Z, ∀ n : Z, (N ≤ n)%Z → 1 - eps < saturation k n <= 1.
Proof.
  intros Hk Heps.
  exists (Z.max 0 (up (- ln eps / k))). intros n Hn.
  assert (0 ≤ n)%Z as Hn0 by lia.
  split; [ | apply saturation_range; [ lra | exact Hn0 ] ].
  unfold saturation.
  assert (- ln eps / k < IZR n) as Hlt.
  { destruct (archimed (- ln eps / k)) as [Hup _].
    assert (IZR (up (- ln eps / k)) <= IZR n) by (apply IZR_le; lia). lra. }
  assert (-1 * k * IZR n < ln eps) as Hlt'.
  { apply (Rmult_lt_compat_l k) in Hlt; [ | exact Hk ].
    unfold Rdiv in Hlt. rewrite (Rmult_comm (- ln eps)) in Hlt.
    rewrite <- Rmult_assoc, Rinv_r, Rmult_1_l in Hlt; lra. }
  apply exp_increasing in Hlt'. rewrite exp_ln in Hlt'; lra.
Qed.
End Estimate.

(** ** The two estimators *)

Section Estimators.
Local Open Scope R_scope.

Lemma count_spatial_eq (m : Model) (neighbors : list Z) (a0 : R) :
  count_spatial m neighbors a0 = a0 + IZR (active_spatial m neighbors).
Proof.
  unfold count_spatial, active_spatial. revert a0.
  induction neighbors as [ | i l IH ]; intros a0; simpl.
  - change (IZR (Z.of_nat 0)) with 0. lra.
  - rewrite IH. rewrite filter_cons.
    destruct (active_free_citizen m i) eqn:E.
    + rewrite decide_True by reflexivity. simpl length.
      rewrite Nat2Z.inj_succ, succ_IZR. lra.
    + rewrite decide_False by discriminate. reflexivity.
Qed.

Lemma count_ties_eq (w : R) (cs : list Citizen) (a0 : R) :
  count_ties w cs a0 = (a0 + w * IZR (active_in cs), active_in cs).
Proof.
  unfold count_ties, active_in.
  enough (∀ a n,
    fold_left (λ '(a, n) c, if active_free c then (a + w, (n + 1)%Z) else (a, n))
              cs (a, n)
    = (a + w * IZR (Z.of_nat (length (filter (λ c, active_free c = true) cs))),
       (n + Z.of_nat (length (filter (λ c, active_free c = true) cs)))%Z))
    as H by (rewrite H; reflexivity).
  induction cs as [ | c l IH ]; intros a n; simpl.
  - change (IZR (Z.of_nat 0)) with 0. f_equal; [ lra | lia ].
  - rewrite filter_cons. destruct (active_free c) eqn:E.
    + rewrite decide_True by reflexivity. rewrite IH. simpl length.
      rewrite Nat2Z.inj_succ, succ_IZR. f_equal; [ lra | lia ].
    + rewrite decide_False by discriminate. apply IH.
Qed.

Lemma active_spatial_nonneg m l : (0 ≤ active_spatial m l)%Z.
Proof. unfold active_spatial. lia. Qed.

Lemma active_in_nonneg cs : (0 ≤ active_in cs)%Z.
Proof. unfold active_in. lia. Qed.

Lemma cops_among_nonneg m l : (0 ≤ cops_among m l)%Z.
Proof. unfold cops_among. lia. Qed.

End Estimators.

Section ArrestProbability.
Local Open Scope R_scope.

Lemma Int_part_IZR (z : Z) : Int_part (IZR z) = z.
Proof. symmetry. apply Int_part_spec. lra. Qed.

Lemma Int_part_ratio_nonneg (c : Z) (a : R) :
  (0 ≤ c)%Z → 0 < a → (0 ≤ Int_part (IZR c / a))%Z.
Proof.
  intros Hc Ha. apply Int_part_nonneg. apply IZR_le in Hc.
  apply Rmult_le_pos; [ exact Hc | left; apply Rinv_0_lt_compat, Ha ].
Qed.

(** what one call of the formula yields when the constant is not
    negative and the denominator is positive *)
Lemma estimate_sound (k : R) (c : Z) (a : R) :
  0 <= k → (0 ≤ c)%Z → 0 < a →
  ∃ p, estimate k c a = Ok p
       ∧ p = 1 - exp (-1 * k * IZR (Int_part (IZR c / a)))
       ∧ 0 <= p <= 1
       ∧ (c = 0%Z → p = 0).
Proof.
  intros Hk Hc Ha. eexists. split.
  { apply estimate_defined; [ lra | ]. apply math_exp_nonpos.
    pose proof (IZR_le _ _ (Int_part_ratio_nonneg c a Hc Ha)). nra. }
  split; [ reflexivity | ]. split.
  - apply saturation_range; [ exact Hk | apply Int_part_ratio_nonneg; assumption ].
  - intros ->. rewrite Int_part_zero_over. apply saturation_zero.
Qed.

Lemma network_actives_ge_1 m neighbors d1 d2 :
  0 <= strong_weak_ratio m → 1 <= network_actives m neighbors d1 d2.
Proof.
  intros Hw. unfold network_actives.
  pose proof (IZR_le _ _ (active_spatial_nonneg m neighbors)).
  pose proof (IZR_le _ _ (active_in_nonneg d1)).
  pose proof (IZR_le _ _ (active_in_nonneg d2)).
  nra.
Qed.

Lemma update_network_actives m self neighbors d1 d2 self' :
  update_network_arrest_probability m self neighbors d1 d2 = Ok self' →
  actives_in_vision self' = Some (network_actives m neighbors d1 d2)
  ∧ strong_ties_received self' = active_in d1
  ∧ weak_ties_received self' = active_in d2
  ∧ condition self' = condition self
  ∧ jail_sentence self' = jail_sentence self
  ∧ pos self' = pos self
  ∧ ∃ p, arrest_probability self' = Some p
         ∧ estimate (arrest_prob_constant m) (cops_among m neighbors)
             (network_actives m neighbors d1 d2) = Ok p.
Proof.
  unfold update_network_arrest_probability.
  rewrite count_spatial_eq, !count_ties_eq.
  replace (1 + IZR (active_spatial m neighbors)
             + strong_weak_ratio m * IZR (active_in d1)
             + 1 * IZR (active_in d2))
    with (network_actives m neighbors d1 d2)
    by (unfold network_actives; lra).
  destruct (estimate _ _ _) as [ p | e ] eqn:E; simpl; [ | discriminate ].
  intros [= <-]. simpl. repeat split; try reflexivity.
  exists p. split; reflexivity.
Qed.

End ArrestProbability.

Section ClaimC5.
Local Open Scope R_scope.

(** C5 (amended).  Provided the arrest constant and the strong-to-weak
    ratio are not negative, both estimators succeed, in either
    activation mode; the arrest probability they store is
    [1 - exp (- k * floor (cops / actives))] for the stored
    actives-in-vision, it lies in [0,1], and it is exactly 0 when no
    cop is in vision.  When the constant is positive, the estimate
    tends to 1 as the cops-to-actives ratio grows. *)
Theorem arrest_probability_in_unit_interval
    (m : Model) (self : Citizen) (neighbors : list Z)
    (d1 d2 : list Citizen) :
  0 <= arrest_prob_constant m →
  0 <= strong_weak_ratio m →
  (∃ self' a p,
      update_estimated_arrest_probability m self neighbors = Ok self'
      ∧ actives_in_vision self' = Some a
      ∧ arrest_probability self' = Some p
      ∧ p = 1 - exp (-1 * arrest_prob_constant m
                       * IZR (Int_part (IZR (cops_among m neighbors) / a)))
      ∧ 0 <= p <= 1
      ∧ (cops_among m neighbors = 0%Z → p = 0))
  ∧ (∃ self' a p,
      update_network_arrest_probability m self neighbors d1 d2 = Ok self'
      ∧ actives_in_vision self' = Some a
      ∧ arrest_probability self' = Some p
      ∧ p = 1 - exp (-1 * arrest_prob_constant m
                       * IZR (Int_part (IZR (cops_among m neighbors) / a)))
      ∧ 0 <= p <= 1
      ∧ (cops_among m neighbors = 0%Z → p = 0))
  ∧ (0 < arrest_prob_constant m →
     ∀ eps, 0 < eps →
       ∃ bound : R, ∀ (c : Z) (a p : R),
         0 < a → bound <= IZR c / a →
         estimate (arrest_prob_constant m) c a = Ok p →
         1 - eps < p <= 1).
Proof.
  intros Hk Hw. split; [ | split ].
  - pose proof (active_spatial_nonneg m neighbors) as Hs. apply IZR_le in Hs.
    destruct (estimate_sound (arrest_prob_constant m) (cops_among m neighbors)
                (1 + IZR (active_spatial m neighbors)) Hk
                (cops_among_nonneg _ _) ltac:(lra))
      as (p & Hp & Heq & Hrange & Hzero).
    unfold update_estimated_arrest_probability.
    rewrite count_spatial_eq, Hp. simpl.
    eexists _, _, p. repeat split; try reflexivity; tauto.
  - pose proof (network_actives_ge_1 m neighbors d1 d2 Hw) as Hge.
    destruct (estimate_sound (arrest_prob_constant m) (cops_among m neighbors)
                (network_actives m neighbors d1 d2) Hk
                (cops_among_nonneg _ _) ltac:(lra))
      as (p & Hp & Heq & Hrange & Hzero).
    destruct (update_network_arrest_probability m self neighbors d1 d2)
      as [ self' | e ] eqn:E.
    + destruct (update_network_actives _ _ _ _ _ _ E)
        as (Ha & _ & _ & _ & _ & _ & p' & Hp' & Hest).
      rewrite Hp in Hest. injection Hest as <-.
      exists self', (network_actives m neighbors d1 d2), p.
      repeat split; try assumption; tauto.
    + exfalso. revert E. unfold update_network_arrest_probability.
      rewrite count_spatial_eq, !count_ties_eq.
      replace (1 + IZR (active_spatial m neighbors)
                 + strong_weak_ratio m * IZR (active_in d1)
                 + 1 * IZR (active_in d2))
        with (network_actives m neighbors d1 d2)
        by (unfold network_actives; lra).
      rewrite Hp. discriminate.
  - intros Hk' eps Heps.
    destruct (saturation_limit _ _ Hk' Heps) as [N HN].
    exists (IZR N + 1). intros c a p Ha Hb Hest.
    apply estimate_Ok in Hest as [_ ->]. apply HN.
    destruct (base_Int_part (IZR c / a)) as [_ Hfl].
    assert (IZR N < IZR (Int_part (IZR c / a))) as Hlt by lra.
    apply lt_IZR in Hlt. lia.
Qed.

Lemma arrest_probability_in_unit_interval_witness :
  ∃ self' a p,
    update_estimated_arrest_probability Examples.lonely_active
      (Examples.citizen_at (0, 0)%Z Active 0) [] = Ok self'
    ∧ actives_in_vision self' = Some a
    ∧ arrest_probability self' = Some p
    ∧ p = 1 - exp (-1 * arrest_prob_constant Examples.lonely_active
                     * IZR (Int_part
                              (IZR (cops_among Examples.lonely_active []) / a)))
    ∧ 0 <= p <= 1
    ∧ (cops_among Examples.lonely_active [] = 0%Z → p = 0).
Proof.
  apply (arrest_probability_in_unit_interval Examples.lonely_active
           (Examples.citizen_at (0, 0)%Z Active 0) [] [] []).
  - simpl. lra.
  - simpl. lra.
Defined.

(** C5 as stated fails: with a negative arrest constant and one cop in
    vision, the estimate that [Citizen.step] computes is negative. *)
Lemma arrest_probability_can_be_negative :
  ∃ self' p,
    update_estimated_arrest_probability Examples.negative_constant
      (Examples.citizen_at (0, 0)%Z Quiescent 0)
      (update_neighbors Examples.negative_constant (0, 0)%Z 1).1 = Ok self'
    ∧ arrest_probability self' = Some p
    ∧ p < 0.
Proof.
  assert (update_neighbors Examples.negative_constant (0, 0)%Z 1
          = ([1%Z], [(2, 0)%Z])) as -> by (vm_compute; reflexivity).
  simpl fst. unfold update_estimated_arrest_probability.
  rewrite count_spatial_eq.
  assert (cops_among Examples.negative_constant [1%Z] = 1%Z) as ->
    by (vm_compute; reflexivity).
  assert (active_spatial Examples.negative_constant [1%Z] = 0%Z) as ->
    by (vm_compute; reflexivity).
  change (arrest_prob_constant Examples.negative_constant) with (-1).
  assert (Int_part (IZR 1 / (1 + IZR 0)) = 1%Z) as Hfloor.
  { replace (IZR 1 / (1 + IZR 0)) with (IZR 1) by (simpl; lra).
    apply Int_part_IZR. }
  rewrite estimate_defined.
  2:{ simpl; lra. }
  2:{ rewrite Hfloor. replace (-1 * -1 * 1) with 1 by lra.
      apply math_exp_one. }
  simpl mbind. eexists _, _. split; [ reflexivity | ].
  split; [ reflexivity | ].
  unfold saturation. rewrite Hfloor.
  replace (-1 * -1 * 1) with 1 by lra.
  pose proof (exp_ineq1 1 ltac:(lra)). lra.
Qed.
End ClaimC5.

(** ** The density check of the constructor *)

Section ClaimC2.
Local Open Scope R_scope.

Lemma density_check_raises (cfg : Config) :
  density_check cfg = Raise ValueError
  ↔ cfg_cop_density cfg + cfg_citizen_density cfg > 1.
Proof.
  unfold density_check. destruct (Rgt_dec _ _); split; intros H;
    try reflexivity; try assumption; try discriminate; contradiction.
Qed.

Lemma density_check_passes (cfg : Config) :
  density_check cfg = Ok tt
  ↔ cfg_cop_density cfg + cfg_citizen_density cfg <= 1.
Proof.
  unfold density_check. destruct (Rgt_dec _ _); split; intros H;
    try reflexivity; try discriminate; lra.
Qed.

(** a sum above one stops the constructor before anything is built *)
Lemma init_density_error (env : Env) (cfg : Config) :
  cfg_cop_density cfg + cfg_citizen_density cfg > 1 →
  init env cfg = Raise ValueError.
Proof.
  intros H. unfold init. apply density_check_raises in H. rewrite H.
  reflexivity.
Qed.

(** C2, at the boundary.  With cop density 0.5 and citizen density 0.5
    the sum is exactly 1, and the density check does not raise: the
    test is [> 1], although its message reads "must be less than 1". *)
Theorem density_sum_one_is_accepted :
  (cfg_cop_density Examples.half_half
   + cfg_citizen_density Examples.half_half = 1)
  ∧ density_check Examples.half_half = Ok tt.
Proof.
  split.
  - simpl. lra.
  - apply density_check_passes. simpl. lra.
Qed.
End ClaimC2.

(** ** Aggregates *)

Section Aggregates.
Local Open Scope R_scope.

(** the loop of the receival averages counts at least one citizen
    whenever its total is not zero *)
Lemma receival_loop_count (f : Citizen → Z) (m : Model) :
  (receival_loop f m).1 ≠ 0%Z → (receival_loop f m).2 ≠ 0%Z.
Proof.
  unfold receival_loop.
  enough (∀ l t c, (0 ≤ c)%Z → (t ≠ 0 → c ≠ 0)%Z →
            let r := fold_left
              (λ '(total, count) a,
                 match a with
                 | ACitizen c =>
                     if decide (jail_sentence c = 0%Z)
                     then ((total + f c)%Z, (count + 1)%Z)
                     else (total, count)
                 | ACop _ => (total, count)
                 end) l (t, c) in
            (0 ≤ r.2)%Z ∧ (r.1 ≠ 0 → r.2 ≠ 0)%Z) as H.
  { apply (H (schedule_agents m) 0%Z 0%Z); lia. }
  induction l as [ | a l IH ]; intros t c Hc Htc; simpl.
  - split; assumption.
  - destruct a as [ ci | k ]; [ | apply IH; assumption ].
    destruct (decide (jail_sentence ci = 0%Z)); [ | apply IH; assumption ].
    apply IH; lia.
Qed.

(** the receival averages never raise, and are 0 when no citizen is out
    of jail *)
Lemma average_receival_total (f : Citizen → Z) (m : Model) :
  ∃ x, average_receival f m = Ok x
       ∧ ((receival_loop f m).2 = 0%Z → x = 0).
Proof.
  unfold average_receival.
  pose proof (receival_loop_count f m) as H.
  destruct (receival_loop f m) as [total count]. simpl in H.
  destruct (decide (total = 0%Z)) as [ -> | Hne ].
  - exists 0. split; reflexivity.
  - destruct (decide (count = 0%Z)) as [ Hc | Hc ].
    + exfalso. exact (H Hne Hc).
    + eexists. split; [ reflexivity | ]. intros ?. contradiction.
Qed.

(** the jail-term helper never raises either: a zero [jail_count]
    attribute yields 0 *)
Lemma get_average_jail_term_total (m : Model) :
  get_average_jail_term m
  = Ok (if decide (jail_count m = 0%Z) then 0
        else IZR (jail_total m) / IZR (jail_count m)).
Proof.
  unfold get_average_jail_term. destruct (decide (jail_count m = 0%Z));
    reflexivity.
Qed.

Lemma get_active_link_ratio_raises (m : Model) :
  number_of_edges m = 0%Z → get_active_link_ratio m = Raise ZeroDivisionError.
Proof.
  intros H. unfold get_active_link_ratio. rewrite decide_True by exact H.
  reflexivity.
Qed.

Lemma collect_raises (m : Model) :
  number_of_edges m = 0%Z → collect m = Raise ZeroDivisionError.
Proof.
  intros H. unfold collect. rewrite get_average_jail_term_total. simpl.
  unfold get_average_strong_ties_receival, get_average_weak_ties_receival.
  destruct (average_receival_total strong_ties_received m) as (x & -> & _).
  destruct (average_receival_total weak_ties_received m) as (y & -> & _).
  simpl. rewrite get_active_link_ratio_raises by exact H. reflexivity.
Qed.
End Aggregates.

(** ** The graph primitives and the ego network *)

Section GraphFacts.
Import Nx.

Lemma canon_ordered (u v : Z) : (canon u v).1 ≤ (canon u v).2.
Proof. unfold canon. destruct (u <? v) eqn:E; simpl; lia. Qed.

Lemma canon_of_ordered (k : Z * Z) : k.1 ≤ k.2 → canon k.1 k.2 = k.
Proof.
  destruct k as [a b]. simpl. intros H. unfold canon.
  destruct (a <? b) eqn:E; [ reflexivity | ].
  apply Z.ltb_ge in E. f_equal; lia.
Qed.

Lemma canon_sym (u v : Z) : canon u v = canon v u.
Proof.
  unfold canon. destruct (u <? v) eqn:E1, (v <? u) eqn:E2; try reflexivity.
  - lia.
  - apply Z.ltb_ge in E1, E2. f_equal; lia.
Qed.

Lemma other_end_Some (n v : Z) (k : Z * Z) :
  other_end n k = Some v ↔ (k.1 = n ∧ k.2 = v) ∨ (k.1 ≠ n ∧ k.2 = n ∧ k.1 = v).
Proof.
  unfold other_end. destruct (decide (k.1 = n)), (decide (k.2 = n));
    split; intros H; try (injection H as <-); try discriminate;
    intuition congruence.
Qed.

Lemma elem_of_neighbors (g : Graph) (n v : Z) :
  v ∈ neighbors g n ↔ ∃ k, k ∈ dom (edges g) ∧ other_end n k = Some v.
Proof.
  unfold neighbors. rewrite elem_of_list_to_set, list_elem_of_omap.
  split; intros (k & Hk & Ho); exists k; split; try exact Ho;
    by apply elem_of_elements.
Qed.

Lemma neighbors_canon (g : Graph) (n v : Z) :
  canonical g → v ∈ neighbors g n ↔ canon n v ∈ dom (edges g).
Proof.
  intros Hc. rewrite elem_of_neighbors. split.
  - intros (k & Hk & Ho). pose proof (Hc k Hk) as Hle.
    apply other_end_Some in Ho as [ [<- <-] | (_ & <- & <-) ].
    + by rewrite canon_of_ordered.
    + rewrite canon_sym. by rewrite canon_of_ordered.
  - intros Hk. exists (canon n v). split; [ exact Hk | ].
    apply other_end_Some. unfold canon. destruct (n <? v) eqn:E; simpl.
    + by left.
    + destruct (decide (v = n)) as [ -> | Hne ]; [ by left | by right ].
Qed.
End GraphFacts.

Section EgoFacts.
Import Nx.

Lemma elem_of_dom_filter (P : Z * Z * Z → Prop) `{!∀ x, Decision (P x)}
    (es : gmap (Z * Z) Z) (k : Z * Z) :
  k ∈ dom (filter P es) ↔ ∃ d, es !! k = Some d ∧ P (k, d).
Proof.
  rewrite elem_of_dom. unfold is_Some.
  setoid_rewrite map_lookup_filter_Some. reflexivity.
Qed.

Lemma end_in (n v : Z) (k : Z * Z) (S : gset Z) :
  other_end n k = Some v → (k.1 ∈ S ∧ k.2 ∈ S ↔ n ∈ S ∧ v ∈ S).
Proof.
  intros H. apply other_end_Some in H as [ [<- <-] | (_ & <- & <-) ]; tauto.
Qed.

Lemma neighbors_subgraph (g : Graph) (S : gset Z) (n v : Z) :
  v ∈ neighbors (subgraph g S) n ↔ v ∈ neighbors g n ∧ n ∈ S ∧ v ∈ S.
Proof.
  rewrite !elem_of_neighbors. simpl. split.
  - intros (k & Hk & Ho). apply elem_of_dom_filter in Hk as (d & Hd & HP).
    simpl in HP. apply (end_in _ _ _ S) in Ho as HS.
    split; [ | tauto ]. exists k. split; [ | exact Ho ].
    apply elem_of_dom. eauto.
  - intros ((k & Hk & Ho) & Hn & Hv). exists k. split; [ | exact Ho ].
    apply elem_of_dom in Hk as [d Hd].
    apply elem_of_dom_filter. exists d. split; [ exact Hd | ]. simpl.
    apply (end_in _ _ _ S) in Ho. tauto.
Qed.

Lemma neighbors_live (g : Graph) (n v : Z) :
  v ∈ neighbors (live g) n → v ∈ neighbors g n.
Proof.
  rewrite !elem_of_neighbors. simpl. intros (k & Hk & Ho).
  exists k. split; [ | exact Ho ].
  apply elem_of_dom_filter in Hk as (d & Hd & _). apply elem_of_dom. eauto.
Qed.

Lemma elem_of_within2 (g : Graph) (n v : Z) :
  v ∈ within2 g n
  ↔ v = n ∨ v ∈ neighbors g n ∨ ∃ u, u ∈ neighbors g n ∧ v ∈ neighbors g u.
Proof.
  unfold within2. rewrite !elem_of_union, elem_of_singleton, elem_of_union_list.
  split.
  - intros [ [ H | H ] | (X & HX & Hv) ]; [ tauto | tauto | ].
    apply list_elem_of_fmap in HX as (u & -> & Hu).
    apply elem_of_elements in Hu. right. right. eauto.
  - intros [ H | [ H | (u & Hu & Hv) ] ]; [ tauto | tauto | ].
    right. exists (neighbors g u). split; [ | exact Hv ].
    apply list_elem_of_fmap. exists u. split; [ reflexivity | ].
    by apply elem_of_elements.
Qed.

Lemma centre_within2 (g : Graph) (n : Z) : n ∈ within2 g n.
Proof. apply elem_of_within2. by left. Qed.

Lemma within2_live (g : Graph) (n : Z) : within2 (live g) n ⊆ within2 g n.
Proof.
  intros v. rewrite !elem_of_within2.
  intros [ H | [ H | (u & Hu & Hv) ] ].
  - by left.
  - right. left. by apply neighbors_live.
  - right. right. exists u. split; by apply neighbors_live.
Qed.

(** expanding again inside a subgraph that holds the two-hop ball
    changes nothing *)
Lemma within2_subgraph (g : Graph) (S : gset Z) (n : Z) :
  within2 g n ⊆ S → within2 (subgraph g S) n = within2 g n.
Proof.
  intros Hsub. apply set_eq. intros v. rewrite !elem_of_within2.
  setoid_rewrite neighbors_subgraph.
  assert (n ∈ S) as Hn by (apply Hsub, centre_within2).
  split.
  - intros [ H | [ H | (u & Hu & Hv) ] ]; [ tauto | tauto | ].
    right. right. exists u. tauto.
  - intros [ H | [ H | (u & Hu & Hv) ] ].
    + by left.
    + right. left. repeat split; try assumption.
      apply Hsub, elem_of_within2. tauto.
    + right. right. exists u.
      assert (u ∈ S) by (apply Hsub, elem_of_within2; tauto).
      assert (v ∈ S) by (apply Hsub, elem_of_within2; eauto).
      tauto.
Qed.

Lemma subgraph_subgraph (g : Graph) (S T : gset Z) :
  T ⊆ S → subgraph (subgraph g S) T = subgraph g T.
Proof.
  intros Hsub. unfold subgraph. simpl. f_equal.
  - set_solver.
  - rewrite map_filter_filter. apply map_filter_ext.
    intros k d _. simpl. set_solver.
Qed.

Lemma live_subgraph (g : Graph) (S : gset Z) :
  live (subgraph g S) = subgraph (live g) S.
Proof.
  unfold live, subgraph. simpl. f_equal.
  rewrite !map_filter_filter. apply map_filter_ext. intros k d _. simpl. tauto.
Qed.

Lemma canonical_subgraph (g : Graph) (S : gset Z) :
  canonical g → canonical (subgraph g S).
Proof.
  intros Hc k Hk. apply Hc. simpl in Hk.
  apply elem_of_dom_filter in Hk as (d & Hd & _). apply elem_of_dom. eauto.
Qed.

Lemma lookup_remove (l : list (Z * Z)) (es : gmap (Z * Z) Z) (k : Z * Z) :
  foldr (λ e es, delete (canon e.1 e.2) es) es l !! k
  = if decide (k ∈ (λ e, canon e.1 e.2) <$> l) then None else es !! k.
Proof.
  induction l as [ | e l IH ].
  - case_decide as H; [ | reflexivity ]. by apply elem_of_nil in H.
  - cbn [foldr]. rewrite lookup_delete, fmap_cons.
    destruct (decide (canon e.1 e.2 = k)) as [ <- | Hne ].
    + rewrite decide_True; [ reflexivity | ]. apply list_elem_of_here.
    + rewrite IH.
      destruct (decide (k ∈ (λ e0, canon e0.1 e0.2) <$> l)) as [ Hin | Hnin ].
      * rewrite decide_True; [ reflexivity | ]. by apply list_elem_of_further.
      * rewrite decide_False; [ reflexivity | ].
        intros [ Heq | Hin ]%elem_of_cons; [ congruence | contradiction ].
Qed.

Lemma elem_of_censored_edges (g : Graph) (k : Z * Z) :
  k ∈ censored_edges g ↔ ∃ d, edges g !! k = Some d ∧ 0 < d.
Proof.
  unfold censored_edges. rewrite list_elem_of_fmap. split.
  - intros ([k' d] & -> & H). apply list_elem_of_filter in H as [Hd Hin].
    apply elem_of_map_to_list in Hin. simpl in *. eauto.
  - intros (d & Hd & Hpos). exists (k, d). split; [ reflexivity | ].
    apply list_elem_of_filter. split; [ exact Hpos | ].
    by apply elem_of_map_to_list.
Qed.

(** stripping the censored edges leaves the live graph *)
Lemma remove_censored (g : Graph) :
  canonical g → remove_edges_from g (censored_edges g) = live g.
Proof.
  intros Hc. unfold remove_edges_from, live. f_equal.
  apply map_eq. intros k. rewrite lookup_remove.
  destruct (decide (k ∈ _)) as [ Hin | Hnin ].
  - apply list_elem_of_fmap in Hin as (e & -> & He).
    apply elem_of_censored_edges in He as (d & Hd & Hpos).
    assert (e ∈ dom (edges g)) as Hdom by (apply elem_of_dom; eauto).
    rewrite (canon_of_ordered e (Hc e Hdom)).
    symmetry. apply map_lookup_filter_None. right. intros d' Hd'.
    simpl. rewrite Hd in Hd'. injection Hd' as <-. tauto.
  - destruct (edges g !! k) as [ d | ] eqn:Hd.
    + symmetry. apply map_lookup_filter_Some. split; [ exact Hd | ]. simpl.
      intros Hpos. apply Hnin. apply list_elem_of_fmap. exists k.
      assert (k ∈ dom (edges g)) as Hdom by (apply elem_of_dom; eauto).
      split; [ symmetry; apply canon_of_ordered, Hc, Hdom | ].
      apply elem_of_censored_edges. eauto.
    + symmetry. apply map_lookup_filter_None. by left.
Qed.

(** the two passes of [prepare_ego] are one pass over the live graph *)
Lemma pruned_ego_eq (g : Graph) (n : Z) :
  canonical g → n ∈ nodes g →
  pruned_ego g n = Ok (subgraph (live g) (within2 (live g) n)).
Proof.
  intros Hc Hn. unfold pruned_ego, ego_graph.
  rewrite decide_True by exact Hn. simpl.
  rewrite remove_censored by (apply canonical_subgraph, Hc).
  rewrite live_subgraph.
  rewrite decide_True.
  2:{ simpl. apply elem_of_intersection. split; [ exact Hn | ].
      apply centre_within2. }
  f_equal.
  rewrite within2_subgraph by apply within2_live.
  apply subgraph_subgraph, within2_live.
Qed.

Lemma pruned_ego_raises (g : Graph) (n : Z) :
  n ∉ nodes g → pruned_ego g n = Raise NodeNotFound.
Proof.
  intros Hn. unfold pruned_ego, ego_graph. rewrite decide_False by exact Hn.
  reflexivity.
Qed.
End EgoFacts.

Section EgoView.
Import Nx.

Lemma pruned_ego_edges (g : Graph) (n : Z) (ego : Graph) (k : Z * Z) (d : Z) :
  canonical g → pruned_ego g n = Ok ego →
  edges ego !! k = Some d
  ↔ edges g !! k = Some d ∧ ¬ 0 < d
    ∧ k.1 ∈ within2 (live g) n ∧ k.2 ∈ within2 (live g) n.
Proof.
  intros Hc He.
  destruct (decide (n ∈ nodes g)) as [ Hn | Hn ].
  2:{ rewrite pruned_ego_raises in He by exact Hn. discriminate. }
  rewrite pruned_ego_eq in He by assumption. injection He as <-.
  simpl. rewrite !map_lookup_filter_Some. simpl. tauto.
Qed.

(** a censored edge is in no ego network *)
Lemma censored_edge_excluded (g : Graph) (n : Z) (ego : Graph) (k : Z * Z)
    (d : Z) :
  canonical g → edges g !! k = Some d → 0 < d →
  pruned_ego g n = Ok ego → edges ego !! k = None.
Proof.
  intros Hc Hk Hd He.
  destruct (edges ego !! k) as [ d' | ] eqn:E; [ | reflexivity ].
  apply (pruned_ego_edges g n ego k d' Hc He) in E as (Hk' & Hd' & _).
  rewrite Hk in Hk'. injection Hk' as <-. contradiction.
Qed.

Lemma live_neighbor (g : Graph) (u v : Z) (d : Z) :
  edges g !! canon u v = Some d → ¬ 0 < d → v ∈ neighbors (live g) u.
Proof.
  intros Hk Hd. apply elem_of_neighbors. exists (canon u v). split.
  - simpl. apply elem_of_dom_filter. eauto.
  - apply other_end_Some. unfold canon. destruct (u <? v) eqn:E; simpl.
    + by left.
    + destruct (decide (v = u)) as [ -> | Hne ]; [ by left | by right ].
Qed.

(** a live edge is in the ego network of each of its endpoints, which
    then counts the other endpoint among its one-hop neighbours *)
Lemma live_edge_included (g : Graph) (u v : Z) (ego : Graph) (d : Z) :
  canonical g → edges g !! canon u v = Some d → ¬ 0 < d →
  pruned_ego g u = Ok ego →
  edges ego !! canon u v = Some d ∧ v ∈ degree_1_ids ego u.
Proof.
  intros Hc Hk Hd He.
  pose proof (live_neighbor g u v d Hk Hd) as Hv.
  assert (u ∈ within2 (live g) u) as Hu1 by apply centre_within2.
  assert (v ∈ within2 (live g) u) as Hv1 by (apply elem_of_within2; tauto).
  split.
  - apply (pruned_ego_edges g u ego _ d Hc He). repeat split; try assumption.
    + unfold canon. destruct (u <? v); assumption.
    + unfold canon. destruct (u <? v); assumption.
  - destruct (decide (u ∈ nodes g)) as [ Hn | Hn ].
    2:{ rewrite pruned_ego_raises in He by exact Hn. discriminate. }
    rewrite pruned_ego_eq in He by assumption. injection He as <-.
    unfold degree_1_ids. apply neighbors_subgraph. tauto.
Qed.

Lemma degree_1_ids_eq (g : Graph) (n : Z) (ego : Graph) :
  canonical g → pruned_ego g n = Ok ego →
  degree_1_ids ego n = neighbors (live g) n.
Proof.
  intros Hc He.
  destruct (decide (n ∈ nodes g)) as [ Hn | Hn ].
  2:{ rewrite pruned_ego_raises in He by exact Hn. discriminate. }
  rewrite pruned_ego_eq in He by assumption. injection He as <-.
  unfold degree_1_ids. apply set_eq. intros v.
  rewrite neighbors_subgraph. split; [ tauto | ]. intros Hv.
  split; [ exact Hv | ]. split; [ apply centre_within2 | ].
  apply elem_of_within2. tauto.
Qed.

Lemma degree_2_ids_eq (g : Graph) (n : Z) (ego : Graph) :
  canonical g → pruned_ego g n = Ok ego →
  degree_2_ids ego n
  = (nodes g ∩ within2 (live g) n) ∖ neighbors (live g) n.
Proof.
  intros Hc He. unfold degree_2_ids.
  rewrite (degree_1_ids_eq g n ego Hc He).
  destruct (decide (n ∈ nodes g)) as [ Hn | Hn ].
  2:{ rewrite pruned_ego_raises in He by exact Hn. discriminate. }
  rewrite pruned_ego_eq in He by assumption. injection He as <-.
  reflexivity.
Qed.

(** the centre of the ego network is one of its "degree-2 neighbours",
    unless it has a live self-loop *)
Lemma centre_in_degree_2 (g : Graph) (n : Z) (ego : Graph) :
  canonical g → pruned_ego g n = Ok ego →
  n ∉ neighbors (live g) n → n ∈ degree_2_ids ego n.
Proof.
  intros Hc He Hloop. rewrite (degree_2_ids_eq g n ego Hc He).
  destruct (decide (n ∈ nodes g)) as [ Hn | Hn ].
  2:{ rewrite pruned_ego_raises in He by exact Hn. discriminate. }
  apply elem_of_difference. split; [ | exact Hloop ].
  apply elem_of_intersection. split; [ exact Hn | apply centre_within2 ].
Qed.

Lemma canonical_live (g : Graph) : canonical g → canonical (live g).
Proof.
  intros Hc k Hk. apply Hc. simpl in Hk.
  apply elem_of_dom_filter in Hk as (d & Hd & _). apply elem_of_dom. eauto.
Qed.

(** the edges that an Active citizen marks are the live edges at it *)
Lemma links_of_eq (g : Graph) (n : Z) (ego : Graph) :
  canonical g → pruned_ego g n = Ok ego →
  links_of ego n = incident_live g n.
Proof.
  intros Hc He. unfold links_of, edges_at, incident_live.
  fold (degree_1_ids ego n). rewrite (degree_1_ids_eq g n ego Hc He).
  apply set_eq. intros k.
  rewrite elem_of_list_to_set, elem_of_filter, list_elem_of_fmap.
  pose proof (canonical_live g Hc) as Hcl.
  split.
  - intros (e & -> & He'). apply list_elem_of_fmap in He' as (v & -> & Hv).
    apply elem_of_elements in Hv.
    split.
    + unfold canon. cbn [fst snd]. destruct (n <? v); cbn [fst snd]; tauto.
    + cbn [fst snd]. by apply neighbors_canon.
  - intros (Hat & Hk). pose proof (Hcl k Hk) as Hle.
    destruct k as [a b]. cbn [fst snd] in *.
    assert (∃ v, canon n v = (a, b)) as [v Hv].
    { destruct Hat as [ -> | -> ].
      - exists b. by apply (canon_of_ordered (n, b)).
      - exists a. rewrite canon_sym. by apply (canon_of_ordered (a, n)). }
    exists (n, v). split; [ cbn [fst snd]; by rewrite Hv | ].
    apply list_elem_of_fmap. exists v. split; [ reflexivity | ].
    apply elem_of_elements. apply neighbors_canon; [ exact Hcl | ].
    by rewrite Hv.
Qed.
End EgoView.

(** ** What an activation leaves alone *)

#[global] Arguments update_neighbors : simpl never.
#[global] Arguments prepare_ego : simpl never.
#[global] Arguments update_network_arrest_probability : simpl never.
#[global] Arguments update_estimated_arrest_probability : simpl never.
#[global] Arguments try_move : simpl never.
#[global] Arguments decide_condition : simpl never.
#[global] Arguments links_of : simpl never.
#[global] Arguments arrest : simpl never.
#[global] Arguments move_agent : simpl never.
#[global] Arguments Citizen_step : simpl never.
#[global] Arguments Cop_step : simpl never.
#[global] Arguments activate : simpl never.
#[global] Arguments arrestee_of : simpl never.
#[global] Arguments active_neighbors : simpl never.

Section Frames.
Context {A : Type} (f : Model → A).
Hypothesis f_agents : ∀ x m, f (set_agents x m) = f m.
Hypothesis f_grid : ∀ x m, f (set_grid x m) = f m.
Hypothesis f_random : ∀ x m, f (set_random x m) = f m.

Lemma move_agent_frame uid p m : f (move_agent uid p m) = f m.
Proof.
  unfold move_agent. destruct (agents m !! uid); [ | reflexivity ].
  by rewrite f_agents, f_grid.
Qed.

Lemma try_move_frame uid l m : f (try_move uid l m) = f m.
Proof.
  unfold try_move. destruct (movement m); [ | reflexivity ].
  destruct l as [ | q l ]; [ reflexivity | ].
  destruct (Rng.choice (q :: l) (random m)) as [ [ p | ] r ].
  - by rewrite move_agent_frame, f_random.
  - by rewrite f_random.
Qed.

Lemma arrest_frame i s m : f (arrest i s m) = f m.
Proof.
  unfold arrest. destruct (lookup_citizen m i); [ | reflexivity ].
  by rewrite f_agents.
Qed.

Lemma Cop_step_frame uid k m m' : Cop_step uid k m = Ok m' → f m' = f m.
Proof.
  unfold Cop_step. intros H.
  destruct (arrestee_of m k) as [ a | ].
  - destruct (Rng.randint 0 (max_jail_term m) _) as [ [ s | e ] r2 ];
      simpl in H; [ | discriminate ].
    injection H as <-. by rewrite try_move_frame, arrest_frame, f_random.
  - simpl in H. injection H as <-. by rewrite try_move_frame.
Qed.

Hypothesis f_links : ∀ x m, f (set_link_to_censor x m) = f m.

Lemma Citizen_step_frame uid c m m' :
  Citizen_step uid c m = Ok m' → f m' = f m.
Proof.
  unfold Citizen_step. intros H.
  destruct (decide (jail_sentence c ≠ 0)).
  { injection H as <-. by rewrite f_agents. }
  destruct (activation_type m).
  - destruct (prepare_ego m uid) as [ ego | e ]; simpl in H; [ | discriminate ].
    destruct (update_network_arrest_probability _ _ _ _ _) as [ c1 | e ];
      simpl in H; [ | discriminate ].
    injection H as <-. rewrite try_move_frame, f_agents.
    destruct (decide (condition c1 = Active)); [ by rewrite f_links | reflexivity ].
  - destruct (update_estimated_arrest_probability _ _ _) as [ c1 | e ];
      simpl in H; [ | discriminate ].
    injection H as <-. by rewrite try_move_frame, f_agents.
Qed.

Lemma activate_frame uid m m' : activate uid m = Ok m' → f m' = f m.
Proof.
  unfold activate. destruct (agents m !! uid) as [ [ c | k ] | ].
  - apply (Citizen_step_frame uid c).
  - apply (Cop_step_frame uid k).
  - by intros [= <-].
Qed.

Lemma activate_all_frame order m m' :
  activate_all order m = Ok m' → f m' = f m.
Proof.
  revert m. induction order as [ | uid l IH ]; intros m; simpl.
  - by intros [= <-].
  - destruct (activate uid m) as [ m1 | e ] eqn:E; simpl; [ | discriminate ].
    intros H. rewrite (IH _ H). by apply (activate_frame uid).
Qed.

Lemma schedule_step_frame m m' : schedule_step m = Ok m' → f m' = f m.
Proof.
  unfold schedule_step. destruct (activation_order m) as [order r].
  intros H. apply activate_all_frame in H. by rewrite H, f_random.
Qed.
End Frames.

(** the agents never write the graph *)
Lemma schedule_step_G m m' : schedule_step m = Ok m' → G m' = G m.
Proof. by apply (schedule_step_frame G). Qed.

Lemma activate_all_G order m m' : activate_all order m = Ok m' → G m' = G m.
Proof. by apply (activate_all_frame G). Qed.

(** ** [Citizen.step], case by case *)

Section CitizenStep.
Local Open Scope R_scope.

Lemma prepare_ego_eq (m : Model) (uid : Z) :
  canonical (G m) → uid ∈ Nx.nodes (G m) →
  let ego := Nx.subgraph (live (G m)) (Nx.within2 (live (G m)) uid) in
  prepare_ego m uid
  = Ok (ego,
        get_agents_by_ids m (elements (degree_1_ids ego uid)),
        get_agents_by_ids m (elements (degree_2_ids ego uid))).
Proof.
  intros Hc Hn ego. unfold prepare_ego.
  rewrite pruned_ego_eq by assumption. reflexivity.
Qed.

(** the exponent of an estimate is not positive when the constant is not
    negative and the denominator is positive *)
Lemma exponent_nonpos (k : R) (c : Z) (a : R) :
  0 <= k → (0 ≤ c)%Z → 0 < a →
  math_exp (-1 * k * IZR (Int_part (IZR c / a)))
  = Ok (exp (-1 * k * IZR (Int_part (IZR c / a)))).
Proof.
  intros Hk Hc Ha. apply math_exp_nonpos.
  pose proof (IZR_le _ _ (Int_part_ratio_nonneg c a Hc Ha)). nra.
Qed.

Lemma update_network_eq (m : Model) (self : Citizen) (neighbors : list Z)
    (d1 d2 : list Citizen) :
  0 <= arrest_prob_constant m →
  0 < network_actives m neighbors d1 d2 →
  update_network_arrest_probability m self neighbors d1 d2
  = Ok (set_estimate (network_actives m neighbors d1 d2)
          (saturation (arrest_prob_constant m)
             (Int_part (IZR (cops_among m neighbors)
                        / network_actives m neighbors d1 d2)))
          (active_in d1) (active_in d2) self).
Proof.
  intros Hk Ha. unfold update_network_arrest_probability.
  rewrite count_spatial_eq, !count_ties_eq.
  replace (1 + IZR (active_spatial m neighbors)
             + strong_weak_ratio m * IZR (active_in d1)
             + 1 * IZR (active_in d2))
    with (network_actives m neighbors d1 d2)
    by (unfold network_actives; lra).
  rewrite estimate_defined; [ reflexivity | lra | ].
  apply exponent_nonpos; [ exact Hk | apply cops_among_nonneg | exact Ha ].
Qed.

(** what the plain estimator returns, when it returns *)
Lemma update_estimated_Ok (m : Model) (self self1 : Citizen)
    (neighbors : list Z) :
  update_estimated_arrest_probability m self neighbors = Ok self1 →
  self1
  = set_estimate (1 + IZR (active_spatial m neighbors))
      (saturation (arrest_prob_constant m)
         (Int_part (IZR (cops_among m neighbors)
                    / (1 + IZR (active_spatial m neighbors)))))
      (strong_ties_received self) (weak_ties_received self) self.
Proof.
  unfold update_estimated_arrest_probability. rewrite count_spatial_eq.
  destruct (estimate _ _ _) as [ p | e ] eqn:E; simpl; [ | discriminate ].
  apply estimate_Ok in E as [_ ->]. by intros [= <-].
Qed.

Lemma update_estimated_eq (m : Model) (self : Citizen) (neighbors : list Z) :
  0 <= arrest_prob_constant m →
  update_estimated_arrest_probability m self neighbors
  = Ok (set_estimate (1 + IZR (active_spatial m neighbors))
          (saturation (arrest_prob_constant m)
             (Int_part (IZR (cops_among m neighbors)
                        / (1 + IZR (active_spatial m neighbors)))))
          (strong_ties_received self) (weak_ties_received self) self).
Proof.
  intros Hk.
  unfold update_estimated_arrest_probability. rewrite count_spatial_eq.
  pose proof (IZR_le _ _ (active_spatial_nonneg m neighbors)) as H.
  rewrite estimate_defined; [ reflexivity | lra | ].
  apply exponent_nonpos; [ exact Hk | apply cops_among_nonneg | lra ].
Qed.

Lemma Citizen_step_jailed (uid : Z) (self : Citizen) (m : Model) :
  jail_sentence self ≠ 0%Z →
  Citizen_step uid self m
  = Ok (set_agents
          (<[uid := ACitizen
                      (set_jail_sentence (jail_sentence self - 1) self)]>
             (agents m)) m).
Proof.
  intros H. unfold Citizen_step. rewrite decide_True by exact H. reflexivity.
Qed.

Lemma Citizen_step_network (uid : Z) (self : Citizen) (m : Model)
    (ego : Nx.Graph) (d1 d2 : list Citizen) :
  jail_sentence self = 0%Z → activation_type m = WithSWN →
  prepare_ego m uid = Ok (ego, d1, d2) →
  let nb := update_neighbors m (pos self) (vision self) in
  let a := network_actives m nb.1 d1 d2 in
  0 <= arrest_prob_constant m → 0 < a →
  Citizen_step uid self m
  = let self1 :=
      set_estimate a
        (saturation (arrest_prob_constant m)
           (Int_part (IZR (cops_among m nb.1) / a)))
        (active_in d1) (active_in d2) self in
    let m1 :=
      if decide (condition self = Active)
      then set_link_to_censor (link_to_censor m ∪ links_of ego uid) m
      else m in
    Ok (try_move uid nb.2
          (set_agents (<[uid := ACitizen (decide_condition self1)]> (agents m1))
             m1)).
Proof.
  intros Hj Hmode Hego nb a Hk Ha. unfold Citizen_step.
  rewrite decide_False by (intros H; apply H, Hj).
  rewrite Hmode, Hego. simpl. fold nb.
  rewrite update_network_eq by assumption. reflexivity.
Qed.

Lemma Citizen_step_plain (uid : Z) (self : Citizen) (m : Model) :
  jail_sentence self = 0%Z → activation_type m = WithoutSWN →
  0 <= arrest_prob_constant m →
  let nb := update_neighbors m (pos self) (vision self) in
  Citizen_step uid self m
  = let self1 :=
      set_estimate (1 + IZR (active_spatial m nb.1))
        (saturation (arrest_prob_constant m)
           (Int_part (IZR (cops_among m nb.1)
                      / (1 + IZR (active_spatial m nb.1)))))
        (strong_ties_received self) (weak_ties_received self) self in
    Ok (try_move uid nb.2
          (set_agents (<[uid := ACitizen (decide_condition self1)]> (agents m))
             m)).
Proof.
  intros Hj Hmode Hk nb. unfold Citizen_step.
  rewrite decide_False by (intros H; apply H, Hj).
  rewrite Hmode. fold nb. rewrite update_estimated_eq by exact Hk. reflexivity.
Qed.

(** the threshold rule, for a Quiescent citizen with an estimate *)
Lemma decide_condition_active (self : Citizen) (p : R) :
  condition self = Quiescent → arrest_probability self = Some p →
  grievance self - risk_aversion self * p > threshold self →
  decide_condition self = set_condition Active self.
Proof.
  intros Hc Hp H. unfold decide_condition. rewrite Hc, Hp.
  destruct (Rgt_dec _ _); [ reflexivity | contradiction ].
Qed.

Lemma decide_condition_quiet (self : Citizen) (p : R) :
  condition self = Quiescent → arrest_probability self = Some p →
  ¬ grievance self - risk_aversion self * p > threshold self →
  decide_condition self = self.
Proof.
  intros Hc Hp H. unfold decide_condition. rewrite Hc, Hp.
  destruct (Rgt_dec _ _); [ contradiction | reflexivity ].
Qed.

Lemma decide_condition_keeps_active (self : Citizen) :
  condition self = Active → decide_condition self = self.
Proof. intros Hc. unfold decide_condition. by rewrite Hc. Qed.

Lemma try_move_off (uid : Z) (l : list (Z * Z)) (m : Model) :
  movement m = false → try_move uid l m = m.
Proof. intros H. unfold try_move. by rewrite H. Qed.

Lemma lookup_citizen_written (uid : Z) (c : Citizen) (ags : gmap Z Agent)
    (m : Model) :
  lookup_citizen (set_agents (<[uid := ACitizen c]> ags) m) uid = Some c.
Proof. unfold lookup_citizen. simpl. by rewrite lookup_insert_eq. Qed.

(** with no cop in vision the floored ratio is 0 and the estimate is 0 *)
Lemma saturation_no_cops (k a : R) : saturation k (Int_part (IZR 0 / a)) = 0.
Proof. rewrite Int_part_zero_over. apply saturation_zero. Qed.
End CitizenStep.

Section ClaimC1.
Import Examples.
Local Open Scope R_scope.

(** C1, at the failing input.  An Active citizen with no spatial
    neighbour and no tie at all: the claim gives actives-in-vision 1,
    but [degree_2_neighbors] is every node of the ego network outside
    [degree_1_neighbors], the citizen itself included, so the citizen is
    counted again as its own weak tie. *)
Theorem active_citizen_is_its_own_weak_tie :
  ∃ ego m' self',
    pruned_ego (G lonely_active) 0 = Ok ego
    ∧ degree_1_ids ego 0 = ∅
    ∧ degree_2_ids ego 0 = {[ 0%Z ]}
    ∧ (update_neighbors lonely_active (0, 0)%Z 1).1 = []
    ∧ Citizen_step 0 (citizen_at (0, 0)%Z Active 0) lonely_active = Ok m'
    ∧ lookup_citizen m' 0 = Some self'
    ∧ actives_in_vision self' = Some 2
    ∧ strong_ties_received self' = 0%Z
    ∧ weak_ties_received self' = 1%Z.
Proof.
  assert (canonical (G lonely_active)) as Hc.
  { intros k Hk. vm_compute in Hk. discriminate Hk. }
  assert (0%Z ∈ Nx.nodes (G lonely_active)) as Hn by (vm_compute; reflexivity).
  pose proof (prepare_ego_eq lonely_active 0 Hc Hn) as Hego. cbv zeta in Hego.
  eexists _, _, _.
  split; [ apply pruned_ego_eq; assumption | ].
  split; [ vm_compute; reflexivity | ].
  split; [ vm_compute; reflexivity | ].
  split; [ vm_compute; reflexivity | ].
  rewrite (Citizen_step_network 0 (citizen_at (0, 0)%Z Active 0) lonely_active
             _ _ _ eq_refl eq_refl Hego).
  2:{ simpl. lra. }
  2:{ cbv zeta.
      eapply Rlt_le_trans; [ apply Rlt_0_1 | ].
      apply network_actives_ge_1. simpl. lra. }
  cbv zeta.
  split; [ reflexivity | ].
  rewrite try_move_off by (destruct (decide _); reflexivity).
  rewrite lookup_citizen_written.
  rewrite decide_condition_keeps_active by reflexivity.
  split; [ reflexivity | ].
  cbn [actives_in_vision strong_ties_received weak_ties_received set_estimate].
  unfold network_actives.
  match goal with |- context [active_spatial ?m ?l] =>
    replace (active_spatial m l) with 0%Z by (vm_compute; reflexivity) end.
  repeat match goal with |- context [active_in ?l] =>
    let v := eval vm_compute in (active_in l) in
    replace (active_in l) with v by (vm_compute; reflexivity) end.
  repeat split; try reflexivity. f_equal. simpl. lra.
Qed.
End ClaimC1.

(** ** The countdowns: decay and resolution *)

Section Resolution.
Import Nx.

Lemma decay_lookup (g : Graph) (k : Z * Z) :
  edges (decay g) !! k
  = (λ d, if decide (0 < d) then d - 1 else d) <$> edges g !! k.
Proof. unfold decay. simpl. apply lookup_fmap. Qed.

Lemma dom_decay (g : Graph) : dom (edges (decay g)) = dom (edges g).
Proof. unfold decay. simpl. apply dom_fmap_L. Qed.

Lemma canonical_decay (g : Graph) : canonical g → canonical (decay g).
Proof. intros Hc k Hk. rewrite dom_decay in Hk. by apply Hc. Qed.

Lemma seen_eq (m : Model) : seen m = decay (G m).
Proof. reflexivity. Qed.

Lemma resolved_refl (m : Model) : resolved m m.
Proof. repeat split; try reflexivity. intros k. by left. Qed.

Lemma resolved_trans (m1 m2 m3 : Model) :
  resolved m1 m2 → resolved m2 m3 → resolved m1 m3.
Proof.
  intros (Ha & Hs & Ht & Hn & Hd & He) (Ha' & Hs' & Ht' & Hn' & Hd' & He').
  repeat split; try congruence.
  intros k. destruct (He k) as [ H1 | [H1 H1'] ], (He' k) as [ H2 | [H2 H2'] ].
  - left. congruence.
  - right. split; congruence.
  - right. split; congruence.
  - right. split; congruence.
Qed.

Lemma censor_link_resolved (e : Z * Z) (m m' : Model) :
  censor_link e m = Ok m' → resolved m m'.
Proof.
  unfold censor_link, get_edge.
  destruct (edges (G m) !! canon e.1 e.2) as [ d | ] eqn:Hd; [ | discriminate ].
  destruct (decide (d = 0)) as [ -> | Hne ].
  2:{ intros [= <-]. apply resolved_refl. }
  destruct (Rng.random (random m)) as [x r].
  destruct (Rlt_dec x (p_link_censor m)).
  2:{ intros [= <-]. repeat split; try reflexivity. intros k. by left. }
  intros [= <-]. repeat split; try reflexivity.
  - simpl. apply dom_insert_lookup_L. eauto.
  - intros k. simpl. destruct (decide (k = canon e.1 e.2)) as [ -> | Hk ].
    + right. by rewrite lookup_insert_eq.
    + left. by rewrite lookup_insert_ne.
Qed.

Lemma censor_links_resolved (l : list (Z * Z)) (m m' : Model) :
  censor_links l m = Ok m' → resolved m m'.
Proof.
  revert m. induction l as [ | e l IH ]; intros m; simpl.
  - intros [= <-]. apply resolved_refl.
  - destruct (censor_link e m) as [ m1 | ? ] eqn:E; simpl; [ | discriminate ].
    intros H. eapply resolved_trans; [ by eapply censor_link_resolved | by apply IH ].
Qed.

Lemma collect_Ok (m m' : Model) :
  collect m = Ok m' → ∃ rows, m' = set_datacollector rows m.
Proof.
  unfold collect. intros H.
  do 4 (bind_case H). injection H as <-. eauto.
Qed.

(** what the closing attribute updates leave alone: everything but the
    attributes they assign *)
Lemma update_counts_frame {A} (f : Model → A) (m m' : Model) :
  (∀ x m, f (set_active_count x m) = f m) →
  (∀ x m, f (set_quiescent_count x m) = f m) →
  (∀ x m, f (set_jail_count x m) = f m) →
  (∀ x m, f (set_average_jail_term x m) = f m) →
  (∀ x m, f (set_strong_ties_receival x m) = f m) →
  (∀ x m, f (set_weak_ties_receival x m) = f m) →
  (∀ x m, f (set_iteration x m) = f m) →
  (∀ x m, f (set_running x m) = f m) →
  update_counts m = Ok m' → f m' = f m.
Proof.
  intros H1 H2 H3 H4 H5 H6 H7 H8. unfold update_counts. intros H.
  bind_case H. bind_case H. bind_case H.
  destruct (decide _); injection H as <-.
  - by rewrite H8, H7, H6, H5, H4, H3, H2, H1.
  - by rewrite H7, H6, H5, H4, H3, H2, H1.
Qed.

Lemma resolved_of_eq (m m' : Model) :
  agents m' = agents m → schedule m' = schedule m →
  t_censor m' = t_censor m → G m' = G m → resolved m m'.
Proof.
  intros Ha Hs Ht HG. unfold resolved. rewrite Ha, Hs, Ht, HG.
  repeat split. intros k. by left.
Qed.

Lemma update_counts_resolved (m m' : Model) :
  update_counts m = Ok m' → resolved m m' ∧ link_to_censor m' = link_to_censor m.
Proof.
  intros H. split.
  - apply resolved_of_eq.
    + by apply (update_counts_frame agents _ _) in H.
    + by apply (update_counts_frame schedule _ _) in H.
    + by apply (update_counts_frame t_censor _ _) in H.
    + by apply (update_counts_frame G _ _) in H.
  - by apply (update_counts_frame link_to_censor _ _) in H.
Qed.

Lemma end_step_resolved (m m' : Model) :
  end_step m = Ok m' → resolved m m' ∧ link_to_censor m' = ∅.
Proof.
  unfold end_step. intros H. do 3 (bind_case H).
  match goal with E : censor_links _ _ = Ok _ |- _ =>
    apply censor_links_resolved in E as Hr end.
  match goal with E : collect _ = Ok _ |- _ =>
    apply collect_Ok in E as [rows ->] end.
  apply update_counts_resolved in H as [Hr' Hl].
  split; [ | by rewrite Hl ].
  eapply resolved_trans; [ | eapply resolved_trans; [ | exact Hr' ] ].
  - exact Hr.
  - repeat split; try reflexivity. intros k; by left.
Qed.

(** one tick, seen from the graph: the countdowns decay, the agents
    leave the graph alone, the resolution raises some zeros *)
Lemma step_edges (m m' : Model) :
  step m = Ok m' →
  t_censor m' = t_censor m
  ∧ nodes (G m') = nodes (G m)
  ∧ dom (edges (G m')) = dom (edges (G m))
  ∧ ∀ k, edges (G m') !! k = edges (seen m) !! k
         ∨ (edges (seen m) !! k = Some 0
            ∧ edges (G m') !! k = Some (t_censor m)).
Proof.
  unfold step. intros H. bind_case H.
  pose proof (schedule_step_G _ _ E) as HG.
  pose proof (schedule_step_frame t_censor ltac:(done) ltac:(done)
                ltac:(done) ltac:(done) _ _ E) as Ht.
  apply end_step_resolved in H as [(Ha & Hs & Ht' & Hn & Hd & He) _].
  change (G (begin_step m)) with (seen m) in HG.
  change (t_censor (begin_step m)) with (t_censor m) in Ht.
  rewrite HG in Hn, Hd, He. rewrite Ht in Ht', He.
  split; [ exact Ht' | ]. split; [ exact Hn | ].
  split; [ rewrite Hd; apply dom_decay | exact He ].
Qed.

Lemma step_canonical (m m' : Model) :
  step m = Ok m' → canonical (G m) → canonical (G m').
Proof.
  intros H Hc k Hk. apply step_edges in H as (_ & _ & Hd & _).
  rewrite Hd in Hk. by apply Hc.
Qed.

Lemma steps_snoc (n : nat) (m : Model) :
  steps (S n) m = steps n m ≫= step.
Proof.
  revert m. induction n as [ | n IH ]; intros m.
  - simpl. destruct (step m); reflexivity.
  - change (steps (S (S n)) m) with (step m ≫= steps (S n)).
    change (steps (S n) m) with (step m ≫= steps n).
    destruct (step m) as [ m1 | e ]; [ | reflexivity ].
    apply IH.
Qed.

Lemma steps_canonical (n : nat) (m m' : Model) :
  steps n m = Ok m' → canonical (G m) → canonical (G m').
Proof.
  revert m. induction n as [ | n IH ]; intros m; simpl.
  - by intros [= <-].
  - destruct (step m) as [ m1 | e ] eqn:E; simpl; [ | discriminate ].
    intros H Hc. eapply IH; [ exact H | ]. by eapply step_canonical.
Qed.

Lemma steps_t_censor (n : nat) (m m' : Model) :
  steps n m = Ok m' → t_censor m' = t_censor m.
Proof.
  revert m. induction n as [ | n IH ]; intros m; simpl.
  - by intros [= <-].
  - destruct (step m) as [ m1 | e ] eqn:E; simpl; [ | discriminate ].
    intros H. rewrite (IH _ H). by apply step_edges in E as [-> _].
Qed.

(** the countdown of an edge that stands at [t] after a tick, as the
    agents read it [j] ticks later *)
Lemma countdown (m1 : Model) (k : Z * Z) (t : Z) (j : nat) (mj : Model) :
  edges (G m1) !! k = Some t →
  (1 ≤ j)%nat → Z.of_nat j ≤ t →
  steps (j - 1) m1 = Ok mj →
  edges (seen mj) !! k = Some (t - Z.of_nat j).
Proof.
  intros Hk. revert mj. induction j as [ | j IH ]; intros mj Hj1 Hjt; [ lia | ].
  destruct j as [ | j ].
  - change (steps (1 - 1) m1) with (Ok m1).
    intros [= <-]. rewrite seen_eq, decay_lookup, Hk. simpl.
    rewrite decide_True by lia. f_equal; lia.
  - replace (S (S j) - 1)%nat with (S (S j - 1)) by lia.
    rewrite steps_snoc. intros H. bind_case H.
    specialize (IH a ltac:(lia) ltac:(lia) E).
    apply step_edges in H as (_ & _ & _ & He).
    destruct (He k) as [ H1 | [H1 _] ].
    + rewrite seen_eq, decay_lookup, H1, IH. simpl.
      rewrite decide_True by lia. f_equal; lia.
    + rewrite IH in H1. injection H1 as H1. lia.
Qed.
End Resolution.

Section ClaimC3.
Import Nx.

(** every ego network of a tick is computed on the graph as it stands
    after the decay that opens the tick *)
Lemma graph_during_tick (m : Model) (p : nat) (mp : Model) :
  activate_all (take p (activation_order (begin_step m)).1)
    (set_random (activation_order (begin_step m)).2 (begin_step m)) = Ok mp →
  G mp = seen m.
Proof. intros H. by apply activate_all_G in H. Qed.

(** C3 (amended).  Let the resolution that closes tick T set the
    countdown of the edge between [u] and [v] to [t_censor].  The
    resolution runs after every agent of tick T has been activated, so
    during tick T itself the agents still read countdown 0 and the edge
    is in the ego network of its endpoints.  During tick T + j, for
    1 <= j < t_censor, the agents read countdown [t_censor - j] and the
    edge is in no ego network.  During tick T + t_censor the agents read
    countdown 0 again and the edge is back in the ego network of its
    endpoints. *)
Theorem censored_edge_timeline (m0 m1 : Model) (u v : Z) :
  canonical (G m0) →
  0 < t_censor m0 →
  step m0 = Ok m1 →
  edges (G m1) !! canon u v ≠ edges (seen m0) !! canon u v →
  (edges (seen m0) !! canon u v = Some 0
   ∧ edges (G m1) !! canon u v = Some (t_censor m0)
   ∧ ∀ ego, pruned_ego (seen m0) u = Ok ego →
            edges ego !! canon u v = Some 0 ∧ v ∈ degree_1_ids ego u)
  ∧ (∀ (j : nat) (mj : Model),
       (1 ≤ j)%nat → Z.of_nat j < t_censor m0 →
       steps (j - 1) m1 = Ok mj →
       edges (seen mj) !! canon u v = Some (t_censor m0 - Z.of_nat j)
       ∧ ∀ n ego, pruned_ego (seen mj) n = Ok ego →
                  edges ego !! canon u v = None)
  ∧ (∀ mT : Model,
       steps (Z.to_nat (t_censor m0) - 1) m1 = Ok mT →
       edges (seen mT) !! canon u v = Some 0
       ∧ ∀ ego, pruned_ego (seen mT) u = Ok ego →
                edges ego !! canon u v = Some 0 ∧ v ∈ degree_1_ids ego u).
Proof.
  intros Hc Ht Hstep Hset.
  pose proof (step_edges _ _ Hstep) as (_ & _ & _ & He).
  destruct (He (canon u v)) as [ Hsame | [Hold Hnew] ]; [ contradiction | ].
  pose proof (step_canonical _ _ Hstep Hc) as Hc1.
  split; [ | split ].
  - split; [ exact Hold | ]. split; [ exact Hnew | ].
    intros ego Hego.
    apply (live_edge_included (seen m0) u v ego 0); try assumption; try lia.
    rewrite seen_eq. by apply canonical_decay.
  - intros j mj Hj1 Hjt Hsteps.
    pose proof (countdown m1 _ _ j mj Hnew Hj1 ltac:(lia) Hsteps) as Hcd.
    split; [ exact Hcd | ]. intros n ego Hego.
    eapply (censored_edge_excluded (seen mj)); [ | exact Hcd | lia | exact Hego ].
    rewrite seen_eq. apply canonical_decay. by eapply steps_canonical.
  - intros mT Hsteps.
    pose proof (countdown m1 _ _ (Z.to_nat (t_censor m0)) mT Hnew
                  ltac:(lia) ltac:(lia) Hsteps) as Hcd.
    rewrite Z2Nat.id, Z.sub_diag in Hcd by lia.
    split; [ exact Hcd | ]. intros ego Hego.
    apply (live_edge_included (seen mT) u v ego 0); try assumption; try lia.
    rewrite seen_eq. apply canonical_decay. by eapply steps_canonical.
Qed.
End ClaimC3.

(** ** What an activation does to the agents *)

Section AgentStore.

Lemma move_agent_other (uid i : Z) (p : Z * Z) (m : Model) :
  i ≠ uid → agents (move_agent uid p m) !! i = agents m !! i.
Proof.
  intros Hne. unfold move_agent. destruct (agents m !! uid); [ | reflexivity ].
  simpl. by rewrite lookup_insert_ne.
Qed.

Lemma move_agent_self (uid : Z) (p : Z * Z) (m : Model) :
  agents (move_agent uid p m) !! uid = set_agent_pos p <$> agents m !! uid.
Proof.
  unfold move_agent. destruct (agents m !! uid) as [ a | ] eqn:E.
  - simpl. by rewrite lookup_insert_eq.
  - by rewrite E.
Qed.

Lemma try_move_other (uid i : Z) (l : list (Z * Z)) (m : Model) :
  i ≠ uid → agents (try_move uid l m) !! i = agents m !! i.
Proof.
  intros Hne. unfold try_move. destruct (movement m); [ | reflexivity ].
  destruct l as [ | q l ]; [ reflexivity | ].
  destruct (Rng.choice (q :: l) (random m)) as [ [ p | ] r ]; [ | reflexivity ].
  by rewrite move_agent_other.
Qed.

(** moving rewrites the position and nothing else *)
Lemma try_move_self (uid : Z) (l : list (Z * Z)) (m : Model) :
  agents (try_move uid l m) !! uid = agents m !! uid
  ∨ ∃ p, movement m = true ∧ p ∈ l
         ∧ agents (try_move uid l m) !! uid
           = set_agent_pos p <$> agents m !! uid.
Proof.
  unfold try_move. destruct (movement m); [ | by left ].
  destruct l as [ | q l ]; [ by left | ].
  destruct (choice_is_Some (q :: l) (random m) ltac:(done)) as (p & Hp & Hin).
  destruct (Rng.choice (q :: l) (random m)) as [ o r ]. simpl in Hp. subst o.
  right. exists p. split; [ reflexivity | ]. split; [ exact Hin | ].
  rewrite move_agent_self. reflexivity.
Qed.

Lemma try_move_off_jail (uid : Z) (l : list (Z * Z)) (m : Model) (c : Citizen) :
  lookup_citizen m uid = Some c →
  ∃ c', lookup_citizen (try_move uid l m) uid = Some c'
        ∧ condition c' = condition c
        ∧ jail_sentence c' = jail_sentence c
        ∧ actives_in_vision c' = actives_in_vision c
        ∧ arrest_probability c' = arrest_probability c
        ∧ strong_ties_received c' = strong_ties_received c
        ∧ weak_ties_received c' = weak_ties_received c
        ∧ (movement m = false → c' = c).
Proof.
  unfold lookup_citizen. intros H.
  destruct (agents m !! uid) as [ [ c0 | k ] | ] eqn:E; try discriminate.
  injection H as ->.
  destruct (try_move_self uid l m) as [ Hs | (p & Hm & _ & Hs) ]; rewrite Hs, E.
  - exists c. repeat split; reflexivity.
  - simpl. exists (set_pos p c). repeat split; try reflexivity.
    intros Hf. congruence.
Qed.

Lemma arrest_other (a i : Z) (s : Z) (m : Model) :
  i ≠ a → agents (arrest a s m) !! i = agents m !! i.
Proof.
  intros Hne. unfold arrest. destruct (lookup_citizen m a); [ | reflexivity ].
  simpl. by rewrite lookup_insert_ne.
Qed.

Lemma arrest_self (a : Z) (s : Z) (m : Model) (c : Citizen) :
  lookup_citizen m a = Some c →
  agents (arrest a s m) !! a
  = Some (ACitizen (set_condition Quiescent (set_jail_sentence s c))).
Proof.
  intros H. unfold arrest. rewrite H. simpl. by rewrite lookup_insert_eq.
Qed.

(** a cop only ever picks a non-jailed Active citizen *)
Lemma arrestee_active (m : Model) (k : Cop) (a : Z) :
  arrestee_of m k = Some a → active_free_citizen m a = true.
Proof.
  unfold arrestee_of.
  destruct (active_neighbors m k) as [ | q l ] eqn:E; [ discriminate | ].
  intros H.
  destruct (choice_is_Some (q :: l) (random m) ltac:(done)) as (x & Hx & Hin).
  rewrite H in Hx. injection Hx as ->.
  rewrite <- E in Hin. unfold active_neighbors in Hin.
  by apply list_elem_of_filter in Hin as [Hact _].
Qed.

Lemma Citizen_step_other (uid i : Z) (c : Citizen) (m m' : Model) :
  Citizen_step uid c m = Ok m' → i ≠ uid → agents m' !! i = agents m !! i.
Proof.
  unfold Citizen_step. intros H Hne.
  destruct (decide (jail_sentence c ≠ 0)).
  { injection H as <-. simpl. by rewrite lookup_insert_ne. }
  destruct (activation_type m).
  - destruct (prepare_ego m uid) as [ ego | e ]; simpl in H; [ | discriminate ].
    destruct (update_network_arrest_probability _ _ _ _ _) as [ c1 | e ];
      simpl in H; [ | discriminate ].
    injection H as <-. rewrite try_move_other by exact Hne. simpl.
    rewrite lookup_insert_ne by congruence.
    destruct (decide (condition c1 = Active)); reflexivity.
  - destruct (update_estimated_arrest_probability _ _ _) as [ c1 | e ];
      simpl in H; [ | discriminate ].
    injection H as <-. rewrite try_move_other by exact Hne. simpl.
    by rewrite lookup_insert_ne.
Qed.

(** what [Cop.step] does to an agent other than the cop: nothing, or the
    arrest of the citizen that the cop picked *)
Lemma Cop_step_other (uid i : Z) (k : Cop) (m m' : Model) :
  Cop_step uid k m = Ok m' → i ≠ uid →
  (arrestee_of m k ≠ Some i ∧ agents m' !! i = agents m !! i)
  ∨ (arrestee_of m k = Some i
     ∧ ∃ c s, lookup_citizen m i = Some c
              ∧ 0 ≤ s ≤ max_jail_term m
              ∧ agents m' !! i
                = Some (ACitizen (set_condition Quiescent
                                    (set_jail_sentence s c)))).
Proof.
  unfold Cop_step. intros H Hne.
  destruct (arrestee_of m k) as [ a | ] eqn:Ea.
  2:{ simpl in H. injection H as <-. left. split; [ done | ].
      by rewrite try_move_other. }
  unfold Rng.randint in H.
  destruct (decide (max_jail_term m < 0)); [ simpl in H; discriminate | ].
  destruct (Rng.randbelow _ _) as [j r2] eqn:Er. simpl in H.
  injection H as <-. rewrite try_move_other by exact Hne.
  destruct (decide (i = a)) as [ -> | Hia ].
  - right. split; [ reflexivity | ].
    pose proof (arrestee_active _ _ _ Ea) as Hact.
    unfold active_free_citizen in Hact.
    destruct (lookup_citizen m a) as [ c | ] eqn:Ec; [ | discriminate ].
    exists c, (0 + j). split; [ reflexivity | ]. split.
    + pose proof (randbelow_range (max_jail_term m - 0 + 1)
                    (Rng.choice (active_neighbors m k) (random m)).2
                    ltac:(lia)) as Hr.
      rewrite Er in Hr. simpl in Hr. lia.
    + by apply arrest_self.
  - left. split; [ congruence | ]. by rewrite arrest_other.
Qed.
End AgentStore.

(** ** The activation order *)

Section Order.
Import Rng.




End Order.

(** ** A tick, agent by agent *)

Section Tick.


Lemma lookup_citizen_agents (m m' : Model) (i : Z) :
  agents m' !! i = agents m !! i → lookup_citizen m' i = lookup_citizen m i.
Proof. unfold lookup_citizen. by intros ->. Qed.




Lemma dormant_jailed (c : Citizen) : jail_sentence c ≠ 0 → active_free c = false.
Proof.
  intros H. unfold active_free. rewrite (bool_decide_eq_false_2 _ H).
  apply andb_false_r.
Qed.


End Tick.

Section JailCountdown.

Lemma free_citizen_keeps_sentence (uid : Z) (c : Citizen) (m m' : Model) :
  Citizen_step uid c m = Ok m' → agents m !! uid = Some (ACitizen c) →
  ∃ c', lookup_citizen m' uid = Some c'
        ∧ (jail_sentence c' = jail_sentence c
           ∨ (jail_sentence c ≠ 0 ∧ jail_sentence c' = jail_sentence c - 1)).
Proof.
  unfold Citizen_step. intros H Hag.
  destruct (decide (jail_sentence c ≠ 0)).
  { injection H as <-. rewrite lookup_citizen_written. eexists.
    split; [ reflexivity | ]. right. split; [ assumption | reflexivity ]. }
  assert (∀ c1 l m1,
            jail_sentence c1 = jail_sentence c →
            ∃ c', lookup_citizen
                    (try_move uid l
                       (set_agents (<[uid := ACitizen (decide_condition c1)]>
                                      (agents m1)) m1)) uid = Some c'
                  ∧ jail_sentence c' = jail_sentence c) as Hkey.
  { intros c1 l m1 Hj.
    destruct (try_move_off_jail uid l _ _ (lookup_citizen_written uid
                (decide_condition c1) (agents m1) m1))
      as (c' & Hc' & _ & Hj' & _).
    exists c'. split; [ exact Hc' | ]. rewrite Hj', <- Hj.
    unfold decide_condition.
    destruct (condition c1), (arrest_probability c1); try reflexivity.
    destruct (Rgt_dec _ _); reflexivity. }
  destruct (activation_type m).
  - destruct (prepare_ego m uid) as [ ego | e ]; simpl in H; [ | discriminate ].
    destruct (update_network_arrest_probability _ _ _ _ _) as [ c1 | e ] eqn:E;
      simpl in H; [ | discriminate ].
    injection H as <-.
    apply update_network_actives in E as (_ & _ & _ & _ & Hj & _).
    destruct (Hkey c1
                (update_neighbors m (pos c) (vision c)).2
                (if decide (condition c1 = Active)
                 then set_link_to_censor
                        (link_to_censor m ∪ links_of ego.1.1 uid) m
                 else m) Hj) as (c' & Hc' & Hj').
    exists c'. split; [ exact Hc' | by left ].
  - destruct (update_estimated_arrest_probability _ _ _) as [ c1 | e ] eqn:E;
      simpl in H; [ | discriminate ].
    injection H as <-. apply update_estimated_Ok in E. subst c1.
    match goal with |- context [decide_condition ?c1] =>
      destruct (Hkey c1 (update_neighbors m (pos c) (vision c)).2 m eq_refl)
        as (c' & Hc' & Hj') end.
    exists c'. split; [ exact Hc' | by left ].
Qed.

End JailCountdown.

(** ** A tick does not raise *)

Section Totality.

Lemma succeeds_Ok {A} (a : A) : succeeds (Ok a).
Proof. by exists a. Qed.

Lemma incident_live_dom (g : Nx.Graph) (n : Z) :
  incident_live g n ⊆ dom (Nx.edges g).
Proof.
  intros k Hk. unfold incident_live in Hk.
  apply elem_of_filter in Hk as [_ Hk]. simpl in Hk.
  apply elem_of_dom_filter in Hk as (d & Hd & _). apply elem_of_dom. eauto.
Qed.

Lemma Citizen_step_succeeds (uid : Z) (c : Citizen) (m : Model) :
  runnable m → agents m !! uid = Some (ACitizen c) →
  succeeds (Citizen_step uid c m).
Proof.
  intros (Hcan & Hnet & Hk & _) Hag.
  destruct (decide (jail_sentence c = 0)) as [ Hj | Hj ].
  2:{ rewrite Citizen_step_jailed by exact Hj. apply succeeds_Ok. }
  destruct (activation_type m) eqn:Hmode.
  - destruct (Hnet eq_refl) as [Hnodes Hw].
    assert (uid ∈ Nx.nodes (G m)) as Hn.
    { apply Hnodes. unfold lookup_citizen. rewrite Hag. eauto. }
    rewrite (Citizen_step_network uid c m _ _ _ Hj Hmode
               (prepare_ego_eq m uid Hcan Hn)).
    + apply succeeds_Ok.
    + exact Hk.
    + pose proof (network_actives_ge_1 m
                    (update_neighbors m (pos c) (vision c)).1
                    (get_agents_by_ids m (elements (degree_1_ids
                       (Nx.subgraph (live (G m)) (Nx.within2 (live (G m)) uid)) uid)))
                    (get_agents_by_ids m (elements (degree_2_ids
                       (Nx.subgraph (live (G m)) (Nx.within2 (live (G m)) uid)) uid)))
                    Hw) as Hge.
      cbv zeta. lra.
  - rewrite (Citizen_step_plain uid c m Hj Hmode Hk). apply succeeds_Ok.
Qed.

Lemma Cop_step_succeeds (uid : Z) (k : Cop) (m : Model) :
  0 ≤ max_jail_term m → succeeds (Cop_step uid k m).
Proof.
  intros Hmax. unfold Cop_step.
  destruct (arrestee_of m k); [ | apply succeeds_Ok ].
  unfold Rng.randint. rewrite decide_False by lia.
  destruct (Rng.randbelow _ _). simpl. apply succeeds_Ok.
Qed.

Lemma activate_succeeds (uid : Z) (m : Model) :
  runnable m → succeeds (activate uid m).
Proof.
  intros Hr. unfold activate.
  destruct (agents m !! uid) as [ [ c | k ] | ] eqn:E.
  - by apply Citizen_step_succeeds.
  - apply Cop_step_succeeds. apply Hr.
  - apply succeeds_Ok.
Qed.

(** an activation turns no cop into a citizen *)
Lemma activate_citizens (uid i : Z) (m m' : Model) :
  activate uid m = Ok m' →
  is_Some (lookup_citizen m' i) → is_Some (lookup_citizen m i).
Proof.
  unfold activate. intros H Hi.
  destruct (agents m !! uid) as [ [ c | k ] | ] eqn:E.
  - destruct (decide (i = uid)) as [ -> | Hne ].
    + unfold lookup_citizen. rewrite E. eauto.
    + by rewrite <- (lookup_citizen_agents _ _ _
                       (Citizen_step_other uid i c m m' H Hne)).
  - destruct (decide (i = uid)) as [ -> | Hne ].
    + exfalso. revert H Hi. unfold Cop_step.
      assert (∀ m1 l, agents m1 !! uid = Some (ACop k) →
                      ¬ is_Some (lookup_citizen (try_move uid l m1) uid))
        as Hcop.
      { intros m1 l Hm1 [c Hc]. unfold lookup_citizen in Hc.
        destruct (try_move_self uid l m1) as [ Hs | (p & _ & _ & Hs) ];
          rewrite Hs, Hm1 in Hc; discriminate. }
      destruct (arrestee_of m k) as [ a | ] eqn:Ea.
      * destruct (Rng.randint _ _ _) as [ [ s | e ] r2 ]; simpl;
          [ | discriminate ].
        intros [= <-]. apply Hcop.
        rewrite arrest_other; [ exact E | ].
        intros ->. apply arrestee_active in Ea.
        unfold active_free_citizen, lookup_citizen in Ea.
        rewrite E in Ea. discriminate.
      * simpl. intros [= <-]. by apply Hcop.
    + destruct (Cop_step_other uid i k m m' H Hne)
        as [ [_ Hs] | (_ & c & _ & Hc & _) ].
      * by rewrite <- (lookup_citizen_agents _ _ _ Hs).
      * rewrite Hc. eauto.
  - by injection H as <-.
Qed.

(** the pending set grows only by live edges of the graph *)
Lemma activate_links (uid : Z) (m m' : Model) :
  activate uid m = Ok m' → canonical (G m) →
  link_to_censor m' = link_to_censor m
  ∨ link_to_censor m' = link_to_censor m ∪ incident_live (G m) uid.
Proof.
  unfold activate. intros H Hcan.
  destruct (agents m !! uid) as [ [ c | k ] | ] eqn:E.
  - revert H. unfold Citizen_step.
    destruct (decide (jail_sentence c ≠ 0)); [ intros [= <-]; by left | ].
    destruct (activation_type m).
    + unfold prepare_ego.
      destruct (pruned_ego (G m) uid) as [ ego | e ] eqn:Ee; simpl;
        [ | discriminate ].
      destruct (update_network_arrest_probability _ _ _ _ _) as [ c1 | e ];
        simpl; [ | discriminate ].
      intros [= <-].
      rewrite (try_move_frame link_to_censor) by done. simpl.
      destruct (decide (condition c1 = Active)); [ | by left ].
      right. simpl. by rewrite (links_of_eq (G m) uid ego Hcan Ee).
    + destruct (update_estimated_arrest_probability _ _ _) as [ c1 | e ];
        simpl; [ | discriminate ].
      intros [= <-]. left.
      by rewrite (try_move_frame link_to_censor).
  - left. eapply (Cop_step_frame link_to_censor); try done.
  - injection H as <-. by left.
Qed.

Lemma activate_runnable (uid : Z) (m m' : Model) :
  activate uid m = Ok m' → runnable m → runnable m'.
Proof.
  intros H (Hcan & Hnet & Hk & Hmax & Hne & Hlinks).
  pose proof (activate_frame G ltac:(done) ltac:(done) ltac:(done)
                ltac:(done) _ _ _ H) as HG.
  unfold runnable. rewrite HG.
  rewrite (activate_frame arrest_prob_constant ltac:(done) ltac:(done)
             ltac:(done) ltac:(done) _ _ _ H).
  rewrite (activate_frame activation_type ltac:(done) ltac:(done)
             ltac:(done) ltac:(done) _ _ _ H).
  rewrite (activate_frame strong_weak_ratio ltac:(done) ltac:(done)
             ltac:(done) ltac:(done) _ _ _ H).
  rewrite (activate_frame max_jail_term ltac:(done) ltac:(done)
             ltac:(done) ltac:(done) _ _ _ H).
  rewrite (activate_frame number_of_edges ltac:(done) ltac:(done)
             ltac:(done) ltac:(done) _ _ _ H).
  repeat split; try assumption.
  - intros i Hi. apply (Hnet H0). by eapply activate_citizens.
  - by apply Hnet.
  - destruct (activate_links uid m m' H Hcan) as [ -> | -> ];
      [ exact Hlinks | ].
    apply union_least; [ exact Hlinks | apply incident_live_dom ].
Qed.

Lemma activate_all_succeeds (order : list Z) (m : Model) :
  runnable m → ∃ m', activate_all order m = Ok m' ∧ runnable m'.
Proof.
  revert m. induction order as [ | uid l IH ]; intros m Hr; simpl.
  - eauto.
  - destruct (activate_succeeds uid m Hr) as [m1 H1]. rewrite H1. simpl.
    apply IH. by eapply activate_runnable.
Qed.
End Totality.

Section TotalityOfStep.

Lemma censor_link_frame {A} (f : Model → A) (e : Z * Z) (m m' : Model) :
  (∀ x m, f (set_random x m) = f m) →
  (∀ x m, f (set_G x m) = f m) →
  (∀ x m, f (set_censored_links x m) = f m) →
  censor_link e m = Ok m' → f m' = f m.
Proof.
  intros Hr HG Hc. unfold censor_link.
  destruct (Nx.get_edge (G m) e.1 e.2) as [ d | ]; [ | discriminate ].
  destruct (decide (d = 0)); [ | by intros [= <-] ].
  destruct (Rng.random (random m)) as [x r].
  destruct (Rlt_dec x (p_link_censor m)); intros [= <-].
  - by rewrite Hc, HG, Hr.
  - by rewrite Hr.
Qed.

Lemma censor_links_frame {A} (f : Model → A) (l : list (Z * Z))
    (m m' : Model) :
  (∀ x m, f (set_random x m) = f m) →
  (∀ x m, f (set_G x m) = f m) →
  (∀ x m, f (set_censored_links x m) = f m) →
  censor_links l m = Ok m' → f m' = f m.
Proof.
  intros Hr HG Hc. revert m. induction l as [ | e l IH ]; intros m; simpl.
  - by intros [= <-].
  - intros H. bind_case H. rewrite (IH _ H).
    by eapply censor_link_frame.
Qed.

Lemma censor_link_succeeds (e : Z * Z) (m : Model) :
  canonical (G m) → e ∈ dom (Nx.edges (G m)) → succeeds (censor_link e m).
Proof.
  intros Hcan He. unfold censor_link, Nx.get_edge.
  rewrite (canon_of_ordered e (Hcan e He)).
  apply elem_of_dom in He as [d Hd]. rewrite Hd.
  destruct (decide (d = 0)); [ | apply succeeds_Ok ].
  destruct (Rng.random (random m)) as [x r].
  destruct (Rlt_dec x (p_link_censor m)); apply succeeds_Ok.
Qed.

Lemma resolved_canonical (m m' : Model) :
  resolved m m' → canonical (G m) → canonical (G m').
Proof.
  intros (_ & _ & _ & _ & Hd & _) Hc k Hk. rewrite Hd in Hk. by apply Hc.
Qed.

Lemma censor_links_succeeds (l : list (Z * Z)) (m : Model) :
  canonical (G m) → (∀ e, e ∈ l → e ∈ dom (Nx.edges (G m))) →
  succeeds (censor_links l m).
Proof.
  revert m. induction l as [ | e l IH ]; intros m Hcan Hl; simpl.
  - apply succeeds_Ok.
  - destruct (censor_link_succeeds e m Hcan (Hl e ltac:(left))) as [m1 H1].
    rewrite H1. simpl.
    pose proof (censor_link_resolved _ _ _ H1) as Hres.
    apply IH.
    + by eapply resolved_canonical.
    + intros e' He'. destruct Hres as (_ & _ & _ & _ & -> & _).
      apply Hl. by right.
Qed.

Lemma collect_succeeds (m : Model) :
  number_of_edges m ≠ 0 → succeeds (collect m).
Proof.
  intros Hne. unfold collect. rewrite get_average_jail_term_total. simpl.
  unfold get_average_strong_ties_receival, get_average_weak_ties_receival.
  destruct (average_receival_total strong_ties_received m) as (x & -> & _).
  destruct (average_receival_total weak_ties_received m) as (y & -> & _).
  simpl. unfold get_active_link_ratio.
  destruct (decide (number_of_edges m = 0)); [ contradiction | ].
  simpl. apply succeeds_Ok.
Qed.

Lemma succeeds_bind {A B} (r : result A) (f : A → result B) :
  succeeds r → (∀ a, succeeds (f a)) → succeeds (r ≫= f).
Proof. intros [a ->] Hf. apply Hf. Qed.

Lemma average_receival_succeeds (f : Citizen → Z) (m : Model) :
  succeeds (average_receival f m).
Proof. destruct (average_receival_total f m) as (x & -> & _). apply succeeds_Ok. Qed.

Lemma update_counts_succeeds (m : Model) : succeeds (update_counts m).
Proof.
  unfold update_counts. cbv zeta.
  apply succeeds_bind.
  { rewrite get_average_jail_term_total. apply succeeds_Ok. }
  intros jt. apply succeeds_bind; [ apply average_receival_succeeds | ].
  intros sr. apply succeeds_bind; [ apply average_receival_succeeds | ].
  intros wr. apply succeeds_Ok.
Qed.

Lemma end_step_succeeds (m : Model) : runnable m → succeeds (end_step m).
Proof.
  intros (Hcan & _ & _ & _ & Hne & Hlinks). unfold end_step.
  unfold get_active_link_ratio at 1. simpl number_of_edges.
  destruct (decide (number_of_edges m = 0)); [ contradiction | ]. simpl.
  match goal with |- context [censor_links ?l ?x] =>
    destruct (censor_links_succeeds l x) as [m3 H3] end.
  { exact Hcan. }
  { intros e He. apply elem_of_elements in He. by apply Hlinks. }
  rewrite H3. simpl.
  pose proof (censor_links_frame number_of_edges _ _ _
                ltac:(done) ltac:(done) ltac:(done) H3) as Hn.
  destruct (collect_succeeds (set_link_to_censor ∅ m3)) as [m5 H5].
  { simpl. rewrite Hn. exact Hne. }
  rewrite H5. simpl. apply update_counts_succeeds.
Qed.

Lemma begin_step_runnable (m : Model) : runnable m → runnable (begin_step m).
Proof.
  intros (Hcan & Hnet & Hk & Hmax & Hne & Hlinks).
  split; [ by apply canonical_decay | ].
  split; [ intros Hm; split; [ intros i Hi | ]; by apply Hnet | ].
  split; [ exact Hk | ]. split; [ exact Hmax | ]. split; [ exact Hne | ].
  change (G (begin_step m)) with (decay (G m)). by rewrite dom_decay.
Qed.

(** a runnable model takes its tick without raising *)
Lemma step_succeeds (m : Model) : runnable m → succeeds (step m).
Proof.
  intros Hr. unfold step, schedule_step.
  destruct (activation_order (begin_step m)) as [order r].
  destruct (activate_all_succeeds order (set_random r (begin_step m)))
    as (m1 & H1 & Hr1).
  { by apply begin_step_runnable in Hr. }
  rewrite H1. simpl. by apply end_step_succeeds.
Qed.
End TotalityOfStep.

(** ** The pending-censorship set *)

Section Pending.

Lemma active_free_citizen_eq (m : Model) (uid : Z) (c : Citizen) :
  agents m !! uid = Some (ACitizen c) →
  active_free_citizen m uid = active_free c.
Proof. intros H. unfold active_free_citizen, lookup_citizen. by rewrite H. Qed.

(** what one activation adds to the pending set *)
Lemma activate_marks (uid : Z) (m m' : Model) :
  activate uid m = Ok m' → canonical (G m) →
  link_to_censor m'
  = link_to_censor m
    ∪ (if decide (activation_type m = WithSWN)
       then if active_free_citizen m uid then incident_live (G m) uid else ∅
       else ∅).
Proof.
  unfold activate. intros H Hcan.
  assert (∀ X : gset (Z * Z), X = X ∪ ∅) as Hid by (intros; set_solver).
  destruct (agents m !! uid) as [ [ c | k ] | ] eqn:E.
  - rewrite (active_free_citizen_eq _ _ _ E).
    revert H. unfold Citizen_step.
    destruct (decide (jail_sentence c ≠ 0)) as [ Hj | Hj ].
    { intros [= <-]. simpl. rewrite (dormant_jailed c Hj).
      destruct (decide _); apply Hid. }
    destruct (activation_type m) eqn:Hmode.
    + rewrite decide_True by reflexivity. unfold prepare_ego.
      destruct (pruned_ego (G m) uid) as [ ego | e ] eqn:Ee; simpl;
        [ | discriminate ].
      destruct (update_network_arrest_probability _ _ _ _ _) as [ c1 | e ] eqn:Eu;
        simpl; [ | discriminate ].
      intros [= <-].
      apply update_network_actives in Eu as (_ & _ & _ & Hcond & _).
      rewrite (try_move_frame link_to_censor) by done. simpl.
      unfold active_free. rewrite <- Hcond.
      destruct (decide (condition c1 = Active)) as [ Ha | Ha ].
      * simpl. rewrite (links_of_eq (G m) uid ego Hcan Ee).
        rewrite (bool_decide_eq_true_2 _ Ha).
        rewrite bool_decide_eq_true_2; [ reflexivity | ].
        destruct (decide (jail_sentence c = 0)); [ assumption | contradiction ].
      * rewrite (bool_decide_eq_false_2 _ Ha). apply Hid.
    + rewrite decide_False by discriminate.
      destruct (update_estimated_arrest_probability _ _ _) as [ c1 | e ];
        simpl; [ | discriminate ].
      intros [= <-]. rewrite (try_move_frame link_to_censor) by done.
      apply Hid.
  - rewrite (Cop_step_frame link_to_censor ltac:(done) ltac:(done)
               ltac:(done) _ _ _ _ H).
    unfold active_free_citizen, lookup_citizen. rewrite E.
    destruct (decide _); apply Hid.
  - injection H as <-. unfold active_free_citizen, lookup_citizen. rewrite E.
    destruct (decide _); apply Hid.
Qed.

Lemma activate_all_marks (order : list Z) (m m' : Model) :
  activate_all order m = Ok m' → canonical (G m) →
  link_to_censor m'
  = link_to_censor m
    ∪ (if decide (activation_type m = WithSWN) then marked order m else ∅).
Proof.
  revert m. induction order as [ | uid l IH ]; intros m; simpl.
  - intros [= <-] _. destruct (decide _); set_solver.
  - intros H Hcan. bind_case H. rewrite E.
    pose proof (activate_frame G ltac:(done) ltac:(done) ltac:(done)
                  ltac:(done) _ _ _ E) as HG.
    pose proof (activate_frame activation_type ltac:(done) ltac:(done)
                  ltac:(done) ltac:(done) _ _ _ E) as Hmode.
    rewrite (IH a H) by (by rewrite HG).
    rewrite (activate_marks uid m a E Hcan). rewrite Hmode.
    destruct (decide (activation_type m = WithSWN)); set_solver.
Qed.
End Pending.

Section ClaimC4.

(** C4 (amended).  In network mode, the pending set that the scheduler
    drains at the end of a tick is the pending set at the start of the
    tick (empty after any earlier tick) together with the live edges,
    each under its ordered pair of endpoints, at every citizen that is
    Active and out of jail when its own activation begins.  In
    particular one activation adds the live edges at its agent if that
    agent is such a citizen beforehand, and adds nothing otherwise: a
    citizen that turns Active in this activation marks no edge in this
    tick. *)
Theorem pending_set_of_tick (m m1 : Model) :
  canonical (G m) →
  activation_type m = WithSWN →
  schedule_step (begin_step m) = Ok m1 →
  link_to_censor m1
  = link_to_censor m
    ∪ marked (activation_order (begin_step m)).1
        (set_random (activation_order (begin_step m)).2 (begin_step m))
  ∧ (∀ (uid : Z) (ma mb : Model),
       canonical (G ma) → activation_type ma = WithSWN →
       activate uid ma = Ok mb →
       link_to_censor mb
       = link_to_censor ma
         ∪ (if active_free_citizen ma uid then incident_live (G ma) uid
            else ∅))
  ∧ (∀ (uid : Z) (ego : Nx.Graph),
       pruned_ego (seen m) uid = Ok ego →
       links_of ego uid = incident_live (seen m) uid).
Proof.
  intros Hcan Hmode Hstep. split; [ | split ].
  - unfold schedule_step in Hstep.
    destruct (activation_order (begin_step m)) as [order r]. simpl.
    pose proof (activate_all_marks order _ m1 Hstep) as H.
    rewrite decide_True in H by exact Hmode. apply H.
    by apply canonical_decay.
  - intros uid ma mb Hc Hm Hact.
    pose proof (activate_marks uid ma mb Hact Hc) as H.
    by rewrite decide_True in H by exact Hm.
  - intros uid ego Hego. apply links_of_eq; [ | exact Hego ].
    by apply canonical_decay.
Qed.
End ClaimC4.

(** ** A Quiescent citizen with no cop in sight *)

Section Activation.
Local Open Scope R_scope.

Lemma decide_condition_no_risk (c1 : Citizen) :
  condition c1 = Quiescent → arrest_probability c1 = Some 0 →
  grievance c1 > threshold c1 →
  decide_condition c1 = set_condition Active c1.
Proof.
  intros Hq Hp Hg. apply (decide_condition_active c1 0 Hq Hp). lra.
Qed.

(** the activation of a Quiescent citizen, out of jail, with no cop in
    vision and a grievance above the threshold: it turns Active, with
    arrest probability 0 *)
Lemma activates_without_cops (uid : Z) (c : Citizen) (m m' : Model) :
  Citizen_step uid c m = Ok m' →
  jail_sentence c = 0%Z → condition c = Quiescent →
  cops_among m (update_neighbors m (pos c) (vision c)).1 = 0%Z →
  grievance c > threshold c →
  ∃ c', lookup_citizen m' uid = Some c'
        ∧ condition c' = Active
        ∧ arrest_probability c' = Some 0
        ∧ jail_sentence c' = 0%Z.
Proof.
  intros H Hj Hq Hcops Hg.
  assert (∀ (a : R) (s w : Z) (l : list (Z * Z)) (m1 : Model),
    ∃ c', lookup_citizen
            (try_move uid l
               (set_agents
                  (<[uid := ACitizen
                              (decide_condition (set_estimate a 0 s w c))]>
                     (agents m1)) m1)) uid = Some c'
          ∧ condition c' = Active
          ∧ arrest_probability c' = Some 0
          ∧ jail_sentence c' = 0%Z) as Hkey.
  { intros a s w l m1.
    rewrite (decide_condition_no_risk (set_estimate a 0 s w c))
      by (try exact Hq; try exact Hg; reflexivity).
    destruct (try_move_off_jail uid l _ _
                (lookup_citizen_written uid
                   (set_condition Active (set_estimate a 0 s w c))
                   (agents m1) m1))
      as (c' & Hc' & Hcond & Hjail & _ & Hp & _).
    exists c'. repeat split; try assumption. by rewrite Hjail. }
  revert H. unfold Citizen_step.
  rewrite decide_False by (intros Hne; apply Hne, Hj).
  set (nb := update_neighbors m (pos c) (vision c)) in *. clearbody nb.
  destruct (activation_type m).
  - destruct (prepare_ego m uid) as [ ego | e ]; simpl; [ | discriminate ].
    destruct (update_network_arrest_probability _ _ _ _ _) as [ c1 | e ] eqn:E;
      simpl; [ | discriminate ].
    intros [= <-].
    assert (condition c1 ≠ Active) as Hna.
    { apply update_network_actives in E as (_ & _ & _ & Hc1 & _). congruence. }
    rewrite decide_False by exact Hna.
    revert E. unfold update_network_arrest_probability.
    rewrite count_spatial_eq, !count_ties_eq, Hcops.
    destruct (estimate _ _ _) as [ p | e ] eqn:Ee; simpl; [ | discriminate ].
    intros [= <-]. apply estimate_Ok in Ee as [_ ->].
    rewrite saturation_no_cops. apply Hkey.
  - destruct (update_estimated_arrest_probability _ _ _) as [ c1 | e ] eqn:E;
      simpl; [ | discriminate ].
    apply update_estimated_Ok in E. subst c1.
    rewrite Hcops, saturation_no_cops.
    intros [= <-]. apply Hkey.
Qed.
End Activation.

(** ** A resolution that cannot miss *)

Section Certain.
Local Open Scope R_scope.

Lemma censor_link_certain (e : Z * Z) (m m' : Model) :
  1 <= p_link_censor m →
  Nx.edges (G m) !! Nx.canon e.1 e.2 = Some 0%Z →
  censor_link e m = Ok m' →
  Nx.edges (G m') !! Nx.canon e.1 e.2 = Some (t_censor m).
Proof.
  intros Hp Hk. unfold censor_link, Nx.get_edge. rewrite Hk.
  rewrite decide_True by reflexivity.
  pose proof (random_range (random m)) as Hr.
  destruct (Rng.random (random m)) as [x r]. simpl in Hr.
  destruct (Rlt_dec x (p_link_censor m)); [ | lra ].
  intros [= <-]. simpl. by rewrite lookup_insert_eq.
Qed.

(** with censor probability 1 (or more), every pending edge that stands
    at 0 leaves the resolution at [t_censor] *)
Lemma censor_links_certain (l : list (Z * Z)) (m m' : Model) (e : Z * Z) :
  1 <= p_link_censor m → e ∈ l →
  Nx.edges (G m) !! Nx.canon e.1 e.2 = Some 0%Z
  ∨ Nx.edges (G m) !! Nx.canon e.1 e.2 = Some (t_censor m) →
  censor_links l m = Ok m' →
  Nx.edges (G m') !! Nx.canon e.1 e.2 = Some (t_censor m).
Proof.
  revert m. induction l as [ | e' l IH ]; intros m Hp Hin Hk; simpl.
  - by apply elem_of_nil in Hin.
  - intros H. bind_case H.
    pose proof (censor_link_resolved _ _ _ E) as (_ & _ & Ht & _ & _ & He).
    pose proof (censor_link_frame p_link_censor e' m a
                  ltac:(done) ltac:(done) ltac:(done) E) as Hp'.
    assert (Nx.edges (G a) !! Nx.canon e.1 e.2 = Some (t_censor m)
            ∨ (e ≠ e' ∧ Nx.edges (G a) !! Nx.canon e.1 e.2 = Some 0%Z))
      as Hmid.
    { destruct (decide (e = e')) as [ <- | Hne ].
      - left. destruct Hk as [ Hk | Hk ].
        + by apply (censor_link_certain e m a Hp Hk).
        + destruct (He (Nx.canon e.1 e.2)) as [ -> | [_ ->] ]; done.
      - destruct (He (Nx.canon e.1 e.2)) as [ Hs | [_ Hs] ].
        + rewrite Hs. destruct Hk; [ right | left ]; done.
        + by left. }
    destruct Hmid as [ Hdone | [Hne Hzero] ].
    + pose proof (censor_links_resolved _ _ _ H) as (_ & _ & _ & _ & _ & He2).
      destruct (He2 (Nx.canon e.1 e.2)) as [ -> | [_ ->] ]; congruence.
    + apply elem_of_cons in Hin as [ -> | Hin ]; [ done | ].
      rewrite <- Ht. apply (IH a); try assumption.
      * by rewrite Hp'.
      * by left.
Qed.

Lemma end_step_certain (m m' : Model) (e : Z * Z) :
  1 <= p_link_censor m → e ∈ link_to_censor m →
  Nx.edges (G m) !! Nx.canon e.1 e.2 = Some 0%Z →
  end_step m = Ok m' →
  Nx.edges (G m') !! Nx.canon e.1 e.2 = Some (t_censor m).
Proof.
  intros Hp Hin Hk. unfold end_step. intros H. do 3 (bind_case H).
  match goal with E : censor_links _ _ = Ok _ |- _ =>
    apply (censor_links_certain _ _ _ e) in E as Hc end;
    [ | exact Hp | by apply elem_of_elements | by left ].
  match goal with E : collect _ = Ok _ |- _ =>
    apply collect_Ok in E as [rows ->] end.
  apply update_counts_resolved in H as [(_ & _ & _ & _ & _ & He) _].
  simpl in He, Hc.
  match goal with E : censor_links _ _ = Ok _ |- _ =>
    apply censor_links_resolved in E as (_ & _ & Ht & _) end.
  simpl in Ht.
  destruct (He (Nx.canon e.1 e.2)) as [ -> | [Hz ->] ]; [ exact Hc | ].
  by rewrite Ht.
Qed.
End Certain.

(** ** The concrete models *)

Section ExampleFacts.
Import Examples.

Lemma canonical_add_edge (g : Nx.Graph) (u v d : Z) :
  canonical g → canonical (Nx.add_edge g u v d).
Proof.
  intros Hc k Hk. unfold Nx.add_edge in Hk. simpl in Hk.
  apply elem_of_dom in Hk as [x Hx].
  destruct (decide (Nx.canon u v = k)) as [ <- | Hne ].
  - apply canon_ordered.
  - rewrite lookup_insert_ne in Hx by exact Hne. apply Hc, elem_of_dom. eauto.
Qed.

Lemma canonical_graph_of (ns : list Z) (es : list (Z * Z * Z)) :
  canonical (graph_of ns es).
Proof.
  unfold graph_of. induction es as [ | e es IH ]; simpl.
  - intros k Hk. simpl in Hk. by apply elem_of_dom in Hk as [? ?].
  - by apply canonical_add_edge.
Qed.

Lemma model_of_agent mode k ratio t p ags g jc draws (i : Z) (a : Agent) :
  agents (model_of mode k ratio t p ags g jc draws) !! i = Some a →
  (i, a) ∈ ags.
Proof. simpl. apply elem_of_list_to_map_2. Qed.

Lemma model_of_citizen mode k ratio t p ags g jc draws (i : Z) :
  is_Some (lookup_citizen (model_of mode k ratio t p ags g jc draws) i) →
  ∃ c, (i, ACitizen c) ∈ ags.
Proof.
  unfold lookup_citizen. intros [c Hc].
  destruct (agents _ !! i) as [ [ c0 | ? ] | ] eqn:E; try discriminate.
  exists c0. by apply model_of_agent in E.
Qed.

(** a model made by [model_of], in network mode or not, with a graph
    made by [graph_of] that has an edge and holds every citizen, is
    runnable *)
Lemma model_of_runnable mode k ratio t p ags ns es jc draws :
  (0 <= k)%R → (0 <= ratio)%R →
  Nx.number_of_edges (graph_of ns es) ≠ 0 →
  (∀ i c, (i, ACitizen c) ∈ ags → i ∈ Nx.nodes (graph_of ns es)) →
  runnable (model_of mode k ratio t p ags (graph_of ns es) jc draws).
Proof.
  intros Hk Hw Hne Hnodes. unfold runnable. simpl G.
  split; [ apply canonical_graph_of | ].
  split; [ | split; [ exact Hk
                    | split; [ simpl; lia | split; [ exact Hne | ] ] ] ].
  - intros _. split; [ | exact Hw ].
    intros i Hi. apply model_of_citizen in Hi as [c Hc]. by eapply Hnodes.
  - simpl. set_solver.
Qed.

Lemma two_citizens (i : Z) (c c0 c1 : Citizen) (g : Nx.Graph) :
  (i, ACitizen c) ∈ [(0, ACitizen c0); (1, ACitizen c1)] →
  0 ∈ Nx.nodes g → 1 ∈ Nx.nodes g → i ∈ Nx.nodes g.
Proof.
  intros H H0 H1.
  apply elem_of_cons in H as [ [= -> _] | H ]; [ exact H0 | ].
  apply elem_of_cons in H as [ [= -> _] | H ]; [ exact H1 | ].
  by apply elem_of_nil in H.
Qed.

Lemma runnable_both_quiet : runnable both_quiet.
Proof.
  apply model_of_runnable.
  - lra.
  - lra.
  - vm_compute. discriminate.
  - intros i c H. apply (two_citizens i c _ _ _ H); by vm_compute.
Qed.

Lemma runnable_censoring : runnable censoring.
Proof.
  apply model_of_runnable.
  - lra.
  - lra.
  - vm_compute. discriminate.
  - intros i c H. apply (two_citizens i c _ _ _ H); by vm_compute.
Qed.

Lemma runnable_fresh_arrest : runnable fresh_arrest.
Proof.
  apply model_of_runnable.
  - lra.
  - lra.
  - vm_compute. discriminate.
  - intros i c H. apply (two_citizens i c _ _ _ H); by vm_compute.
Qed.

Lemma step_after (m : Model) : runnable m → step m = Ok (after m).
Proof.
  intros Hr. destruct (step_succeeds m Hr) as [m' H]. unfold after.
  by rewrite H.
Qed.

Lemma schedule_after (m : Model) :
  runnable m → schedule_step (begin_step m) = Ok (after_schedule m).
Proof.
  intros Hr. unfold after_schedule, schedule_step.
  destruct (activation_order (begin_step m)) as [order r].
  destruct (activate_all_succeeds order (set_random r (begin_step m))
              (begin_step_runnable m Hr)) as (m' & -> & _).
  reflexivity.
Qed.
End ExampleFacts.

Section CensoringTick.
Import Examples.

(** the state of [censoring] in which the agents are activated *)
Lemma censoring_schedule :
  schedule_step (begin_step censoring)
  = activate_all [0; 1] (begin_step censoring).
Proof. reflexivity. Qed.

Lemma censoring_marks : (0, 1) ∈ link_to_censor (after_schedule censoring).
Proof.
  pose proof (schedule_after censoring runnable_censoring) as H.
  rewrite censoring_schedule in H.
  rewrite (activate_all_marks _ _ _ H)
    by apply canonical_decay, canonical_graph_of.
  rewrite decide_True by reflexivity.
  apply elem_of_union_r. simpl marked. apply elem_of_union_l.
  replace (active_free_citizen (begin_step censoring) 0) with true
    by (vm_compute; reflexivity).
  apply elem_of_filter. split; [ by left | ].
  apply elem_of_dom. exists 0. vm_compute. reflexivity.
Qed.

Lemma censoring_seen : Nx.edges (seen censoring) !! (0, 1) = Some 0.
Proof. vm_compute. reflexivity. Qed.

(** the two halves of a tick of a runnable model *)
Lemma end_after (m : Model) :
  runnable m → end_step (after_schedule m) = Ok (after m).
Proof.
  intros Hr. pose proof (step_after m Hr) as H. unfold step in H.
  bind_case H. rewrite (schedule_after m Hr) in E. by injection E as <-.
Qed.

Lemma censoring_outcome :
  Nx.edges (G (after censoring)) !! (0, 1) = Some 5.
Proof.
  pose proof (schedule_after censoring runnable_censoring) as Hs.
  pose proof (end_step_certain (after_schedule censoring) (after censoring)
                (0, 1)) as H.
  rewrite (schedule_step_frame p_link_censor ltac:(done) ltac:(done)
             ltac:(done) ltac:(done) _ _ Hs) in H.
  rewrite (schedule_step_frame t_censor ltac:(done) ltac:(done)
             ltac:(done) ltac:(done) _ _ Hs) in H.
  rewrite (schedule_step_G _ _ Hs) in H.
  apply H.
  - change (p_link_censor (begin_step censoring)) with 1%R. lra.
  - apply censoring_marks.
  - apply censoring_seen.
  - apply end_after, runnable_censoring.
Qed.
End CensoringTick.

Section ClaimC3Examples.
Import Examples.

Lemma censored_edge_timeline_witness :
  (Nx.edges (seen censoring) !! Nx.canon 0 1 = Some 0
   ∧ Nx.edges (G (after censoring)) !! Nx.canon 0 1
     = Some (t_censor censoring)
   ∧ ∀ ego, pruned_ego (seen censoring) 0 = Ok ego →
            Nx.edges ego !! Nx.canon 0 1 = Some 0
            ∧ 1 ∈ degree_1_ids ego 0)
  ∧ (∀ (j : nat) (mj : Model),
       (1 ≤ j)%nat → Z.of_nat j < t_censor censoring →
       steps (j - 1) (after censoring) = Ok mj →
       Nx.edges (seen mj) !! Nx.canon 0 1
       = Some (t_censor censoring - Z.of_nat j)
       ∧ ∀ n ego, pruned_ego (seen mj) n = Ok ego →
                  Nx.edges ego !! Nx.canon 0 1 = None)
  ∧ (∀ mT : Model,
       steps (Z.to_nat (t_censor censoring) - 1) (after censoring) = Ok mT →
       Nx.edges (seen mT) !! Nx.canon 0 1 = Some 0
       ∧ ∀ ego, pruned_ego (seen mT) 0 = Ok ego →
                Nx.edges ego !! Nx.canon 0 1 = Some 0
                ∧ 1 ∈ degree_1_ids ego 0).
Proof.
  apply (censored_edge_timeline censoring (after censoring) 0 1).
  - apply canonical_graph_of.
  - simpl. lia.
  - apply step_after, runnable_censoring.
  - change (Nx.canon 0 1) with (0, 1).
    rewrite censoring_outcome, censoring_seen. discriminate.
Defined.

(** C3 as stated fails: in [censoring] the resolution that closes the
    tick sets the countdown of the edge between citizens 0 and 1 to
    [t_censor] = 5, yet the ego network that citizen 0 computes during
    that same tick holds the edge, and citizen 1 is its strong tie. *)
Lemma censored_edge_seen_in_its_own_tick :
  ∃ ego,
    step censoring = Ok (after censoring)
    ∧ Nx.edges (seen censoring) !! (0, 1) = Some 0
    ∧ Nx.edges (G (after censoring)) !! (0, 1) = Some (t_censor censoring)
    ∧ pruned_ego (seen censoring) 0 = Ok ego
    ∧ Nx.edges ego !! (0, 1) = Some 0
    ∧ 1 ∈ degree_1_ids ego 0.
Proof.
  assert (canonical (seen censoring)) as Hc
    by apply canonical_decay, canonical_graph_of.
  assert (0 ∈ Nx.nodes (seen censoring)) as Hn by (by vm_compute).
  eexists. split; [ apply step_after, runnable_censoring | ].
  split; [ apply censoring_seen | ].
  split; [ apply censoring_outcome | ].
  split; [ apply pruned_ego_eq; assumption | ].
  apply (live_edge_included (seen censoring) 0 1 _ 0 Hc censoring_seen
           ltac:(lia)).
  apply pruned_ego_eq; assumption.
Qed.
End ClaimC3Examples.

Section ClaimC4Examples.
Import Examples.

Lemma pending_set_of_tick_witness :
  link_to_censor (after_schedule censoring)
  = link_to_censor censoring
    ∪ marked (activation_order (begin_step censoring)).1
        (set_random (activation_order (begin_step censoring)).2
           (begin_step censoring))
  ∧ (∀ (uid : Z) (ma mb : Model),
       canonical (G ma) → activation_type ma = WithSWN →
       activate uid ma = Ok mb →
       link_to_censor mb
       = link_to_censor ma
         ∪ (if active_free_citizen ma uid then incident_live (G ma) uid
            else ∅))
  ∧ (∀ (uid : Z) (ego : Nx.Graph),
       pruned_ego (seen censoring) uid = Ok ego →
       links_of ego uid = incident_live (seen censoring) uid).
Proof.
  apply (pending_set_of_tick censoring (after_schedule censoring)).
  - apply canonical_graph_of.
  - reflexivity.
  - apply schedule_after, runnable_censoring.
Defined.

Lemma both_quiet_schedule :
  schedule_step (begin_step both_quiet)
  = activate_all [0; 1] (begin_step both_quiet).
Proof. reflexivity. Qed.

(** C4 as stated fails: in [both_quiet] citizen 0 is Quiescent when the
    tick starts and Active, out of jail, when the scheduler has run: it
    turned Active during this tick.  The live edge between 0 and 1 is
    at citizen 0, but the pending set that the scheduler drains is
    empty. *)
Lemma newly_active_citizen_marks_nothing :
  ∃ c0 c0',
    schedule_step (begin_step both_quiet) = Ok (after_schedule both_quiet)
    ∧ lookup_citizen both_quiet 0 = Some c0
    ∧ condition c0 = Quiescent
    ∧ lookup_citizen (after_schedule both_quiet) 0 = Some c0'
    ∧ condition c0' = Active
    ∧ jail_sentence c0' = 0
    ∧ (0, 1) ∈ incident_live (seen both_quiet) 0
    ∧ link_to_censor (after_schedule both_quiet) = ∅.
Proof.
  pose proof (schedule_after both_quiet runnable_both_quiet) as Hs.
  pose proof Hs as H. rewrite both_quiet_schedule in H.
  simpl activate_all in H. bind_case H. bind_case H. injection H as H.
  (* the activation of citizen 0 *)
  assert (agents (begin_step both_quiet) !! 0
          = Some (ACitizen (citizen_at (0, 0) Quiescent 0))) as Hag0
    by (vm_compute; reflexivity).
  pose proof E as E'. unfold activate in E'. rewrite Hag0 in E'.
  destruct (activates_without_cops 0 _ _ _ E') as (c0' & Hc0' & Hact & _ & Hj);
    [reflexivity | reflexivity | by vm_compute | simpl; lra | ].
  (* citizen 1 is still as it was, and its activation leaves 0 alone *)
  assert (agents a !! 1 = agents (begin_step both_quiet) !! 1) as Hag1
    by (by apply (Citizen_step_other 0 1 _ _ _ E')).
  assert (agents a0 !! 0 = agents a !! 0) as Hag0'.
  { unfold activate in E0. rewrite Hag1 in E0.
    replace (agents (begin_step both_quiet) !! 1)
      with (Some (ACitizen (citizen_at (1, 0) Quiescent 0))) in E0
      by (vm_compute; reflexivity).
    by apply (Citizen_step_other 1 0 _ _ _ E0). }
  exists (citizen_at (0, 0) Quiescent 0), c0'.
  split; [ exact Hs | ].
  split; [ vm_compute; reflexivity | ].
  split; [ reflexivity | ].
  split; [ rewrite <- H, <- Hc0'; by apply lookup_citizen_agents | ].
  split; [ exact Hact | ]. split; [ exact Hj | ].
  split.
  { apply elem_of_filter. split; [ by left | ].
    apply elem_of_dom. exists 0. vm_compute. reflexivity. }
  rewrite both_quiet_schedule in Hs.
  rewrite (activate_all_marks _ _ _ Hs)
    by apply canonical_decay, canonical_graph_of.
  rewrite decide_True by reflexivity.
  simpl marked. rewrite E. simpl marked.
  replace (active_free_citizen (begin_step both_quiet) 0) with false
    by (vm_compute; reflexivity).
  assert (active_free_citizen a 1 = false) as ->.
  { unfold active_free_citizen, lookup_citizen. rewrite Hag1.
    vm_compute. reflexivity. }
  rewrite E0. apply set_eq. intros k. vm_compute link_to_censor. set_solver.
Qed.
End ClaimC4Examples.

Section JailExamples.
Import Examples.

Lemma consistent_fresh_arrest : consistent fresh_arrest.
Proof.
  split; [ apply canonical_graph_of | ].
  split; [ vm_compute schedule; repeat constructor; set_solver | ].
  split.
  - intros i [a Ha]. apply model_of_agent in Ha.
    apply elem_of_cons in Ha as [ [= -> _] | Ha ]; [ set_solver | ].
    apply elem_of_cons in Ha as [ [= -> _] | Ha ]; [ set_solver | ].
    by apply elem_of_nil in Ha.
  - intros i c Hc. unfold lookup_citizen in Hc.
    destruct (agents fresh_arrest !! i) as [ [ c0 | ? ] | ] eqn:E;
      try discriminate.
    injection Hc as ->. apply model_of_agent in E.
    apply elem_of_cons in E as [ [= -> ->] | E ];
      [ simpl; split; [ lia | reflexivity ] | ].
    apply elem_of_cons in E as [ [= -> ->] | E ];
      [ simpl; split; [ lia | reflexivity ] | ].
    by apply elem_of_nil in E.
Qed.

End JailExamples.

(** ** The invariant is kept *)

Section Invariant.

Lemma activate_keys (uid i : Z) (m m' : Model) :
  activate uid m = Ok m' →
  is_Some (agents m' !! i) → is_Some (agents m !! i).
Proof.
  unfold activate. intros H Hi.
  destruct (agents m !! uid) as [ [ c | k ] | ] eqn:E.
  - destruct (decide (i = uid)) as [ -> | Hne ]; [ rewrite E; eauto | ].
    by rewrite <- (Citizen_step_other uid i c m m' H Hne).
  - destruct (decide (i = uid)) as [ -> | Hne ]; [ rewrite E; eauto | ].
    destruct (Cop_step_other uid i k m m' H Hne)
      as [ [_ Hs] | (_ & c & _ & Hc & _) ].
    + by rewrite <- Hs.
    + unfold lookup_citizen in Hc.
      destruct (agents m !! i); [ eauto | discriminate ].
  - by injection H as <-.
Qed.

Lemma activate_sentences (uid : Z) (m m' : Model) :
  activate uid m = Ok m' →
  (∀ i c, lookup_citizen m i = Some c →
          0 ≤ jail_sentence c
          ∧ (0 < jail_sentence c → condition c = Quiescent)) →
  ∀ i c, lookup_citizen m' i = Some c →
         0 ≤ jail_sentence c
         ∧ (0 < jail_sentence c → condition c = Quiescent).
Proof.
  intros H Hinv i c' Hc'. pose proof H as Hact. unfold activate in H.
  destruct (agents m !! uid) as [ [ c | k ] | ] eqn:E.
  - destruct (decide (i = uid)) as [ -> | Hne ].
    2:{ apply (Hinv i). rewrite <- Hc'. symmetry.
        apply lookup_citizen_agents. by eapply Citizen_step_other. }
    assert (lookup_citizen m uid = Some c) as Hc
      by (unfold lookup_citizen; by rewrite E).
    destruct (Hinv uid c Hc) as [Hge Hq].
    destruct (decide (jail_sentence c = 0)) as [ Hj | Hj ].
    + destruct (free_citizen_keeps_sentence uid c m m' H E)
        as (c2 & Hc2 & [ Hs | [Hs _] ]); [ | contradiction ].
      rewrite Hc' in Hc2. injection Hc2 as <-. lia.
    + rewrite Citizen_step_jailed in H by exact Hj. injection H as <-.
      rewrite lookup_citizen_written in Hc'. injection Hc' as <-.
      simpl. split; [ lia | ]. intros ?. apply Hq. lia.
  - assert (i ≠ uid) as Hne.
    { intros ->. assert (is_Some (lookup_citizen m uid)) as [? Hx]
        by (eapply activate_citizens; eauto).
      unfold lookup_citizen in Hx. by rewrite E in Hx. }
    destruct (Cop_step_other uid i k m m' H Hne)
      as [ [_ Hs] | (_ & c & s & Hc & Hs & Hag) ].
    + apply (Hinv i). rewrite <- Hc'. symmetry.
      by apply lookup_citizen_agents.
    + unfold lookup_citizen in Hc'. rewrite Hag in Hc'.
      injection Hc' as <-. simpl. split; [ lia | reflexivity ].
  - injection H as <-. by apply (Hinv i).
Qed.

Lemma activate_consistent (uid : Z) (m m' : Model) :
  activate uid m = Ok m' → consistent m → consistent m'.
Proof.
  intros H (Hcan & Hnd & Hkeys & Hjail).
  pose proof (activate_frame G ltac:(done) ltac:(done) ltac:(done)
                ltac:(done) _ _ _ H) as HG.
  pose proof (activate_frame schedule ltac:(done) ltac:(done) ltac:(done)
                ltac:(done) _ _ _ H) as Hs.
  unfold consistent. rewrite HG, Hs.
  split; [ exact Hcan | ]. split; [ exact Hnd | ]. split.
  - intros i Hi. apply Hkeys. by eapply activate_keys.
  - by eapply activate_sentences.
Qed.

Lemma activate_all_consistent (order : list Z) (m m' : Model) :
  activate_all order m = Ok m' → consistent m → consistent m'.
Proof.
  revert m. induction order as [ | uid l IH ]; intros m; simpl.
  - by intros [= <-].
  - intros H Hc. bind_case H. apply (IH a H). by eapply activate_consistent.
Qed.

(** [step] keeps the invariant *)
Lemma step_consistent (m m' : Model) :
  step m = Ok m' → consistent m → consistent m'.
Proof.
  unfold step, schedule_step. intros H Hc.
  destruct (activation_order (begin_step m)) as [order r].
  bind_case H.
  assert (consistent (set_random r (begin_step m))) as Hc0.
  { destruct Hc as (Hcan & Hrest). split; [ | exact Hrest ].
    by apply canonical_decay. }
  pose proof (activate_all_consistent _ _ _ E Hc0)
    as (Hcan & Hnd & Hkeys & Hjail).
  apply end_step_resolved in H as [Hres _].
  pose proof (resolved_canonical _ _ Hres Hcan) as Hcan'.
  destruct Hres as (Hag & Hs & _).
  split; [ exact Hcan' | ]. rewrite Hs. split; [ exact Hnd | ].
  unfold lookup_citizen. rewrite Hag. split; assumption.
Qed.
End Invariant.

(** ** The constructor *)

Section Constructor.
Local Open Scope R_scope.

Lemma collect_raises_iff (m : Model) :
  (∃ e, collect m = Raise e) ↔ number_of_edges m = 0%Z.
Proof.
  split.
  - intros [e He]. destruct (decide (number_of_edges m = 0%Z)) as [ | Hne ];
      [ assumption | ].
    destruct (collect_succeeds m Hne) as [m' Hm']. congruence.
  - intros H. exists ZeroDivisionError. by apply collect_raises.
Qed.

(** the ways out of [__init__] *)
Lemma init_Ok (env : Env) (cfg : Config) (m : Model) :
  init env cfg = Ok m →
  cfg_cop_density cfg + cfg_citizen_density cfg <= 1
  ∧ ∃ g, build_graph env cfg (list_citizen_ids (placement env cfg)) = Ok g
         ∧ Nx.number_of_edges g ≠ 0%Z
         ∧ G m = g
         ∧ activation_type m = cfg_activation_type cfg.
Proof.
  unfold init. intros H.
  apply bind_Ok in H as ([] & E & H). apply density_check_passes in E.
  split; [ exact E | ]. cbv zeta in H.
  apply bind_Ok in H as (g & Eg & H). apply bind_Ok in H as (m0 & Ec & H).
  injection H as <-. exists g. split; [ exact Eg | ].
  apply collect_Ok in Ec as Hrows. destruct Hrows as [rows ->].
  split; [ | split; reflexivity ].
  intros Hz. rewrite collect_raises in Ec by exact Hz. discriminate.
Qed.

Lemma init_succeeds (env : Env) (cfg : Config) (g : Nx.Graph) :
  cfg_cop_density cfg + cfg_citizen_density cfg <= 1 →
  build_graph env cfg (list_citizen_ids (placement env cfg)) = Ok g →
  Nx.number_of_edges g ≠ 0%Z →
  succeeds (init env cfg).
Proof.
  intros Hd Hg Hne. unfold init.
  apply density_check_passes in Hd. rewrite Hd. simpl. rewrite Hg. simpl.
  destruct (collect_succeeds (assemble env cfg (placement env cfg) g) Hne)
    as [m Hm].
  rewrite Hm. simpl. apply succeeds_Ok.
Qed.

(** a graph without an edge stops the constructor at its first
    [collect] *)
Lemma init_no_edge (env : Env) (cfg : Config) (g : Nx.Graph) :
  cfg_cop_density cfg + cfg_citizen_density cfg <= 1 →
  build_graph env cfg (list_citizen_ids (placement env cfg)) = Ok g →
  Nx.number_of_edges g = 0%Z →
  init env cfg = Raise ZeroDivisionError.
Proof.
  intros Hd Hg Hz. unfold init.
  apply density_check_passes in Hd. rewrite Hd. simpl. rewrite Hg. simpl.
  rewrite collect_raises by exact Hz. reflexivity.
Qed.

(** the generator's own error leaves the constructor as it is *)
Lemma init_generator_error (env : Env) (cfg : Config) (e : exn) :
  cfg_cop_density cfg + cfg_citizen_density cfg <= 1 →
  watts_strogatz_graph env
    (Z.of_nat (length (list_citizen_ids (placement env cfg))))
    (cfg_lattice_neighbor cfg) (cfg_rewire_prob cfg) = Raise e →
  init env cfg = Raise e.
Proof.
  intros Hd Hg. unfold init.
  apply density_check_passes in Hd. rewrite Hd. simpl.
  unfold build_graph. rewrite Hg. reflexivity.
Qed.

(** one cell of the placement loop, when the first draw is not below
    the cop density and the second is below the sum: a citizen *)
Lemma place_citizen (cfg : Config) (s : Placement) (xy : Z * Z) :
  let g1 := (Rng.random (placed_random s)).2 in
  let g2 := (Rng.random g1).2 in
  let g3 := (Rng.random g2).2 in
  ¬ (Rng.random (placed_random s)).1 < cfg_cop_density cfg →
  (Rng.random g1).1 < cfg_cop_density cfg + cfg_citizen_density cfg →
  place cfg s xy
  = {| unique_id := (unique_id s + 1)%Z;
       list_citizen_ids := list_citizen_ids s ++ [unique_id s];
       placed_agents :=
         <[unique_id s :=
             ACitizen (new_Citizen xy (Rng.random g2).1 (cfg_legitimacy cfg)
                         (Rng.random g3).1 (cfg_active_threshold cfg)
                         (cfg_citizen_vision cfg))]> (placed_agents s);
       placed_cells := <[xy := unique_id s]> (placed_cells s);
       placed_schedule := placed_schedule s ++ [unique_id s];
       placed_random := (Rng.random g3).2 |}.
Proof.
  intros g1 g2 g3 H1 H2. unfold place.
  subst g1 g2 g3.
  destruct (Rng.random (placed_random s)) as [r1 g1]. cbn [fst snd] in *.
  destruct (Rlt_dec r1 (cfg_cop_density cfg)); [ contradiction | ].
  destruct (Rng.random g1) as [r2 g2]. cbn [fst snd] in *.
  destruct (Rlt_dec r2 _); [ | contradiction ].
  destruct (Rng.random g2) as [h g3]. cbn [fst snd].
  destruct (Rng.random g3) as [ra g4]. reflexivity.
Qed.

(** with no cops wanted and citizen density 1, every cell gets a
    citizen *)
Lemma place_full (cfg : Config) (s : Placement) (xy : Z * Z) :
  cfg_cop_density cfg = 0 → cfg_citizen_density cfg = 1 →
  list_citizen_ids (place cfg s xy) = list_citizen_ids s ++ [unique_id s]
  ∧ unique_id (place cfg s xy) = (unique_id s + 1)%Z.
Proof.
  intros Hc Hd. rewrite place_citizen.
  - split; reflexivity.
  - rewrite Hc. pose proof (random_range (placed_random s)). lra.
  - rewrite Hc, Hd.
    pose proof (random_range (Rng.random (placed_random s)).2). lra.
Qed.

Lemma placement_full_ids (cfg : Config) (cells : list (Z * Z)) (s : Placement) :
  cfg_cop_density cfg = 0 → cfg_citizen_density cfg = 1 →
  length (list_citizen_ids (fold_left (place cfg) cells s))
  = (length (list_citizen_ids s) + length cells)%nat.
Proof.
  intros Hc Hd. revert s. induction cells as [ | xy l IH ]; intros s; simpl.
  - lia.
  - rewrite IH. destruct (place_full cfg s xy Hc Hd) as [-> _].
    rewrite length_app. simpl. lia.
Qed.
End Constructor.

(** ** The reported mean jail term *)

Section JailTermReports.
Local Open Scope R_scope.

(** the row that [collect] appends *)
Lemma collect_row (m m' : Model) :
  collect m = Ok m' →
  ∃ row, m' = set_datacollector (datacollector m ++ [row]) m
         ∧ row_Jailed row = count_jailed m
         ∧ row_Average_Jailing_Term row
           = (if decide (jail_count m = 0%Z) then 0
              else IZR (jail_total m) / IZR (jail_count m)).
Proof.
  unfold collect. intros H. rewrite get_average_jail_term_total in H.
  do 4 (bind_case H). injection E as <-. injection H as <-.
  eexists. split; [ reflexivity | ]. split; reflexivity.
Qed.

(** the attributes that the close of the tick assigns from the agents *)
Lemma update_counts_average (m m' : Model) :
  update_counts m = Ok m' →
  jail_count m' = count_jailed m
  ∧ average_jail_term m'
    = (if decide (count_jailed m = 0%Z) then 0
       else IZR (jail_total m) / IZR (count_jailed m)).
Proof.
  unfold update_counts. intros H. cbv zeta in H.
  set (m8 := set_jail_count _ _) in H.
  assert (jail_count m8 = count_jailed m) as Hjc by reflexivity.
  assert (jail_total m8 = jail_total m) as Hjt by reflexivity.
  clearbody m8.
  rewrite get_average_jail_term_total, Hjc, Hjt in H.
  bind_case H. injection E as <-. bind_case H. bind_case H.
  injection H as <-.
  destruct (decide (count_jailed m = 0%Z)); destruct (decide (_ < _)%Z);
    cbn [jail_count average_jail_term set_running set_iteration
         set_weak_ties_receival set_strong_ties_receival
         set_average_jail_term];
    (split; [ exact Hjc | reflexivity ]).
Qed.

(** what a tick reports about jail terms: the row that [collect]
    appends divides by the attribute [jail_count] as the previous tick
    left it; the attribute [average_jail_term], set after [jail_count]
    is refreshed, divides by the number of citizens in jail now *)
Lemma jail_term_reports (m m' : Model) :
  end_step m = Ok m' →
  ∃ row, last (datacollector m') = Some row
         ∧ row_Jailed row = count_jailed m
         ∧ row_Average_Jailing_Term row
           = (if decide (jail_count m = 0%Z) then 0
              else IZR (jail_total m) / IZR (jail_count m))
         ∧ average_jail_term m'
           = (if decide (count_jailed m = 0%Z) then 0
              else IZR (jail_total m) / IZR (count_jailed m)).
Proof.
  unfold end_step. intros H. do 3 (bind_case H).
  pose proof (censor_links_resolved _ _ _ E0) as (Hag & Hs & _).
  pose proof (censor_links_frame jail_count _ _ _
                ltac:(done) ltac:(done) ltac:(done) E0) as Hjc.
  cbn [agents schedule jail_count set_activated_link_ratio set_active_links]
    in Hag, Hs, Hjc.
  assert (∀ x : Model, agents x = agents m → schedule x = schedule m →
            count_jailed x = count_jailed m ∧ jail_total x = jail_total m)
    as Hsame.
  { intros x Ha Hsc. unfold count_jailed, jail_total, schedule_agents.
    by rewrite Ha, Hsc. }
  apply collect_row in E1 as (row & -> & Hrj & Hra).
  destruct (Hsame (set_link_to_censor ∅ a0) Hag Hs) as [Hcj Hjt].
  rewrite Hcj in Hrj.
  change (jail_count (set_link_to_censor ∅ a0)) with (jail_count a0) in Hra.
  rewrite Hjt, Hjc in Hra.
  pose proof (update_counts_frame datacollector _ _ ltac:(done) ltac:(done)
                ltac:(done) ltac:(done) ltac:(done) ltac:(done) ltac:(done)
                ltac:(done) H) as Hd.
  apply update_counts_average in H as [_ Hav].
  exists row. split; [ rewrite Hd; apply last_snoc | ].
  split; [ exact Hrj | ]. split; [ exact Hra | ].
  rewrite Hav.
  destruct (Hsame (set_datacollector
                     (datacollector (set_link_to_censor ∅ a0) ++ [row])
                     (set_link_to_censor ∅ a0)) Hag Hs) as [-> ->].
  reflexivity.
Qed.
End JailTermReports.

Section ClaimC7.
Import Examples.
Local Open Scope R_scope.

Lemma runnable_patrol : runnable patrol.
Proof.
  apply model_of_runnable.
  - lra.
  - lra.
  - vm_compute. discriminate.
  - intros i c Hi.
    apply elem_of_cons in Hi as [ [=] | Hi ].
    apply elem_of_cons in Hi as [ [= -> _] | Hi ]; [ set_solver | ].
    apply elem_of_cons in Hi as [ [= -> _] | Hi ]; [ set_solver | ].
    by apply elem_of_nil in Hi.
Qed.

(** C7, at the failing input.  In [patrol] one citizen is in jail when
    the tick starts, and [jail_count] says so.  During the tick the cop
    arrests the Active citizen; when the tick collects its row, two
    citizens are in jail, with 6 and 4 ticks left.  The row reports
    "Average Jailing Term" (6 + 4) / 1, the sum over the old count,
    where the mean is (6 + 4) / 2; the attribute [average_jail_term],
    set later in the same tick, holds the mean. *)
Theorem collected_jail_term_uses_old_count :
  ∃ row,
    step patrol = Ok (after patrol)
    ∧ jail_count patrol = count_jailed patrol
    ∧ last (datacollector (after patrol)) = Some row
    ∧ row_Jailed row = 2%Z
    ∧ jail_total (after_schedule patrol) = 10%Z
    ∧ row_Average_Jailing_Term row = 10 / 1
    ∧ average_jail_term (after patrol) = 10 / 2.
Proof.
  pose proof (end_after patrol runnable_patrol) as H.
  apply jail_term_reports in H as (row & Hl & Hj & Ha & Hav).
  pose proof (schedule_after patrol runnable_patrol) as Hs.
  assert (count_jailed (after_schedule patrol) = 2%Z) as Hcj
    by (vm_compute; reflexivity).
  assert (jail_total (after_schedule patrol) = 10%Z) as Hjt
    by (vm_compute; reflexivity).
  rewrite (schedule_step_frame jail_count ltac:(done) ltac:(done)
             ltac:(done) ltac:(done) _ _ Hs) in Ha.
  change (jail_count (begin_step patrol)) with 1%Z in Ha.
  rewrite Hcj in Hj, Hav. rewrite Hjt in Ha, Hav.
  rewrite decide_False in Ha by lia. rewrite decide_False in Hav by lia.
  exists row. split; [ apply step_after, runnable_patrol | ].
  split; [ vm_compute; reflexivity | ].
  repeat split; assumption.
Qed.
End ClaimC7.

(** ** A network without an edge *)

Section ClaimC8.
Import Examples.
Local Open Scope R_scope.

Lemma step_no_edge (m : Model) :
  number_of_edges m = 0%Z → ∃ e, step m = Raise e.
Proof.
  intros Hz. unfold step.
  destruct (schedule_step (begin_step m)) as [ m1 | e ] eqn:E;
    [ | by exists e ].
  pose proof (schedule_step_frame number_of_edges ltac:(done) ltac:(done)
                ltac:(done) ltac:(done) _ _ E) as Hn.
  change (number_of_edges (begin_step m)) with (number_of_edges m) in Hn.
  exists ZeroDivisionError. cbn [mbind result_bind]. unfold end_step.
  rewrite get_active_link_ratio_raises; [ reflexivity | ].
  cbn [number_of_edges set_active_links]. by rewrite Hn.
Qed.

(** C8.  The two means over agents are total, but the pending-edge
    ratio is not: on a model whose network has no edge,
    [get_active_link_ratio] raises [ZeroDivisionError]; so does
    [collect], which calls it, and a tick does not end. *)
Theorem link_ratio_raises_on_edgeless_network (m : Model) :
  number_of_edges m = 0%Z →
  get_active_link_ratio m = Raise ZeroDivisionError
  ∧ collect m = Raise ZeroDivisionError
  ∧ (∃ e, step m = Raise e)
  ∧ succeeds (get_average_jail_term m)
  ∧ succeeds (get_average_strong_ties_receival m)
  ∧ succeeds (get_average_weak_ties_receival m).
Proof.
  intros Hz.
  split; [ by apply get_active_link_ratio_raises | ].
  split; [ by apply collect_raises | ].
  split; [ by apply step_no_edge | ].
  split; [ rewrite get_average_jail_term_total; apply succeeds_Ok | ].
  split.
  - destruct (average_receival_total strong_ties_received m) as (x & Hx & _).
    by exists x.
  - destruct (average_receival_total weak_ties_received m) as (x & Hx & _).
    by exists x.
Qed.

Lemma link_ratio_raises_on_edgeless_network_witness :
  number_of_edges lonely_active = 0%Z
  ∧ get_active_link_ratio lonely_active = Raise ZeroDivisionError
  ∧ collect lonely_active = Raise ZeroDivisionError
  ∧ (∃ e, step lonely_active = Raise e)
  ∧ succeeds (get_average_jail_term lonely_active)
  ∧ succeeds (get_average_strong_ties_receival lonely_active)
  ∧ succeeds (get_average_weak_ties_receival lonely_active).
Proof.
  split; [ reflexivity | ].
  apply (link_ratio_raises_on_edgeless_network lonely_active).
  reflexivity.
Defined.
End ClaimC8.

(** ** Construction and the generator *)

Section Generator.
Import Examples.
Local Open Scope R_scope.

Lemma relabel_nodes_no_edge (ns : list Z) (mapping : gmap Z Z) :
  Nx.number_of_edges (Nx.relabel_nodes ns [] mapping) = 0%Z.
Proof. reflexivity. Qed.

(** the placement loop does not read the activation mode *)
Lemma placement_mode (env : Env) (mode : ActivationType) (cfg : Config) :
  placement env (with_activation_type mode cfg) = placement env cfg.
Proof. reflexivity. Qed.

Lemma build_graph_mode (env : Env) (mode : ActivationType) (cfg : Config)
    (ids : list Z) :
  build_graph env (with_activation_type mode cfg) ids
  = build_graph env cfg ids.
Proof. reflexivity. Qed.

(** with no cops wanted and citizen density 1, the citizens get the
    ids 0, 1, 2, ... in the order of the cells *)
Lemma placement_full_list (cfg : Config) (cells : list (Z * Z))
    (s : Placement) :
  cfg_cop_density cfg = 0 → cfg_citizen_density cfg = 1 →
  list_citizen_ids (fold_left (place cfg) cells s)
  = list_citizen_ids s ++ seqZ (unique_id s) (Z.of_nat (length cells)).
Proof.
  intros Hc Hd. revert s. induction cells as [ | xy l IH ]; intros s.
  - simpl. by rewrite app_nil_r.
  - cbn [fold_left]. rewrite IH.
    destruct (place_full cfg s xy Hc Hd) as [-> ->].
    rewrite <- app_assoc. f_equal.
    cbn [length]. rewrite Nat2Z.inj_succ.
    rewrite (seqZ_cons (unique_id s)) by lia. cbn [app]. f_equal.
    f_equal; lia.
Qed.

Lemma ring_lattice_one (k : Z) (p : R) (ns : list Z) (es : list (Z * Z)) :
  ring_lattice 1 k p = Ok (ns, es) → es = [].
Proof.
  unfold ring_lattice. destruct (decide (1 < k)%Z) as [ | Hk ];
    [ discriminate | ].
  destruct (decide (k = 1%Z)) as [ -> | Hk1 ].
  { by intros [= <- <-]. }
  cbv zeta. intros [= _ <-].
  assert (k / 2 ≤ 0)%Z as Hle by (apply Z.div_le_upper_bound; lia).
  unfold seqZ at 1. replace (Z.to_nat (k / 2)) with 0%nat by lia.
  reflexivity.
Qed.

(** the example generator keeps the contract of the library's *)
Lemma ring_lattice_contract : small_world_generator ring_lattice.
Proof.
  split.
  - intros n k p H. unfold ring_lattice. by rewrite decide_True.
  - intros n k p ns es. unfold ring_lattice.
    destruct (decide (n < k)%Z); [ discriminate | ].
    destruct (decide (k = n)) as [ -> | Hkn ].
    + intros [= <- <-] _. split; [ reflexivity | ].
      intros u v Huv.
      apply list_elem_of_bind in Huv as (i & Huv & Hi).
      apply list_elem_of_bind in Huv as (j & Huv & Hj).
      apply list_elem_of_singleton in Huv as [= -> ->].
      apply elem_of_seqZ in Hi, Hj. lia.
    + cbv zeta. intros [= <- <-] Hne.
      split; [ by rewrite decide_False | ].
      intros u v Huv.
      apply list_elem_of_bind in Huv as (j & Huv & Hj).
      apply list_elem_of_bind in Huv as (i & Huv & Hi).
      apply list_elem_of_singleton in Huv as [= -> ->].
      apply elem_of_seqZ in Hi.
      split; [ lia | apply Z.mod_pos_bound; lia ].
Qed.

(** too few citizens for the lattice degree: the generator's error is
    the constructor's *)
Lemma init_too_few_citizens (env : Env) (cfg : Config) :
  small_world_generator (watts_strogatz_graph env) →
  cfg_cop_density cfg + cfg_citizen_density cfg <= 1 →
  (Z.of_nat (length (list_citizen_ids (placement env cfg)))
   < cfg_lattice_neighbor cfg)%Z →
  init env cfg = Raise NetworkXError.
Proof.
  intros [Hgen _] Hd Hlt.
  apply init_generator_error; [ exact Hd | ]. by apply Hgen.
Qed.
End Generator.

Section ClaimC9.
Import Examples.
Local Open Scope R_scope.

(** C9.  No configuration that places exactly one citizen is ever
    constructed, whatever the other parameters: a simple graph on one
    node has no edge, so either the densities are refused, or the
    generator refuses the lattice degree, or the first [collect] of
    the constructor divides by the number of edges, zero. *)
Theorem single_citizen_is_never_constructed (env : Env) (cfg : Config) :
  length (list_citizen_ids (placement env cfg)) = 1%nat →
  (∀ k p ns es, watts_strogatz_graph env 1 k p = Ok (ns, es) → es = []) →
  init env cfg = Raise ValueError
  ∨ (∃ e, watts_strogatz_graph env 1 (cfg_lattice_neighbor cfg)
            (cfg_rewire_prob cfg) = Raise e
          ∧ init env cfg = Raise e)
  ∨ init env cfg = Raise ZeroDivisionError.
Proof.
  intros Hone Hgen.
  destruct (Rgt_dec (cfg_cop_density cfg + cfg_citizen_density cfg) 1)
    as [ Hd | Hd ].
  { left. by apply init_density_error. }
  right. apply Rnot_gt_le in Hd.
  destruct (watts_strogatz_graph env 1 (cfg_lattice_neighbor cfg)
              (cfg_rewire_prob cfg)) as [ [ns es] | e ] eqn:Ew.
  - right. pose proof (Hgen _ _ _ _ Ew) as ->.
    apply (init_no_edge env cfg (Nx.relabel_nodes ns []
             (list_to_map (reverse (zip ns
                (list_citizen_ids (placement env cfg))))))).
    + exact Hd.
    + unfold build_graph. rewrite Hone.
      change (Z.of_nat 1) with 1%Z. by rewrite Ew.
    + apply relabel_nodes_no_edge.
  - left. exists e. split; [ reflexivity | ].
    apply init_generator_error; [ exact Hd | ].
    rewrite Hone. exact Ew.
Qed.

Lemma single_citizen_is_never_constructed_witness :
  length (list_citizen_ids (placement ring_env (row_config 1 1 0 WithoutSWN)))
  = 1%nat
  ∧ (init ring_env (row_config 1 1 0 WithoutSWN) = Raise ValueError
     ∨ (∃ e, ring_lattice 1 0 0 = Raise e
             ∧ init ring_env (row_config 1 1 0 WithoutSWN) = Raise e)
     ∨ init ring_env (row_config 1 1 0 WithoutSWN) = Raise ZeroDivisionError).
Proof.
  assert (length (list_citizen_ids
                    (placement ring_env (row_config 1 1 0 WithoutSWN)))
          = 1%nat) as Hone.
  { unfold placement.
    rewrite (placement_full_ids (row_config 1 1 0 WithoutSWN));
      reflexivity. }
  split; [ exact Hone | ].
  apply (single_citizen_is_never_constructed ring_env
           (row_config 1 1 0 WithoutSWN) Hone).
  intros k p ns es. apply ring_lattice_one.
Defined.
End ClaimC9.

(** ** A citizen in jail *)

Section ClaimC6.
Import Examples.






End ClaimC6.

Section ClaimC6Examples.
Import Examples.





End ClaimC6Examples.

(** * Further properties of the model *)

(** ** How one activation changes the agents and the grid *)

Section Evolution.

(** the network estimator writes the four attributes of the estimate and
    nothing else *)
Lemma update_network_shape (m : Model) (self : Citizen) (nb : list Z)
    (d1 d2 : list Citizen) (self1 : Citizen) :
  update_network_arrest_probability m self nb d1 d2 = Ok self1 →
  ∃ a p s w, self1 = set_estimate a p s w self.
Proof.
  unfold update_network_arrest_probability. cbv zeta.
  destruct (count_ties _ d1 _) as [a2 strong].
  destruct (count_ties _ d2 _) as [a3 weak].
  intros H. bind_case H. injection H as <-. eauto.
Qed.

Lemma update_estimated_shape (m : Model) (self : Citizen) (nb : list Z)
    (self1 : Citizen) :
  update_estimated_arrest_probability m self nb = Ok self1 →
  ∃ a p s w, self1 = set_estimate a p s w self.
Proof. intros H. apply update_estimated_Ok in H. eauto. Qed.

(** [Citizen.step]: the citizen's record is rewritten, then the citizen
    may move *)
Lemma Citizen_step_shape (uid : Z) (c : Citizen) (m m' : Model) :
  Citizen_step uid c m = Ok m' →
  ∃ c2 mid,
    agents mid = <[uid := ACitizen c2]> (agents m)
    ∧ grid mid = grid m
    ∧ movement mid = movement m
    ∧ ((jail_sentence c ≠ 0
        ∧ c2 = set_jail_sentence (jail_sentence c - 1) c
        ∧ m' = mid)
       ∨ (jail_sentence c = 0
          ∧ (∃ a p s w, c2 = decide_condition (set_estimate a p s w c))
          ∧ m' = try_move uid (update_neighbors m (pos c) (vision c)).2 mid)).
Proof.
  unfold Citizen_step. intros H.
  destruct (decide (jail_sentence c ≠ 0)) as [ Hj | Hj ].
  { injection H as <-.
    exists (set_jail_sentence (jail_sentence c - 1) c),
      (set_agents
         (<[uid := ACitizen (set_jail_sentence (jail_sentence c - 1) c)]>
            (agents m)) m).
    split; [ reflexivity | ]. split; [ reflexivity | ].
    split; [ reflexivity | ]. left. by repeat split. }
  assert (jail_sentence c = 0) as Hz by lia.
  destruct (activation_type m).
  - bind_case H. bind_case H. injection H as <-.
    apply update_network_shape in E0 as (x & p & s & w & ->).
    eexists _, _. split; [ | split; [ | split ] ].
    4:{ right. split; [ exact Hz | ].
        split; [ by exists x, p, s, w | reflexivity ]. }
    + cbn [agents set_agents]. destruct (decide _); reflexivity.
    + cbn [grid set_agents]. destruct (decide _); reflexivity.
    + cbn [movement set_agents]. destruct (decide _); reflexivity.
  - bind_case H. injection H as <-.
    apply update_estimated_shape in E as (x & p & s & w & ->).
    eexists _, _. split; [ | split; [ | split ] ].
    4:{ right. split; [ exact Hz | ].
        split; [ by exists x, p, s, w | reflexivity ]. }
    all: reflexivity.
Qed.

(** [Cop.step]: at most one arrest, then the cop may move *)
Lemma Cop_step_shape (uid : Z) (k : Cop) (m m' : Model) :
  Cop_step uid k m = Ok m' →
  ∃ mid,
    m' = try_move uid (update_neighbors m (cop_pos k) (cop_vision k)).2 mid
    ∧ grid mid = grid m
    ∧ movement mid = movement m
    ∧ ((arrestee_of m k = None ∧ mid = m)
       ∨ ∃ a c s,
           arrestee_of m k = Some a
           ∧ lookup_citizen m a = Some c
           ∧ active_free c = true
           ∧ 0 ≤ s ≤ max_jail_term m
           ∧ agents mid
             = <[a := ACitizen (set_condition Quiescent
                                  (set_jail_sentence s c))]> (agents m)).
Proof.
  unfold Cop_step. intros H.
  destruct (arrestee_of m k) as [ a | ] eqn:Ea.
  2:{ simpl in H. injection H as <-. exists m.
      split; [ reflexivity | ]. split; [ reflexivity | ].
      split; [ reflexivity | ]. by left. }
  unfold Rng.randint in H.
  destruct (decide (max_jail_term m < 0)); [ simpl in H; discriminate | ].
  destruct (Rng.randbelow _ _) as [j r2] eqn:Er. simpl in H.
  injection H as <-.
  pose proof (arrestee_active _ _ _ Ea) as Hact.
  unfold active_free_citizen in Hact.
  destruct (lookup_citizen m a) as [ c | ] eqn:Ec; [ | discriminate ].
  pose proof (randbelow_range (max_jail_term m - 0 + 1)
                (Rng.choice (active_neighbors m k) (random m)).2
                ltac:(lia)) as Hr.
  rewrite Er in Hr. cbn [fst] in Hr.
  eexists. split; [ reflexivity | ].
  split; [ by rewrite arrest_frame | ].
  split; [ by rewrite arrest_frame | ].
  right. exists a, c, (0 + j). split; [ reflexivity | ].
  split; [ exact Ec | ]. split; [ exact Hact | ]. split; [ lia | ].
  unfold arrest.
  change (lookup_citizen (set_random r2 m) a) with (lookup_citizen m a).
  rewrite Ec. reflexivity.
Qed.

(** a move, if there is one, takes the agent to one of the offered
    cells, and rewrites its [pos], its old cell and its new cell *)
Lemma try_move_shape (uid : Z) (l : list (Z * Z)) (m : Model) :
  (agents (try_move uid l m) = agents m ∧ grid (try_move uid l m) = grid m)
  ∨ ∃ q a,
      movement m = true ∧ q ∈ l ∧ agents m !! uid = Some a
      ∧ agents (try_move uid l m) = <[uid := set_agent_pos q a]> (agents m)
      ∧ grid (try_move uid l m)
        = set_cells (<[q := uid]> (delete (agent_pos a) (cells (grid m))))
            (grid m).
Proof.
  unfold try_move. destruct (movement m); [ | by left ].
  destruct l as [ | q0 l ]; [ by left | ].
  destruct (choice_is_Some (q0 :: l) (random m) ltac:(done)) as (q & Hq & Hin).
  destruct (Rng.choice (q0 :: l) (random m)) as [ o r ]. cbn [fst] in Hq.
  subst o. unfold move_agent.
  change (agents (set_random r m)) with (agents m).
  destruct (agents m !! uid) as [ a | ] eqn:E.
  - right. exists q, a. repeat split; try reflexivity. exact Hin.
  - left. split; reflexivity.
Qed.
End Evolution.

(** ** What no activation changes *)

Section AgentProjection.
Context {B : Type} (g : Agent → B).
Hypothesis g_pos : ∀ q a, g (set_agent_pos q a) = g a.
Hypothesis g_estimate :
  ∀ a p s w c, g (ACitizen (set_estimate a p s w c)) = g (ACitizen c).
Hypothesis g_condition :
  ∀ k c, g (ACitizen (set_condition k c)) = g (ACitizen c).
Hypothesis g_jail :
  ∀ j c, g (ACitizen (set_jail_sentence j c)) = g (ACitizen c).

Lemma decide_condition_projection (c : Citizen) :
  g (ACitizen (decide_condition c)) = g (ACitizen c).
Proof.
  unfold decide_condition.
  destruct (condition c); [ | reflexivity ].
  destruct (arrest_probability c); [ | reflexivity ].
  destruct (Rgt_dec _ _); [ apply g_condition | reflexivity ].
Qed.

Lemma insert_projection (A : gmap Z Agent) (uid i : Z) (a a' : Agent) :
  A !! uid = Some a → g a' = g a →
  g <$> <[uid := a']> A !! i = g <$> A !! i.
Proof.
  intros Ha Hg. destruct (decide (i = uid)) as [ -> | Hne ].
  - rewrite lookup_insert_eq, Ha. simpl. by rewrite Hg.
  - by rewrite lookup_insert_ne.
Qed.

Lemma try_move_projection (uid i : Z) (l : list (Z * Z)) (m : Model) :
  g <$> agents (try_move uid l m) !! i = g <$> agents m !! i.
Proof.
  destruct (try_move_shape uid l m)
    as [ [-> _] | (q & a & _ & _ & Ha & -> & _) ]; [ reflexivity | ].
  eapply insert_projection; [ exact Ha | apply g_pos ].
Qed.

Lemma activate_projection (uid i : Z) (m m' : Model) :
  activate uid m = Ok m' → g <$> agents m' !! i = g <$> agents m !! i.
Proof.
  unfold activate. intros H.
  destruct (agents m !! uid) as [ [ c | k ] | ] eqn:E.
  - apply Citizen_step_shape in H
      as (c2 & mid & Hag & _ & _
          & [ (_ & -> & ->) | (_ & (x & p & s & w & ->) & ->) ]).
    + rewrite Hag. eapply insert_projection; [ exact E | apply g_jail ].
    + rewrite try_move_projection, Hag.
      eapply insert_projection; [ exact E | ].
      by rewrite decide_condition_projection.
  - apply Cop_step_shape in H
      as (mid & -> & _ & _
          & [ [_ ->] | (a & c & s & _ & Hc & _ & _ & Hag) ]);
      rewrite try_move_projection; [ reflexivity | ].
    rewrite Hag. unfold lookup_citizen in Hc.
    destruct (agents m !! a) as [ [ c0 | ? ] | ] eqn:Ea; try discriminate.
    injection Hc as ->.
    eapply insert_projection; [ exact Ea | ].
    by rewrite g_condition, g_jail.
  - by injection H as <-.
Qed.

Lemma activate_all_projection (order : list Z) (i : Z) (m m' : Model) :
  activate_all order m = Ok m' → g <$> agents m' !! i = g <$> agents m !! i.
Proof.
  revert m. induction order as [ | uid l IH ]; intros m; simpl.
  - by intros [= <-].
  - intros H. bind_case H. rewrite (IH _ H). by eapply activate_projection.
Qed.

Lemma step_projection (i : Z) (m m' : Model) :
  step m = Ok m' → g <$> agents m' !! i = g <$> agents m !! i.
Proof.
  unfold step, schedule_step. intros H.
  destruct (activation_order (begin_step m)) as [order r].
  bind_case H. apply end_step_resolved in H as [ [-> _] _ ].
  by rewrite (activate_all_projection _ _ _ _ E).
Qed.

Lemma steps_projection (n : nat) (i : Z) (m m' : Model) :
  steps n m = Ok m' → g <$> agents m' !! i = g <$> agents m !! i.
Proof.
  revert m. induction n as [ | n IH ]; intros m; simpl.
  - by intros [= <-].
  - intros H. bind_case H. rewrite (IH _ H). by apply step_projection.
Qed.

Lemma schedule_agents_projection (m m' : Model) :
  schedule m' = schedule m →
  (∀ i, g <$> agents m' !! i = g <$> agents m !! i) →
  g <$> schedule_agents m' = g <$> schedule_agents m.
Proof.
  intros Hs Hg. unfold schedule_agents. rewrite Hs. clear Hs.
  induction (schedule m) as [ | i l IH ]; [ reflexivity | ].
  cbn [omap list_omap]. specialize (Hg i).
  destruct (agents m' !! i), (agents m !! i); simpl in Hg;
    try discriminate; [ | exact IH ].
  injection Hg as Hg. cbn [fmap list_fmap]. f_equal; [ exact Hg | exact IH ].
Qed.
End AgentProjection.

Section Schedule.

Lemma step_schedule (m m' : Model) : step m = Ok m' → schedule m' = schedule m.
Proof.
  unfold step. intros H. bind_case H.
  apply end_step_resolved in H as [ (_ & -> & _) _ ].
  by rewrite (schedule_step_frame schedule ltac:(done) ltac:(done)
                ltac:(done) ltac:(done) _ _ E).
Qed.

Lemma steps_schedule (n : nat) (m m' : Model) :
  steps n m = Ok m' → schedule m' = schedule m.
Proof.
  revert m. induction n as [ | n IH ]; intros m; simpl.
  - by intros [= <-].
  - intros H. bind_case H. rewrite (IH _ H). by apply step_schedule.
Qed.

Lemma count_cops_breed (l l' : list Agent) (z : Z) :
  is_cop <$> l = is_cop <$> l' →
  fold_left (λ count a, if is_cop a then count + 1 else count) l z
  = fold_left (λ count a, if is_cop a then count + 1 else count) l' z.
Proof.
  revert l' z. induction l as [ | a l IH ]; intros [ | a' l' ] z H;
    try discriminate; [ reflexivity | ].
  injection H as Ha Hl. simpl. rewrite Ha. by apply IH.
Qed.

Lemma count_citizens_breed (l l' : list Agent) (z : Z) :
  is_cop <$> l = is_cop <$> l' →
  fold_left (λ count a, if is_cop a then count else count + 1) l z
  = fold_left (λ count a, if is_cop a then count else count + 1) l' z.
Proof.
  revert l' z. induction l as [ | a l IH ]; intros [ | a' l' ] z H;
    try discriminate; [ reflexivity | ].
  injection H as Ha Hl. simpl. rewrite Ha. by apply IH.
Qed.
End Schedule.

(** ** What a tick leaves alone *)

Section TickConstant.
Context {A : Type} (f : Model → A).
Hypothesis Hf : tick_constant f.

Lemma end_step_constant (m m' : Model) : end_step m = Ok m' → f m' = f m.
Proof.
  destruct Hf as (_ & _ & Hr & Hl & HG & Hc & Hal & Har & Hd & H1 & H2 & H3
                  & H4 & H5 & H6 & H7 & H8).
  unfold end_step. intros H. do 3 (bind_case H).
  apply collect_Ok in E1 as [rows ->].
  rewrite (update_counts_frame f _ _ H1 H2 H3 H4 H5 H6 H7 H8 H).
  rewrite Hd, Hl.
  rewrite (censor_links_frame f _ _ _ Hr HG Hc E0).
  by rewrite Har, Hal.
Qed.

Lemma step_constant (m m' : Model) : step m = Ok m' → f m' = f m.
Proof.
  pose proof Hf as (Ha & Hg & Hr & Hl & HG & Hc & _).
  unfold step. intros H. bind_case H.
  rewrite (end_step_constant _ _ H).
  rewrite (schedule_step_frame f Ha Hg Hr Hl _ _ E).
  unfold begin_step. by rewrite HG, Hc.
Qed.

Lemma steps_constant (n : nat) (m m' : Model) :
  steps n m = Ok m' → f m' = f m.
Proof.
  revert m. induction n as [ | n IH ]; intros m; simpl.
  - by intros [= <-].
  - intros H. bind_case H. rewrite (IH _ H). by apply step_constant.
Qed.
End TickConstant.

Section Parameters.

Lemma tick_constant_parameters : tick_constant parameters.
Proof. repeat split. Qed.

Lemma steps_one (m m' : Model) : step m = Ok m' → steps 1 m = Ok m'.
Proof. intros H. cbn [steps]. by rewrite H. Qed.

Lemma steps_add (n k : nat) (m : Model) :
  steps (n + k) m = steps n m ≫= steps k.
Proof.
  revert m. induction n as [ | n IH ]; intros m; [ reflexivity | ].
  cbn [Nat.add steps]. destruct (step m) as [ m1 | e ]; [ | reflexivity ].
  apply IH.
Qed.
End Parameters.

(** ** The population *)

Section Population.

(** every citizen is counted in exactly one of the three series *)
Lemma count_citizens_split (m : Model) :
  count_type_citizens m Quiescent + count_type_citizens m Active
  + count_jailed m = count_citizens m.
Proof.
  unfold count_type_citizens, count_jailed, count_citizens.
  generalize (schedule_agents m). intros l.
  assert (∀ q a j,
    fold_left
      (λ count x,
         match x with
         | ACop _ => count
         | ACitizen c =>
             if decide (0 < jail_sentence c) then count
             else if decide (condition c = Quiescent) then count + 1
                  else count
         end) l q
    + fold_left
        (λ count x,
           match x with
           | ACop _ => count
           | ACitizen c =>
               if decide (0 < jail_sentence c) then count
               else if decide (condition c = Active) then count + 1
                    else count
           end) l a
    + fold_left
        (λ count x,
           match x with
           | ACitizen c =>
               if decide (0 < jail_sentence c) then count + 1 else count
           | ACop _ => count
           end) l j
    = fold_left (λ count x, if is_cop x then count else count + 1) l
        (q + a + j)) as H; [ | apply (H 0 0 0) ].
  induction l as [ | x l IH ]; intros q a j; [ reflexivity | ].
  cbn [fold_left]. destruct x as [ c | k ]; cbn [is_cop]; [ | apply IH ].
  destruct (decide (0 < jail_sentence c)).
  - rewrite IH. f_equal. lia.
  - destruct (condition c).
    + rewrite decide_True by reflexivity. rewrite decide_False by discriminate.
      rewrite IH. f_equal. lia.
    + rewrite decide_False by discriminate. rewrite decide_True by reflexivity.
      rewrite IH. f_equal. lia.
Qed.

(** X1.  The three series of the chart partition the citizens: every
    citizen is counted once, as Quiescent, as Active or as Jailed, and
    every scheduled agent is a citizen or a cop, so that the five counts
    of a row determine one another. *)
Theorem population_partition (m : Model) :
  count_type_citizens m Quiescent + count_type_citizens m Active
  + count_jailed m = count_citizens m
  ∧ count_citizens m + count_cops m = Z.of_nat (length (schedule_agents m))
  ∧ 0 ≤ count_cops m ≤ Z.of_nat (length (schedule m)).
Proof.
  split; [ apply count_citizens_split | ].
  unfold count_citizens, count_cops.
  assert (length (schedule_agents m) ≤ length (schedule m))%nat as Hlen.
  { unfold schedule_agents. generalize (schedule m). intros l.
    induction l as [ | i l IH ]; [ done | ]. cbn [omap list_omap length].
    destruct (agents m !! i); cbn [length]; lia. }
  revert Hlen. generalize (schedule_agents m). intros l Hlen.
  assert (∀ c k,
    fold_left (λ count a, if is_cop a then count else count + 1) l c
    + fold_left (λ count a, if is_cop a then count + 1 else count) l k
    = c + k + Z.of_nat (length l)
    ∧ k ≤ fold_left (λ count a, if is_cop a then count + 1 else count) l k
        ≤ k + Z.of_nat (length l)) as H.
  { clear Hlen. induction l as [ | x l IH ]; intros c k; [ simpl; lia | ].
    cbn [fold_left length].
    destruct (is_cop x);
      [ destruct (IH c (k + 1)) as [-> ?] | destruct (IH (c + 1) k) as [-> ?] ];
      lia. }
  destruct (H 0 0) as [-> ?]. lia.
Qed.

(** X2.  No tick creates, removes or converts an agent: the scheduler
    holds the same ids, each id keeps its breed, and so the numbers of
    citizens and of cops are those of the start, which is what the
    attributes [citizen_count] and [cop_count], assigned by the
    constructor only, go on to show. *)
Theorem ticks_keep_the_population (n : nat) (m m' : Model) :
  steps n m = Ok m' →
  schedule m' = schedule m
  ∧ (∀ i, is_cop <$> agents m' !! i = is_cop <$> agents m !! i)
  ∧ count_citizens m' = count_citizens m
  ∧ count_cops m' = count_cops m
  ∧ citizen_count m' = citizen_count m
  ∧ cop_count m' = cop_count m.
Proof.
  intros H.
  pose proof (steps_schedule _ _ _ H) as Hs.
  assert (∀ i, is_cop <$> agents m' !! i = is_cop <$> agents m !! i) as Hb.
  { intros i. apply (steps_projection is_cop) with (n := n); try done.
    by intros q [ c | k ]. }
  pose proof (schedule_agents_projection is_cop m m' Hs Hb) as Hl.
  split; [ exact Hs | ]. split; [ exact Hb | ].
  split; [ by apply count_citizens_breed | ].
  split; [ by apply count_cops_breed | ].
  split.
  - apply (steps_constant citizen_count) with (n := n); [ | exact H ].
    repeat split.
  - apply (steps_constant cop_count) with (n := n); [ | exact H ].
    repeat split.
Qed.

Lemma ticks_keep_the_population_witness :
  schedule (Examples.after Examples.patrol) = schedule Examples.patrol
  ∧ (∀ i, is_cop <$> agents (Examples.after Examples.patrol) !! i
          = is_cop <$> agents Examples.patrol !! i)
  ∧ count_citizens (Examples.after Examples.patrol)
    = count_citizens Examples.patrol
  ∧ count_cops (Examples.after Examples.patrol) = count_cops Examples.patrol
  ∧ citizen_count (Examples.after Examples.patrol)
    = citizen_count Examples.patrol
  ∧ cop_count (Examples.after Examples.patrol) = cop_count Examples.patrol.
Proof.
  apply (ticks_keep_the_population 1 Examples.patrol).
  apply steps_one, step_after, runnable_patrol.
Defined.
End Population.

(** ** The bookkeeping of a tick *)

Section Bookkeeping.
Local Open Scope R_scope.

(** a tick up to its closing attribute updates *)
Lemma step_split (m m' : Model) :
  step m = Ok m' →
  ∃ m5 row,
    update_counts m5 = Ok m'
    ∧ datacollector m5 = datacollector m ++ [row]
    ∧ row_Quiescent row = count_type_citizens m5 Quiescent
    ∧ row_Active row = count_type_citizens m5 Active
    ∧ row_Jailed row = count_jailed m5
    ∧ row_Citizens row = count_citizens m5
    ∧ row_Cops row = count_cops m5
    ∧ row_Active_Links row = active_links m5
    ∧ row_Activated_Links_Ratio row = activated_link_ratio m5
    ∧ row_Censored_Links_per_step row = censored_links m5
    ∧ (0 ≤ censored_links m5 ≤ active_links m5)%Z
    ∧ ∀ (A : Type) (f : Model → A), collect_constant f → f m5 = f m.
Proof.
  unfold step. intros H. bind_case H. rename a into m1.
  unfold end_step in H. do 3 (bind_case H).
  match goal with E : censor_links _ _ = Ok ?x |- _ =>
    rename x into m3; rename E into Ecl end.
  match goal with E : get_active_link_ratio _ = Ok _ |- _ =>
    unfold get_active_link_ratio in E;
    destruct (decide _) in E; [ discriminate | ]; injection E as <- end.
  match goal with E : collect _ = Ok ?x |- _ =>
    rename x into m5; rename E into Eco end.
  unfold collect in Eco. do 4 (bind_case Eco). injection Eco as <-.
  match goal with E : get_active_link_ratio _ = Ok _ |- _ =>
    unfold get_active_link_ratio in E;
    destruct (decide _) in E; [ discriminate | ]; injection E as <- end.
  assert (∀ (l : list (Z * Z)) (x y : Model),
            censor_links l x = Ok y →
            (censored_links x ≤ censored_links y
             ≤ censored_links x + Z.of_nat (length l))%Z) as Hcount.
  { induction l as [ | e l IH ]; intros x y Hx; simpl in Hx.
    - injection Hx as <-. simpl. lia.
    - apply bind_Ok in Hx as (z & Ez & Hx). apply IH in Hx. cbn [length].
      assert (censored_links z = censored_links x
              ∨ censored_links z = (censored_links x + 1)%Z) as Hone.
      { revert Ez. unfold censor_link.
        destruct (Nx.get_edge _ _ _) as [ d | ]; [ | discriminate ].
        destruct (decide (d = 0%Z)); [ | intros [= <-]; by left ].
        destruct (Rng.random _) as [u r].
        destruct (Rlt_dec _ _); intros [= <-]; [ by right | by left ]. }
      lia. }
  pose proof (Hcount _ _ _ Ecl) as Hc.
  pose proof (censor_links_frame active_links _ _ _
                ltac:(done) ltac:(done) ltac:(done) Ecl) as Hal.
  pose proof (censor_links_frame activated_link_ratio _ _ _
                ltac:(done) ltac:(done) ltac:(done) Ecl) as Har.
  pose proof (censor_links_frame number_of_edges _ _ _
                ltac:(done) ltac:(done) ltac:(done) Ecl) as Hne.
  pose proof (censor_links_frame datacollector _ _ _
                ltac:(done) ltac:(done) ltac:(done) Ecl) as Hdc.
  pose proof (schedule_step_frame censored_links ltac:(done) ltac:(done)
                ltac:(done) ltac:(done) _ _ E) as Hc0.
  pose proof (schedule_step_frame datacollector ltac:(done) ltac:(done)
                ltac:(done) ltac:(done) _ _ E) as Hd0.
  cbn [censored_links active_links datacollector activated_link_ratio
       number_of_edges link_to_censor set_activated_link_ratio
       set_active_links begin_step set_G set_censored_links]
    in Hc, Hal, Har, Hne, Hdc, Hc0, Hd0.
  change (length (elements (link_to_censor m1)))
    with (size (link_to_censor m1)) in Hc.
  eexists _, _. split; [ exact H | ].
  split.
  { cbn [datacollector set_datacollector set_link_to_censor].
    by rewrite Hdc, Hd0. }
  do 6 (split; [ reflexivity | ]).
  split.
  { cbn [row_Activated_Links_Ratio activated_link_ratio active_links
         number_of_edges set_datacollector set_link_to_censor].
    by rewrite Har, Hal, Hne. }
  split; [ reflexivity | ].
  split.
  { cbn [censored_links active_links set_datacollector set_link_to_censor].
    rewrite Hal. rewrite Hc0 in Hc. lia. }
  intros A f (Ha & Hg & Hr & Hl & HG & Hcl & Hal' & Har' & Hd).
  rewrite Hd, Hl.
  rewrite (censor_links_frame f _ _ _ Hr HG Hcl Ecl).
  rewrite Har', Hal'.
  rewrite (schedule_step_frame f Ha Hg Hr Hl _ _ E).
  unfold begin_step. by rewrite HG, Hcl.
Qed.
End Bookkeeping.

Section Counters.
Local Open Scope Z_scope.

(** the closing attribute updates, one attribute at a time *)
Lemma update_counts_values (m m' : Model) :
  update_counts m = Ok m' →
  active_count m' = count_type_citizens m Active
  ∧ quiescent_count m' = count_type_citizens m Quiescent
  ∧ jail_count m' = count_jailed m
  ∧ iteration m' = iteration m + 1
  ∧ running m'
    = (if decide (max_iters m < iteration m + 1) then false else running m).
Proof.
  unfold update_counts. intros H. cbv zeta in H.
  set (m8 := set_jail_count _ _) in H.
  assert (active_count m8 = count_type_citizens m Active) as Ha by reflexivity.
  assert (quiescent_count m8 = count_type_citizens m Quiescent) as Hq
    by reflexivity.
  assert (jail_count m8 = count_jailed m) as Hj by reflexivity.
  assert (iteration m8 = iteration m) as Hi by reflexivity.
  assert (max_iters m8 = max_iters m) as Hm by reflexivity.
  assert (running m8 = running m) as Hr by reflexivity.
  clearbody m8.
  do 3 (bind_case H). injection H as <-.
  cbn [max_iters iteration set_iteration set_weak_ties_receival
       set_strong_ties_receival set_average_jail_term].
  rewrite Hm, Hi.
  destruct (decide (max_iters m < iteration m + 1));
    cbn [active_count quiescent_count jail_count iteration running
         set_running set_iteration set_weak_ties_receival
         set_strong_ties_receival set_average_jail_term];
    rewrite ?Ha, ?Hq, ?Hj, ?Hi, ?Hr; repeat split.
Qed.

Lemma counts_of_agents (m m' : Model) :
  agents m' = agents m → schedule m' = schedule m →
  (∀ k, count_type_citizens m' k = count_type_citizens m k)
  ∧ count_jailed m' = count_jailed m
  ∧ count_citizens m' = count_citizens m
  ∧ count_cops m' = count_cops m.
Proof.
  intros Ha Hs.
  unfold count_type_citizens, count_jailed, count_citizens, count_cops,
    schedule_agents. rewrite Ha, Hs. repeat split.
Qed.

(** X3.  What the page shows after a tick is what the chart has just
    collected: the tick appends one row to the data collector and keeps
    the earlier rows; the attributes behind the text elements
    ([quiescent_count], [active_count], [jail_count], [active_links],
    [activated_link_ratio], [censored_links]) hold the values of that
    row, which are the counts over the agents as the tick leaves them;
    and the edges censored in the tick are at most the edges marked in
    it. *)
Theorem tick_reports_agree (m m' : Model) :
  step m = Ok m' →
  ∃ row,
    datacollector m' = datacollector m ++ [row]
    ∧ row_Quiescent row = quiescent_count m'
    ∧ row_Active row = active_count m'
    ∧ row_Jailed row = jail_count m'
    ∧ quiescent_count m' = count_type_citizens m' Quiescent
    ∧ active_count m' = count_type_citizens m' Active
    ∧ jail_count m' = count_jailed m'
    ∧ row_Citizens row = count_citizens m'
    ∧ row_Cops row = count_cops m'
    ∧ row_Quiescent row + row_Active row + row_Jailed row = row_Citizens row
    ∧ row_Active_Links row = active_links m'
    ∧ row_Activated_Links_Ratio row = activated_link_ratio m'
    ∧ row_Censored_Links_per_step row = censored_links m'
    ∧ 0 ≤ censored_links m' ≤ active_links m'.
Proof.
  intros H.
  apply step_split in H
    as (m5 & row & H & Hd & HQ & HA & HJ & HC & HK & HL & HR & HX & Hle & _).
  pose proof (update_counts_values _ _ H) as (Ha & Hq & Hj & _).
  pose proof (update_counts_resolved _ _ H) as [ (Hag & Hs & _) _ ].
  destruct (counts_of_agents m5 m' Hag Hs) as (Hk & Hcj & Hcc & Hck).
  pose proof (count_citizens_split m5) as Hpart.
  exists row.
  rewrite (update_counts_frame datacollector _ _ ltac:(done) ltac:(done)
             ltac:(done) ltac:(done) ltac:(done) ltac:(done) ltac:(done)
             ltac:(done) H).
  rewrite (update_counts_frame active_links _ _ ltac:(done) ltac:(done)
             ltac:(done) ltac:(done) ltac:(done) ltac:(done) ltac:(done)
             ltac:(done) H).
  rewrite (update_counts_frame activated_link_ratio _ _ ltac:(done)
             ltac:(done) ltac:(done) ltac:(done) ltac:(done) ltac:(done)
             ltac:(done) ltac:(done) H).
  rewrite (update_counts_frame censored_links _ _ ltac:(done) ltac:(done)
             ltac:(done) ltac:(done) ltac:(done) ltac:(done) ltac:(done)
             ltac:(done) H).
  rewrite !Hk, Hcj, Hcc, Hck, Ha, Hq, Hj.
  rewrite HQ, HA, HJ, HC.
  repeat split; try assumption; try lia; try reflexivity.
Qed.

Lemma tick_reports_agree_witness :
  ∃ row,
    datacollector (Examples.after Examples.patrol)
    = datacollector Examples.patrol ++ [row]
    ∧ row_Quiescent row = quiescent_count (Examples.after Examples.patrol)
    ∧ row_Active row = active_count (Examples.after Examples.patrol)
    ∧ row_Jailed row = jail_count (Examples.after Examples.patrol)
    ∧ quiescent_count (Examples.after Examples.patrol)
      = count_type_citizens (Examples.after Examples.patrol) Quiescent
    ∧ active_count (Examples.after Examples.patrol)
      = count_type_citizens (Examples.after Examples.patrol) Active
    ∧ jail_count (Examples.after Examples.patrol)
      = count_jailed (Examples.after Examples.patrol)
    ∧ row_Citizens row = count_citizens (Examples.after Examples.patrol)
    ∧ row_Cops row = count_cops (Examples.after Examples.patrol)
    ∧ row_Quiescent row + row_Active row + row_Jailed row = row_Citizens row
    ∧ row_Active_Links row = active_links (Examples.after Examples.patrol)
    ∧ row_Activated_Links_Ratio row
      = activated_link_ratio (Examples.after Examples.patrol)
    ∧ row_Censored_Links_per_step row
      = censored_links (Examples.after Examples.patrol)
    ∧ 0 ≤ censored_links (Examples.after Examples.patrol)
        ≤ active_links (Examples.after Examples.patrol).
Proof.
  apply (tick_reports_agree Examples.patrol).
  apply step_after, runnable_patrol.
Defined.

(** one tick of the iteration counter and of the run flag *)
Lemma step_iteration (m m' : Model) :
  step m = Ok m' →
  iteration m' = iteration m + 1
  ∧ max_iters m' = max_iters m
  ∧ running m'
    = (if decide (max_iters m < iteration m + 1) then false else running m).
Proof.
  intros H. pose proof (step_constant max_iters ltac:(repeat split) _ _ H) as Hm.
  apply step_split in H as (m5 & row & H & _ & _ & _ & _ & _ & _ & _ & _ & _
                            & _ & Hf).
  apply update_counts_values in H as (_ & _ & _ & Hi & Hr).
  rewrite (Hf _ iteration ltac:(repeat split)) in Hi, Hr.
  rewrite (Hf _ max_iters ltac:(repeat split)) in Hr.
  rewrite (Hf _ running ltac:(repeat split)) in Hr.
  by repeat split.
Qed.

(** X4.  Every tick adds one to [iteration], and [running] is switched
    off by the first tick that leaves [iteration] above [max_iters] and
    never switched on again: a model that is running after [n] ticks was
    running before and, if any tick was made, has [iteration] at most
    [max_iters].  From a fresh model the flag thus goes off with tick
    number [max_iters + 1], not [max_iters]. *)
Theorem iteration_and_running (n : nat) (m m' : Model) :
  steps n m = Ok m' →
  iteration m' = iteration m + Z.of_nat n
  ∧ max_iters m' = max_iters m
  ∧ (running m' = true
     ↔ running m = true
       ∧ (n = 0%nat ∨ iteration m + Z.of_nat n ≤ max_iters m)).
Proof.
  revert m. induction n as [ | n IH ]; intros m.
  - intros [= <-]. split; [ lia | ]. split; [ reflexivity | ].
    split; [ intros ?; split; [ assumption | by left ] | by intros [? _] ].
  - cbn [steps]. intros H. bind_case H.
    apply step_iteration in E as (Hi & Hm & Hr).
    apply IH in H as (Hi' & Hm' & Hr').
    rewrite Hi', Hm', Hr', Hi, Hm, Hr.
    split; [ lia | ]. split; [ reflexivity | ].
    destruct (decide (max_iters m < iteration m + 1)).
    + split; [ by intros [[=] _] | ]. intros [_ [ [=] | Hle ] ]. lia.
    + split.
      * intros [Hrun Hcase]. split; [ exact Hrun | ]. right.
        destruct Hcase as [ -> | Hle ]; lia.
      * intros [Hrun [ [=] | Hle ] ]. split; [ exact Hrun | ].
        destruct n; [ by left | right; lia ].
Qed.

Lemma iteration_and_running_witness :
  iteration (Examples.after Examples.censoring)
  = iteration Examples.censoring + Z.of_nat 1
  ∧ max_iters (Examples.after Examples.censoring)
    = max_iters Examples.censoring
  ∧ (running (Examples.after Examples.censoring) = true
     ↔ running Examples.censoring = true
       ∧ (1%nat = 0%nat
          ∨ iteration Examples.censoring + Z.of_nat 1
            ≤ max_iters Examples.censoring)).
Proof.
  apply (iteration_and_running 1 Examples.censoring).
  apply steps_one, step_after, runnable_censoring.
Defined.
End Counters.

(** ** Running a model *)

Section Running.

Lemma step_link_to_censor (m m' : Model) :
  step m = Ok m' → link_to_censor m' = ∅.
Proof.
  unfold step. intros H. bind_case H. by apply end_step_resolved in H as [_ ?].
Qed.

Lemma steps_edges (n : nat) (m m' : Model) :
  steps n m = Ok m' →
  Nx.nodes (G m') = Nx.nodes (G m)
  ∧ dom (Nx.edges (G m')) = dom (Nx.edges (G m)).
Proof.
  revert m. induction n as [ | n IH ]; intros m; simpl.
  - by intros [= <-].
  - intros H. bind_case H. apply IH in H as [-> ->].
    by apply step_edges in E as (_ & -> & -> & _).
Qed.

(** X5.  Nothing that the constructor was given changes in a run: after
    any number of ticks the parameters kept on the model, the scheduler's
    list of agents and the cached [number_of_edges] are those of the
    start, and the network has the nodes and the edges of the start, so
    that the cache stays right: censorship rewrites countdowns and never
    removes an edge. *)
Theorem parameters_are_constant (n : nat) (m m' : Model) :
  steps n m = Ok m' →
  parameters m' = parameters m
  ∧ schedule m' = schedule m
  ∧ Nx.nodes (G m') = Nx.nodes (G m)
  ∧ dom (Nx.edges (G m')) = dom (Nx.edges (G m))
  ∧ Nx.number_of_edges (G m') = Nx.number_of_edges (G m).
Proof.
  intros H.
  split; [ by apply (steps_constant parameters tick_constant_parameters n) | ].
  split; [ by apply (steps_schedule n) | ].
  apply steps_edges in H as [Hn Hd].
  split; [ exact Hn | ]. split; [ exact Hd | ].
  unfold Nx.number_of_edges. by rewrite <- !size_dom, Hd.
Qed.

Lemma parameters_are_constant_witness :
  parameters (Examples.after Examples.censoring)
  = parameters Examples.censoring
  ∧ schedule (Examples.after Examples.censoring)
    = schedule Examples.censoring
  ∧ Nx.nodes (G (Examples.after Examples.censoring))
    = Nx.nodes (G Examples.censoring)
  ∧ dom (Nx.edges (G (Examples.after Examples.censoring)))
    = dom (Nx.edges (G Examples.censoring))
  ∧ Nx.number_of_edges (G (Examples.after Examples.censoring))
    = Nx.number_of_edges (G Examples.censoring).
Proof.
  apply (parameters_are_constant 1 Examples.censoring).
  apply steps_one, step_after, runnable_censoring.
Defined.

Lemma lookup_citizen_breed (m m' : Model) (i : Z) :
  is_cop <$> agents m' !! i = is_cop <$> agents m !! i →
  is_Some (lookup_citizen m' i) → is_Some (lookup_citizen m i).
Proof.
  unfold lookup_citizen. intros H [c Hc].
  destruct (agents m' !! i) as [ [ c0 | ? ] | ]; try discriminate.
  destruct (agents m !! i) as [ [ c1 | ? ] | ]; try discriminate. eauto.
Qed.

Lemma step_runnable (m m' : Model) :
  step m = Ok m' → runnable m → runnable m'.
Proof.
  intros H (Hcan & Hnet & Hk & Hmax & Hne & _).
  pose proof (step_edges _ _ H) as (_ & Hn & Hd & _).
  split; [ by eapply step_canonical | ].
  rewrite (step_constant arrest_prob_constant ltac:(repeat split) _ _ H).
  rewrite (step_constant activation_type ltac:(repeat split) _ _ H).
  rewrite (step_constant strong_weak_ratio ltac:(repeat split) _ _ H).
  rewrite (step_constant max_jail_term ltac:(repeat split) _ _ H).
  rewrite (step_constant number_of_edges ltac:(repeat split) _ _ H).
  rewrite (step_link_to_censor _ _ H).
  split; [ | split; [ exact Hk
                    | split; [ exact Hmax | split; [ exact Hne | set_solver ] ] ] ].
  intros Hmode. destruct (Hnet Hmode) as [Hnodes Hw].
  split; [ | exact Hw ].
  intros i Hi. rewrite Hn. apply Hnodes.
  apply (lookup_citizen_breed m m'); [ | exact Hi ].
  apply (step_projection is_cop); try done. by intros q [ c | k ].
Qed.

(** X6.  A model that can make one tick can make any number: if the
    edges are stored in order and the pending edges are edges, the
    network has an edge, the arrest constant is not negative (so that
    [math.exp] stays in range), the largest sentence is not negative
    and, in network mode, every citizen is a node and the tie weight is
    not negative, then no tick of the run raises, and the same holds of
    the model after it. *)
Theorem runnable_model_never_raises (n : nat) (m : Model) :
  runnable m → ∃ m', steps n m = Ok m' ∧ runnable m'.
Proof.
  revert m. induction n as [ | n IH ]; intros m Hr.
  - exists m. by split.
  - destruct (step_succeeds m Hr) as [m1 H1].
    destruct (IH m1 (step_runnable _ _ H1 Hr)) as (m' & Hm' & Hr').
    exists m'. split; [ | exact Hr' ]. cbn [steps]. by rewrite H1.
Qed.

Lemma runnable_model_never_raises_witness :
  ∃ m', steps 12 Examples.censoring = Ok m' ∧ runnable m'.
Proof.
  apply (runnable_model_never_raises 12 Examples.censoring).
  apply runnable_censoring.
Defined.
End Running.

(** ** Censorship with probability zero *)

Section NoCensorship.
Local Open Scope R_scope.

Lemma censor_links_never (l : list (Z * Z)) (m m' : Model) :
  p_link_censor m <= 0 → censor_links l m = Ok m' →
  G m' = G m ∧ censored_links m' = censored_links m.
Proof.
  intros Hp. revert m Hp. induction l as [ | e l IH ]; intros m Hp; simpl.
  - by intros [= <-].
  - intros H. bind_case H.
    assert (G a = G m ∧ censored_links a = censored_links m
            ∧ p_link_censor a = p_link_censor m) as (HG & Hc & Hp').
    { revert E. unfold censor_link.
      destruct (Nx.get_edge _ _ _) as [ d | ]; [ | discriminate ].
      destruct (decide (d = 0%Z)); [ | by intros [= <-] ].
      pose proof (random_range (random m)) as Hr.
      destruct (Rng.random (random m)) as [u r]. cbn [fst] in Hr.
      destruct (Rlt_dec u (p_link_censor m)); [ lra | by intros [= <-] ]. }
    rewrite <- HG, <- Hc. apply IH; [ by rewrite Hp' | exact H ].
Qed.

Lemma step_never (m m' : Model) :
  p_link_censor m <= 0 → step m = Ok m' →
  G m' = decay (G m) ∧ censored_links m' = 0%Z
  ∧ p_link_censor m' = p_link_censor m.
Proof.
  intros Hp H.
  pose proof (step_constant p_link_censor ltac:(repeat split) _ _ H) as Hp'.
  unfold step in H. bind_case H.
  unfold end_step in H. do 3 (bind_case H).
  match goal with E : censor_links _ _ = Ok _ |- _ =>
    apply censor_links_never in E as [HG Hc] end.
  2:{ cbn [p_link_censor set_activated_link_ratio set_active_links].
      by rewrite (schedule_step_frame p_link_censor ltac:(done) ltac:(done)
                    ltac:(done) ltac:(done) _ _ E). }
  match goal with E : collect _ = Ok _ |- _ =>
    apply collect_Ok in E as [rows ->] end.
  rewrite (update_counts_frame G _ _ ltac:(done) ltac:(done)
             ltac:(done) ltac:(done) ltac:(done) ltac:(done) ltac:(done)
             ltac:(done) H).
  rewrite (update_counts_frame censored_links _ _ ltac:(done) ltac:(done)
             ltac:(done) ltac:(done) ltac:(done) ltac:(done) ltac:(done)
             ltac:(done) H).
  cbn [G censored_links set_datacollector set_link_to_censor
       set_activated_link_ratio set_active_links] in HG, Hc |- *.
  rewrite HG, Hc.
  rewrite (schedule_step_G _ _ E).
  rewrite (schedule_step_frame censored_links ltac:(done) ltac:(done)
             ltac:(done) ltac:(done) _ _ E).
  by repeat split.
Qed.

(** X7.  With a link-censoring probability of zero (the value the
    server starts with) or below, no edge is ever censored: each tick
    only lowers the countdowns that are still running, the per-tick
    count of censored edges is zero, and an edge that is not censored at
    the start is not censored after any number of ticks. *)
Theorem no_censorship_at_probability_zero (n : nat) (m m' : Model) :
  p_link_censor m <= 0 → steps n m = Ok m' →
  (n ≠ 0%nat → censored_links m' = 0%Z)
  ∧ (∀ k d, Nx.edges (G m) !! k = Some d → (d ≤ 0)%Z →
            Nx.edges (G m') !! k = Some d)
  ∧ (∀ k d, Nx.edges (G m) !! k = Some d → (0 ≤ d)%Z →
            Nx.edges (G m') !! k = Some (Z.max 0 (d - Z.of_nat n))).
Proof.
  intros Hp. revert m Hp. induction n as [ | n IH ]; intros m Hp.
  - intros [= <-]. split; [ done | ]. split; [ done | ].
    intros k d Hk Hd. rewrite Hk. f_equal. lia.
  - cbn [steps]. intros H. bind_case H.
    apply step_never in E as (HG & Hc & Hp'); [ | exact Hp ].
    destruct (IH a ltac:(by rewrite Hp') H) as (Hc' & Hkeep & Hrun).
    split.
    { intros _. destruct n; [ by injection H as <- | by apply Hc' ]. }
    split.
    + intros k d Hk Hd. apply Hkeep; [ | exact Hd ].
      rewrite HG, decay_lookup, Hk. cbn [fmap option_fmap option_map].
      by rewrite decide_False by lia.
    + intros k d Hk Hd.
      destruct (decide (0 < d)%Z) as [ Hpos | Hz ].
      * rewrite (Hrun k (d - 1)%Z).
        -- f_equal. lia.
        -- rewrite HG, decay_lookup, Hk. cbn [fmap option_fmap option_map].
           by rewrite decide_True by lia.
        -- lia.
      * rewrite (Hkeep k d).
        -- f_equal. lia.
        -- rewrite HG, decay_lookup, Hk. cbn [fmap option_fmap option_map].
           by rewrite decide_False by lia.
        -- lia.
Qed.

Lemma no_censorship_at_probability_zero_witness :
  (1%nat ≠ 0%nat → censored_links (Examples.after Examples.patrol) = 0%Z)
  ∧ (∀ k d, Nx.edges (G Examples.patrol) !! k = Some d → (d ≤ 0)%Z →
            Nx.edges (G (Examples.after Examples.patrol)) !! k = Some d)
  ∧ (∀ k d, Nx.edges (G Examples.patrol) !! k = Some d → (0 ≤ d)%Z →
            Nx.edges (G (Examples.after Examples.patrol)) !! k
            = Some (Z.max 0 (d - Z.of_nat 1))).
Proof.
  apply (no_censorship_at_probability_zero 1 Examples.patrol).
  - change (p_link_censor Examples.patrol) with 0. lra.
  - apply steps_one, step_after, runnable_patrol.
Defined.
End NoCensorship.

(** ** The life of a citizen *)

Section Citizens.

(** one activation and the condition of a citizen *)
Lemma activate_condition (uid j : Z) (m m' : Model) (c : Citizen) :
  activate uid m = Ok m' → lookup_citizen m j = Some c →
  ∃ c', lookup_citizen m' j = Some c'
        ∧ (condition c = Active →
           condition c' = Active
           ∨ ∃ k, agents m !! uid = Some (ACop k)
                  ∧ arrestee_of m k = Some j).
Proof.
  unfold activate. intros H Hc.
  destruct (agents m !! uid) as [ [ c0 | k ] | ] eqn:E.
  - destruct (decide (j = uid)) as [ -> | Hne ].
    2:{ exists c. split; [ | by left ].
        rewrite <- Hc. apply lookup_citizen_agents.
        by eapply Citizen_step_other. }
    assert (c0 = c) as ->
      by (unfold lookup_citizen in Hc; rewrite E in Hc; congruence).
    apply Citizen_step_shape in H
      as (c2 & mid & Hag & _ & _
          & [ (_ & -> & ->) | (_ & (x & p & s & w & ->) & ->) ]).
    + eexists. split; [ unfold lookup_citizen; by rewrite Hag, lookup_insert_eq | ].
      intros Ha. by left.
    + destruct (try_move_off_jail uid
                  (update_neighbors m (pos c) (vision c)).2 mid
                  (decide_condition (set_estimate x p s w c)))
        as (c' & Hc' & Hcond & _).
      { unfold lookup_citizen. by rewrite Hag, lookup_insert_eq. }
      exists c'. split; [ exact Hc' | ]. intros Ha. left. rewrite Hcond.
      by rewrite decide_condition_keeps_active.
  - assert (j ≠ uid) as Hne.
    { intros ->. unfold lookup_citizen in Hc. by rewrite E in Hc. }
    destruct (Cop_step_other uid j k m m' H Hne)
      as [ [_ Hs] | (Ha & c1 & s & Hc1 & _ & Hag) ].
    + exists c. split; [ | by left ].
      rewrite <- Hc. by apply lookup_citizen_agents.
    + eexists. split; [ unfold lookup_citizen; by rewrite Hag | ].
      intros _. right. by exists k.
  - injection H as <-. exists c. split; [ exact Hc | by left ].
Qed.

Lemma activate_all_condition (order : list Z) (i : Z) (m m' : Model)
    (c : Citizen) :
  activate_all order m = Ok m' → lookup_citizen m i = Some c →
  condition c = Active →
  ∃ c', lookup_citizen m' i = Some c'
        ∧ (condition c' = Active
           ∨ ∃ (p : nat) (uid : Z) (mp : Model) (k : Cop),
               order !! p = Some uid
               ∧ activate_all (take p order) m = Ok mp
               ∧ agents mp !! uid = Some (ACop k)
               ∧ arrestee_of mp k = Some i).
Proof.
  revert m c. induction order as [ | uid l IH ]; intros m c; simpl.
  - intros [= <-] Hc Ha. exists c. split; [ exact Hc | by left ].
  - intros H Hc Ha. bind_case H. rename a into m1.
    destruct (activate_condition uid i m m1 c E Hc) as (c1 & Hc1 & Hcase).
    destruct (Hcase Ha) as [ Ha1 | (k & Hk & Harr) ].
    + destruct (IH m1 c1 H Hc1 Ha1)
        as (c' & Hc' & [ Ha' | (p & u & mp & k & Hp & Hmp & Hk & Harr) ]).
      * exists c'. split; [ exact Hc' | by left ].
      * exists c'. split; [ exact Hc' | ]. right.
        exists (S p), u, mp, k. split; [ exact Hp | ].
        split; [ | by split ]. cbn [take activate_all]. by rewrite E.
    + assert (is_Some (lookup_citizen m' i)) as [c' Hc'].
      { pose proof (activate_all_projection is_cop
                      ltac:(by intros q [ ? | ? ]) ltac:(done) ltac:(done)
                      ltac:(done) l i m1 m' H) as Hb.
        unfold lookup_citizen in Hc1 |- *.
        destruct (agents m1 !! i) as [ [ ? | ? ] | ]; try discriminate.
        destruct (agents m' !! i) as [ [ ? | ? ] | ]; try discriminate.
        eauto. }
      exists c'. split; [ exact Hc' | ]. right.
      exists 0%nat, uid, m, k. by repeat split.
Qed.

(** X8.  A citizen never calms down of its own accord: [Citizen.step]
    has a rule from Quiescent to Active and none back.  A citizen that
    is Active when a tick starts is Active when it ends, unless at some
    point of the tick a cop picked it for arrest. *)
Theorem active_until_arrested (m m' : Model) (i : Z) (c : Citizen) :
  step m = Ok m' → lookup_citizen m i = Some c → condition c = Active →
  ∃ c', lookup_citizen m' i = Some c'
        ∧ (condition c' = Active
           ∨ ∃ (p : nat) (uid : Z) (mp : Model) (k : Cop),
               (activation_order (begin_step m)).1 !! p = Some uid
               ∧ activate_all (take p (activation_order (begin_step m)).1)
                   (set_random (activation_order (begin_step m)).2
                      (begin_step m)) = Ok mp
               ∧ agents mp !! uid = Some (ACop k)
               ∧ arrestee_of mp k = Some i).
Proof.
  unfold step, schedule_step. intros H Hc Ha.
  destruct (activation_order (begin_step m)) as [order r]. cbn [fst snd].
  bind_case H. apply end_step_resolved in H as [ (Hag & _) _ ].
  destruct (activate_all_condition order i _ _ c E Hc Ha) as (c' & Hc' & Hcase).
  exists c'. split; [ | exact Hcase ].
  rewrite <- Hc'. apply lookup_citizen_agents. by rewrite Hag.
Qed.

Lemma active_until_arrested_witness :
  ∃ c', lookup_citizen (Examples.after Examples.censoring) 0 = Some c'
        ∧ (condition c' = Active
           ∨ ∃ (p : nat) (uid : Z) (mp : Model) (k : Cop),
               (activation_order (begin_step Examples.censoring)).1 !! p
               = Some uid
               ∧ activate_all
                   (take p (activation_order
                              (begin_step Examples.censoring)).1)
                   (set_random
                      (activation_order (begin_step Examples.censoring)).2
                      (begin_step Examples.censoring)) = Ok mp
               ∧ agents mp !! uid = Some (ACop k)
               ∧ arrestee_of mp k = Some 0).
Proof.
  apply (active_until_arrested Examples.censoring
           (Examples.after Examples.censoring) 0
           (Examples.citizen_at (0, 0) Active 0)).
  - apply step_after, runnable_censoring.
  - reflexivity.
  - reflexivity.
Defined.

(** X9.  What a citizen is born with stays: hardship, legitimacy, risk
    aversion, threshold, grievance and vision of every citizen, and the
    vision of every cop, are after any number of ticks what they were at
    the start, and no agent changes breed. *)
Theorem exogenous_attributes_are_constant (n : nat) (m m' : Model) (i : Z) :
  steps n m = Ok m' →
  exogenous <$> agents m' !! i = exogenous <$> agents m !! i.
Proof.
  apply (steps_projection exogenous); try done. by intros q [ c | k ].
Qed.

Lemma exogenous_attributes_are_constant_witness :
  exogenous <$> agents (Examples.after Examples.patrol) !! 1
  = exogenous <$> agents Examples.patrol !! 1.
Proof.
  apply (exogenous_attributes_are_constant 1 Examples.patrol).
  apply steps_one, step_after, runnable_patrol.
Defined.
End Citizens.

(** ** The grid *)

Section GridFacts.

Lemma agent_pos_set (q : Z * Z) (a : Agent) : agent_pos (set_agent_pos q a) = q.
Proof. by destruct a. Qed.

Lemma pos_decide_condition (c : Citizen) : pos (decide_condition c) = pos c.
Proof.
  apply (decide_condition_projection
           (λ a, match a with ACitizen c => pos c | ACop k => cop_pos k end)).
  done.
Qed.

(** rewriting an agent where it stands *)
Lemma sync_rewrite (cs : gmap (Z * Z) Z) (A : gmap Z Agent) (uid : Z)
    (a a' : Agent) :
  (∀ p i, cs !! p = Some i ↔ ∃ b, A !! i = Some b ∧ agent_pos b = p) →
  A !! uid = Some a → agent_pos a' = agent_pos a →
  ∀ p i, cs !! p = Some i
         ↔ ∃ b, <[uid := a']> A !! i = Some b ∧ agent_pos b = p.
Proof.
  intros Hs Ha Hp p i. rewrite Hs.
  destruct (decide (i = uid)) as [ -> | Hne ].
  - rewrite lookup_insert_eq, Ha. split.
    + intros (b & [= <-] & Hb). exists a'. split; [ reflexivity | congruence ].
    + intros (b & [= <-] & Hb). exists a. split; [ reflexivity | congruence ].
  - by rewrite lookup_insert_ne.
Qed.

(** moving an agent to an empty cell *)
Lemma sync_move (cs : gmap (Z * Z) Z) (A : gmap Z Agent) (uid : Z)
    (a : Agent) (q : Z * Z) :
  (∀ p i, cs !! p = Some i ↔ ∃ b, A !! i = Some b ∧ agent_pos b = p) →
  A !! uid = Some a → cs !! q = None →
  ∀ p i, <[q := uid]> (delete (agent_pos a) cs) !! p = Some i
         ↔ ∃ b, <[uid := set_agent_pos q a]> A !! i = Some b
                ∧ agent_pos b = p.
Proof.
  intros Hs Ha Hq p i. split.
  - destruct (decide (p = q)) as [ -> | Hpq ].
    + rewrite lookup_insert_eq. intros [= <-].
      exists (set_agent_pos q a). rewrite lookup_insert_eq.
      split; [ reflexivity | apply agent_pos_set ].
    + rewrite lookup_insert_ne by congruence.
      intros Hd. apply lookup_delete_Some in Hd as [Hpa Hc].
      apply Hs in Hc as (b & Hb & Hpb). exists b.
      split; [ | exact Hpb ].
      rewrite lookup_insert_ne; [ exact Hb | ].
      intros ->. rewrite Ha in Hb. injection Hb as <-. congruence.
  - intros (b & Hb & Hpb).
    destruct (decide (i = uid)) as [ -> | Hne ].
    + rewrite lookup_insert_eq in Hb. injection Hb as <-.
      rewrite agent_pos_set in Hpb. subst p. by rewrite lookup_insert_eq.
    + rewrite lookup_insert_ne in Hb by congruence.
      assert (cs !! p = Some i) as Hc by (apply Hs; eauto).
      rewrite lookup_insert_ne by congruence.
      apply lookup_delete_Some. split; [ | exact Hc ].
      intros <-. assert (cs !! agent_pos a = Some uid) as Hu
        by (apply Hs; eauto).
      congruence.
Qed.

Lemma empty_neighbor (m : Model) (p q : Z * Z) (v : Z) :
  q ∈ (update_neighbors m p v).2 →
  q ∈ get_neighborhood (grid m) p v ∧ cells (grid m) !! q = None.
Proof.
  unfold update_neighbors. cbn [snd]. intros H.
  apply list_elem_of_filter in H as [He Hin]. split; [ exact Hin | ].
  unfold is_cell_empty in He. by apply bool_decide_eq_true in He.
Qed.

Lemma try_move_sync (uid : Z) (l : list (Z * Z)) (m : Model) :
  grid_sync m → (∀ q, q ∈ l → cells (grid m) !! q = None) →
  grid_sync (try_move uid l m).
Proof.
  intros Hs Hl. unfold grid_sync.
  destruct (try_move_shape uid l m)
    as [ [-> ->] | (q & a & _ & Hq & Ha & -> & ->) ]; [ exact Hs | ].
  cbn [cells set_cells]. apply sync_move; [ exact Hs | exact Ha | by apply Hl ].
Qed.

Lemma activate_sync (uid : Z) (m m' : Model) :
  activate uid m = Ok m' → grid_sync m → grid_sync m'.
Proof.
  unfold activate. intros H Hs.
  destruct (agents m !! uid) as [ [ c | k ] | ] eqn:E.
  - apply Citizen_step_shape in H
      as (c2 & mid & Hag & Hg & _
          & [ (_ & -> & ->) | (_ & (x & p & s & w & ->) & ->) ]).
    + unfold grid_sync. rewrite Hag, Hg.
      by apply (sync_rewrite _ _ _ (ACitizen c)).
    + apply try_move_sync.
      * unfold grid_sync. rewrite Hag, Hg.
        apply (sync_rewrite _ _ _ (ACitizen c)); [ exact Hs | exact E | ].
        cbn [agent_pos]. by rewrite pos_decide_condition.
      * intros q Hq. rewrite Hg. by apply empty_neighbor in Hq as [_ ?].
  - apply Cop_step_shape in H
      as (mid & -> & Hg & _
          & [ [_ ->] | (a & c & s & _ & Hc & _ & _ & Hag) ]).
    + apply try_move_sync; [ exact Hs | ].
      intros q Hq. by apply empty_neighbor in Hq as [_ ?].
    + apply try_move_sync.
      * unfold grid_sync. rewrite Hag, Hg.
        unfold lookup_citizen in Hc.
        destruct (agents m !! a) as [ [ c0 | ? ] | ] eqn:Ea; try discriminate.
        injection Hc as ->.
        by apply (sync_rewrite _ _ _ (ACitizen c)).
      * intros q Hq. rewrite Hg. by apply empty_neighbor in Hq as [_ ?].
  - by injection H as <-.
Qed.

Lemma activate_all_sync (order : list Z) (m m' : Model) :
  activate_all order m = Ok m' → grid_sync m → grid_sync m'.
Proof.
  revert m. induction order as [ | uid l IH ]; intros m; simpl.
  - by intros [= <-].
  - intros H Hs. bind_case H. apply (IH _ H). by eapply activate_sync.
Qed.

Lemma end_step_grid (m m' : Model) : end_step m = Ok m' → grid m' = grid m.
Proof.
  unfold end_step. intros H. do 3 (bind_case H).
  match goal with E : collect _ = Ok _ |- _ =>
    apply collect_Ok in E as [rows ->] end.
  rewrite (update_counts_frame grid _ _ ltac:(done) ltac:(done)
             ltac:(done) ltac:(done) ltac:(done) ltac:(done) ltac:(done)
             ltac:(done) H).
  match goal with E : censor_links _ _ = Ok _ |- _ =>
    apply (censor_links_frame grid) in E; [ | done .. ] end.
  cbn [grid set_datacollector set_link_to_censor]. by rewrite E0.
Qed.

Lemma step_sync (m m' : Model) : step m = Ok m' → grid_sync m → grid_sync m'.
Proof.
  unfold step, schedule_step. intros H Hs.
  destruct (activation_order (begin_step m)) as [order r].
  bind_case H.
  pose proof (activate_all_sync _ _ _ E Hs) as Hs1.
  unfold grid_sync.
  rewrite (end_step_grid _ _ H).
  by apply end_step_resolved in H as [ (-> & _) _ ].
Qed.

(** X10.  The grid and the agents stay in step.  If at the start a
    cell holds an agent exactly when that agent's [pos] is the cell,
    then so it is after any number of ticks; in particular no two agents
    ever stand on one cell, and no agent is lost from the grid. *)
Theorem grid_and_agents_agree (n : nat) (m m' : Model) :
  grid_sync m → steps n m = Ok m' →
  grid_sync m'
  ∧ (∀ i j a b, agents m' !! i = Some a → agents m' !! j = Some b →
                agent_pos a = agent_pos b → i = j)
  ∧ (∀ i a, agents m' !! i = Some a →
            cells (grid m') !! agent_pos a = Some i).
Proof.
  intros Hs H.
  assert (grid_sync m') as Hs'.
  { revert m Hs H. induction n as [ | n IH ]; intros m Hs; simpl.
    - by intros [= <-].
    - intros H. bind_case H. apply (IH a); [ | exact H ].
      by eapply step_sync. }
  split; [ exact Hs' | ]. split.
  - intros i j a b Ha Hb Hp.
    assert (cells (grid m') !! agent_pos a = Some i) as Hi
      by (apply Hs'; eauto).
    assert (cells (grid m') !! agent_pos a = Some j) as Hj
      by (apply Hs'; exists b; by split).
    congruence.
  - intros i a Ha. apply Hs'. eauto.
Qed.
End GridFacts.

Section GridExamples.
Import Examples.

Lemma model_of_sync mode k ratio t p ags g jc draws :
  NoDup ags.*1 → NoDup ((λ ia : Z * Agent, agent_pos ia.2) <$> ags) →
  grid_sync (model_of mode k ratio t p ags g jc draws).
Proof.
  intros Hk Hp q i. cbn [cells grid agents model_of]. split.
  - intros H. apply elem_of_list_to_map_2 in H.
    apply list_elem_of_fmap in H as ([j a] & [= -> ->] & Hin).
    exists a. split; [ | reflexivity ]. by apply elem_of_list_to_map_1.
  - intros (a & Ha & <-). apply elem_of_list_to_map_2 in Ha.
    apply elem_of_list_to_map_1.
    + by rewrite <- list_fmap_compose.
    + apply list_elem_of_fmap. by exists (i, a).
Qed.

Lemma grid_sync_patrol : grid_sync patrol.
Proof.
  apply model_of_sync; apply (bool_decide_unpack _); by vm_compute.
Qed.

Lemma grid_and_agents_agree_witness :
  grid_sync (after patrol)
  ∧ (∀ i j a b, agents (after patrol) !! i = Some a →
                agents (after patrol) !! j = Some b →
                agent_pos a = agent_pos b → i = j)
  ∧ (∀ i a, agents (after patrol) !! i = Some a →
            cells (grid (after patrol)) !! agent_pos a = Some i).
Proof.
  apply (grid_and_agents_agree 1 patrol).
  - apply grid_sync_patrol.
  - apply steps_one, step_after, runnable_patrol.
Defined.
End GridExamples.

Section Movement.

(** X11.  One activation moves at most the agent that is activated, and
    only when movement is on: the agent then stands on a cell of its own
    neighbourhood, within its vision, that was empty when the activation
    began, and a citizen that moves is not in jail.  Every other agent,
    the arrested citizen included, stays where it is. *)
Theorem agents_move_to_empty_neighbours (uid i : Z) (m m' : Model)
    (b : Agent) :
  activate uid m = Ok m' → agents m !! i = Some b →
  ∃ b', agents m' !! i = Some b'
        ∧ (agent_pos b' = agent_pos b
           ∨ (i = uid ∧ movement m = true
              ∧ agent_pos b'
                ∈ get_neighborhood (grid m) (agent_pos b) (exogenous b).2
              ∧ cells (grid m) !! agent_pos b' = None
              ∧ ∀ c, b = ACitizen c → jail_sentence c = 0)).
Proof.
  unfold activate. intros H Hb.
  destruct (agents m !! uid) as [ [ c | k ] | ] eqn:E.
  - destruct (decide (i = uid)) as [ -> | Hne ].
    2:{ exists b. split; [ | by left ].
        by rewrite (Citizen_step_other uid i c m m' H Hne). }
    assert (b = ACitizen c) as -> by congruence.
    apply Citizen_step_shape in H
      as (c2 & mid & Hag & Hg & Hmv
          & [ (_ & -> & ->) | (Hz & (x & p & s & w & ->) & ->) ]).
    + eexists. split; [ by rewrite Hag, lookup_insert_eq | by left ].
    + destruct (try_move_shape uid (update_neighbors m (pos c) (vision c)).2
                  mid) as [ [-> _] | (q & a & Hm & Hq & Ha & -> & _) ].
      * eexists. split; [ by rewrite Hag, lookup_insert_eq | ]. left.
        cbn [agent_pos]. by rewrite pos_decide_condition.
      * eexists. split; [ by rewrite lookup_insert_eq | ]. right.
        rewrite agent_pos_set. apply empty_neighbor in Hq as [Hin He].
        split; [ reflexivity | ]. split; [ congruence | ].
        split; [ exact Hin | ]. split; [ exact He | ].
        by intros c0 [= <-].
  - destruct (decide (i = uid)) as [ -> | Hne ].
    2:{ destruct (Cop_step_other uid i k m m' H Hne)
          as [ [_ Hs] | (_ & c & s & Hc & _ & Hag) ].
        - exists b. split; [ by rewrite Hs | by left ].
        - eexists. split; [ exact Hag | ]. left.
          unfold lookup_citizen in Hc. rewrite Hb in Hc.
          destruct b as [ c0 | ? ]; [ | discriminate ].
          by injection Hc as ->. }
    assert (b = ACop k) as -> by congruence.
    apply Cop_step_shape in H
      as (mid & -> & Hg & Hmv
          & [ [_ ->] | (a & c & s & _ & Hc & _ & _ & Hag) ]).
    + destruct (try_move_shape uid
                  (update_neighbors m (cop_pos k) (cop_vision k)).2 m)
        as [ [-> _] | (q & a & Hm & Hq & Ha & -> & _) ].
      * exists (ACop k). split; [ exact E | by left ].
      * eexists. split; [ by rewrite lookup_insert_eq | ]. right.
        rewrite agent_pos_set. apply empty_neighbor in Hq as [Hin He].
        split; [ reflexivity | ]. split; [ exact Hm | ].
        split; [ exact Hin | ]. split; [ exact He | ]. by intros c0 [=].
    + assert (agents mid !! uid = Some (ACop k)) as Hk.
      { rewrite Hag, lookup_insert_ne; [ exact E | ].
        intros ->. unfold lookup_citizen in Hc. by rewrite E in Hc. }
      destruct (try_move_shape uid
                  (update_neighbors m (cop_pos k) (cop_vision k)).2 mid)
        as [ [-> _] | (q & a0 & Hm & Hq & Ha & -> & _) ].
      * exists (ACop k). split; [ exact Hk | by left ].
      * eexists. split; [ by rewrite lookup_insert_eq | ]. right.
        rewrite agent_pos_set. apply empty_neighbor in Hq as [Hin He].
        split; [ reflexivity | ]. split; [ congruence | ].
        split; [ exact Hin | ]. split; [ exact He | ]. by intros c0 [=].
  - injection H as <-. exists b. split; [ exact Hb | by left ].
Qed.

Lemma agents_move_to_empty_neighbours_witness :
  ∃ m', activate 0 Examples.patrol = Ok m'
        ∧ ∃ b', agents m' !! 1 = Some b'
                ∧ (agent_pos b'
                   = agent_pos (ACitizen (Examples.citizen_at (1, 0) Active 0))
                   ∨ (1 = 0 ∧ movement Examples.patrol = true
                      ∧ agent_pos b'
                        ∈ get_neighborhood (grid Examples.patrol)
                            (agent_pos (ACitizen
                               (Examples.citizen_at (1, 0) Active 0)))
                            (exogenous (ACitizen
                               (Examples.citizen_at (1, 0) Active 0))).2
                      ∧ cells (grid Examples.patrol) !! agent_pos b' = None
                      ∧ ∀ c, ACitizen (Examples.citizen_at (1, 0) Active 0)
                             = ACitizen c → jail_sentence c = 0)).
Proof.
  destruct (activate_succeeds 0 Examples.patrol runnable_patrol) as [m' Hm'].
  exists m'. split; [ exact Hm' | ].
  apply (agents_move_to_empty_neighbours 0 1 Examples.patrol m'
           (ACitizen (Examples.citizen_at (1, 0) Active 0)) Hm').
  reflexivity.
Defined.
End Movement.

(** ** The placement loop of the constructor *)

Section Placement.
Local Open Scope R_scope.

(** the three ways through the body of the loop *)
Lemma place_cases (cfg : Config) (s : Placement) (xy : Z * Z) :
  (∃ g, place cfg s xy
        = with_agent xy (ACop (mkCop xy (cfg_cop_vision cfg))) g s)
  ∨ (∃ h ra g,
       0 <= h < 1 ∧ 0 <= ra < 1
       ∧ place cfg s xy
         = with_agent xy
             (ACitizen (new_Citizen xy h (cfg_legitimacy cfg) ra
                          (cfg_active_threshold cfg)
                          (cfg_citizen_vision cfg))) g s)
  ∨ (unique_id (place cfg s xy) = unique_id s
     ∧ list_citizen_ids (place cfg s xy) = list_citizen_ids s
     ∧ placed_agents (place cfg s xy) = placed_agents s
     ∧ placed_cells (place cfg s xy) = placed_cells s
     ∧ placed_schedule (place cfg s xy) = placed_schedule s).
Proof.
  unfold place.
  destruct (Rng.random (placed_random s)) as [r1 g1].
  destruct (Rlt_dec r1 (cfg_cop_density cfg)).
  { left. by exists g1. }
  destruct (Rng.random g1) as [r2 g2].
  destruct (Rlt_dec r2 _); [ | right; right; by repeat split ].
  pose proof (random_range g2) as Hh.
  destruct (Rng.random g2) as [h g3]. cbn [fst] in Hh.
  pose proof (random_range g3) as Hra.
  destruct (Rng.random g3) as [ra g4]. cbn [fst] in Hra.
  right. left. exists h, ra, g4.
  split; [ exact Hh | ]. split; [ exact Hra | reflexivity ].
Qed.

Lemma seqZ_snoc (n : Z) : (0 ≤ n)%Z → seqZ 0 (n + 1) = seqZ 0 n ++ [n].
Proof.
  intros Hn. rewrite seqZ_app by lia. f_equal.
Qed.

Lemma omap_lookup_insert (A : gmap Z Agent) (u : Z) (a : Agent) (l : list Z) :
  u ∉ l → omap (λ i, <[u := a]> A !! i) l = omap (λ i, A !! i) l.
Proof.
  induction l as [ | i l IH ]; intros Hu; [ reflexivity | ].
  apply not_elem_of_cons in Hu as [Hne Hu]. cbn [omap list_omap].
  rewrite lookup_insert_ne by congruence. by rewrite IH.
Qed.

Lemma with_agent_ok (cfg : Config) (s : Placement) (xy : Z * Z) (a : Agent)
    (g : Rng.Random) :
  placed_ok cfg s → placed_cells s !! xy = None →
  agent_pos a = xy → fresh_agent cfg a →
  placed_ok cfg (with_agent xy a g s).
Proof.
  intros (Hu & Hs & Hk & Hids & Hnd & Hf & Hsync & Hcount) Hxy Hp Ha.
  assert (placed_agents s !! unique_id s = None) as Hnew.
  { destruct (placed_agents s !! unique_id s) eqn:E; [ | reflexivity ].
    assert (0 ≤ unique_id s < unique_id s)%Z by (apply Hk; eauto). lia. }
  assert (placed_citizens (with_agent xy a g s)
          = Z.of_nat (length (list_citizen_ids (with_agent xy a g s))))
    as Hcount'.
  { unfold placed_citizens in Hcount |- *.
    cbn [placed_schedule placed_agents list_citizen_ids with_agent].
    rewrite omap_app, fold_left_app.
    rewrite (omap_lookup_insert _ _ _ (placed_schedule s)), Hcount.
    2:{ rewrite Hs, elem_of_seqZ. lia. }
    cbn [omap list_omap]. rewrite lookup_insert_eq. cbn [fold_left].
    destruct (is_cop a); [ reflexivity | ].
    rewrite length_app. cbn [length]. lia. }
  unfold placed_ok.
  refine (conj _ (conj _ (conj _ (conj _ (conj _ (conj _ (conj _ Hcount')))))));
    cbn [unique_id placed_schedule placed_agents list_citizen_ids
         placed_cells with_agent].
  { lia. }
  { by rewrite seqZ_snoc, Hs. }
  { intros i. destruct (decide (i = unique_id s)) as [ -> | Hne ].
    - rewrite lookup_insert_eq. split; [ lia | eauto ].
    - rewrite lookup_insert_ne by congruence. rewrite Hk. lia. }
  { intros i. destruct (decide (i = unique_id s)) as [ -> | Hne ].
    - rewrite lookup_insert_eq. destruct a as [ c | k ]; cbn [is_cop].
      + split; [ eauto | ]. intros _. apply elem_of_app. right. by left.
      + split; [ | by intros [c [=]] ].
        intros Hin. apply Hids in Hin as [c Hc]. congruence.
    - rewrite lookup_insert_ne by congruence. rewrite <- Hids.
      destruct (is_cop a); [ reflexivity | ].
      rewrite elem_of_app, list_elem_of_singleton. naive_solver. }
  { destruct (is_cop a); [ exact Hnd | ].
    apply NoDup_app. split; [ exact Hnd | ].
    split; [ | apply NoDup_singleton ].
    intros i Hi Hi'. apply list_elem_of_singleton in Hi'. subst i.
    apply Hids in Hi as [c Hc]. congruence. }
  { intros i b. destruct (decide (i = unique_id s)) as [ -> | Hne ].
    - rewrite lookup_insert_eq. by intros [= <-].
    - rewrite lookup_insert_ne by congruence. apply Hf. }
  intros p i. split.
  - destruct (decide (p = xy)) as [ -> | Hpq ].
    + rewrite lookup_insert_eq. intros [= <-]. exists a.
      by rewrite lookup_insert_eq.
    + rewrite lookup_insert_ne by congruence. intros Hc.
      apply Hsync in Hc as (b & Hb & Hpb). exists b.
      split; [ | exact Hpb ]. rewrite lookup_insert_ne; [ exact Hb | ].
      congruence.
  - intros (b & Hb & Hpb).
    destruct (decide (i = unique_id s)) as [ -> | Hne ].
    + rewrite lookup_insert_eq in Hb. injection Hb as <-.
      rewrite Hp in Hpb. subst p. by rewrite lookup_insert_eq.
    + rewrite lookup_insert_ne in Hb by congruence.
      assert (placed_cells s !! p = Some i) as Hc by (apply Hsync; eauto).
      rewrite lookup_insert_ne; [ exact Hc | ]. congruence.
Qed.

Lemma fresh_new_Citizen (cfg : Config) (xy : Z * Z) (h ra : R) :
  0 <= h < 1 → 0 <= ra < 1 →
  fresh_citizen cfg (new_Citizen xy h (cfg_legitimacy cfg) ra
                       (cfg_active_threshold cfg) (cfg_citizen_vision cfg)).
Proof. intros Hh Hra. by repeat split; try apply Hh; try apply Hra. Qed.

Lemma place_ok (cfg : Config) (s : Placement) (xy : Z * Z) :
  placed_ok cfg s → placed_cells s !! xy = None →
  placed_ok cfg (place cfg s xy)
  ∧ ∀ p, p ≠ xy → placed_cells s !! p = None →
         placed_cells (place cfg s xy) !! p = None.
Proof.
  intros Hok Hxy.
  destruct (place_cases cfg s xy)
    as [ [g ->] | [ (h & ra & g & Hh & Hra & ->)
                  | (Hu & Hi & Ha & Hc & Hs) ] ].
  - split; [ by apply with_agent_ok | ].
    intros p Hp Hn. cbn [placed_cells with_agent].
    by rewrite lookup_insert_ne.
  - split.
    + apply with_agent_ok; try done; by apply fresh_new_Citizen.
    + intros p Hp Hn. cbn [placed_cells with_agent].
      by rewrite lookup_insert_ne.
  - split; [ | intros p _ Hn; by rewrite Hc ].
    unfold placed_ok, placed_citizens. by rewrite Hu, Hi, Ha, Hc, Hs.
Qed.

Lemma fold_place_ok (cfg : Config) (cells : list (Z * Z)) (s : Placement) :
  NoDup cells → placed_ok cfg s →
  (∀ xy, xy ∈ cells → placed_cells s !! xy = None) →
  placed_ok cfg (fold_left (place cfg) cells s).
Proof.
  intros Hnd. revert s. induction Hnd as [ | xy l Hnot Hnd IH ]; intros s Hok He.
  - exact Hok.
  - cbn [fold_left].
    destruct (place_ok cfg s xy Hok (He xy ltac:(by left))) as [Hok' Hrest].
    apply IH; [ exact Hok' | ].
    intros p Hp. apply Hrest; [ by intros -> | ].
    apply He. by right.
Qed.

Lemma NoDup_coord_iter (w h : Z) : NoDup (coord_iter w h).
Proof.
  unfold coord_iter. apply NoDup_bind; [ | | apply NoDup_seqZ ].
  - intros x1 x2 [x y] _ _ H1 H2.
    apply list_elem_of_bind in H1 as (y1 & H1 & _).
    apply list_elem_of_bind in H2 as (y2 & H2 & _).
    apply list_elem_of_singleton in H1, H2. congruence.
  - intros x _. apply NoDup_bind; [ | | apply NoDup_seqZ ].
    + intros y1 y2 p _ _ H1 H2.
      apply list_elem_of_singleton in H1, H2. congruence.
    + intros y _. apply NoDup_singleton.
Qed.

Lemma placement_ok (env : Env) (cfg : Config) :
  placed_ok cfg (placement env cfg).
Proof.
  unfold placement. apply fold_place_ok; [ apply NoDup_coord_iter | | done ].
  unfold placed_ok. cbn [unique_id placed_schedule placed_agents
    list_citizen_ids placed_cells].
  split; [ done | ]. split; [ reflexivity | ].
  split; [ intros i; rewrite lookup_empty; split;
           [ by intros [? ?] | lia ] | ].
  split; [ intros i; rewrite lookup_empty; split;
           [ by intros ?%elem_of_nil | by intros [? ?] ] | ].
  split; [ apply NoDup_nil_2 | ].
  split; [ intros i a; by rewrite lookup_empty | ].
  split; [ | reflexivity ].
  intros p i. rewrite lookup_empty. split; [ done | ].
  intros (a & Ha & _). by rewrite lookup_empty in Ha.
Qed.
End Placement.

(** ** The constructed model *)

Section Constructed.
Local Open Scope R_scope.

(** the model that [__init__] returns, attribute by attribute *)
Lemma init_fields (env : Env) (cfg : Config) (m : Model) :
  init env cfg = Ok m →
  ∃ g row,
    build_graph env cfg (list_citizen_ids (placement env cfg)) = Ok g
    ∧ G m = g
    ∧ number_of_edges m = Nx.number_of_edges g
    ∧ number_of_edges m ≠ 0%Z
    ∧ agents m = placed_agents (placement env cfg)
    ∧ schedule m = placed_schedule (placement env cfg)
    ∧ cells (grid m) = placed_cells (placement env cfg)
    ∧ link_to_censor m = ∅
    ∧ iteration m = 0%Z
    ∧ running m = true
    ∧ datacollector m = [row]
    ∧ row_Quiescent row = count_type_citizens m Quiescent
    ∧ row_Active row = count_type_citizens m Active
    ∧ row_Jailed row = count_jailed m
    ∧ citizen_count m
      = (count_type_citizens m Quiescent + count_type_citizens m Active
         + count_jailed m)%Z
    ∧ cop_count m = count_cops m
    ∧ activation_type m = cfg_activation_type cfg
    ∧ strong_weak_ratio m = cfg_strong_weak_ratio cfg
    ∧ max_jail_term m = cfg_max_jail_term cfg.
Proof.
  unfold init. intros H.
  apply bind_Ok in H as ([] & _ & H). cbv zeta in H.
  apply bind_Ok in H as (g & Eg & H). apply bind_Ok in H as (m0 & Ec & H).
  injection H as <-.
  unfold collect in Ec. do 4 (bind_case Ec). injection Ec as <-.
  match goal with E : get_active_link_ratio _ = Ok _ |- _ =>
    unfold get_active_link_ratio in E;
    destruct (decide _) as [ | Hne ] in E; [ discriminate | ] end.
  eexists g, _. split; [ exact Eg | ].
  split; [ reflexivity | ]. split; [ reflexivity | ].
  split; [ exact Hne | ].
  repeat (split; [ reflexivity | ]). reflexivity.
Qed.

Lemma canonical_relabel_nodes (ns : list Z) (es : list (Z * Z))
    (mapping : gmap Z Z) :
  canonical (Nx.relabel_nodes ns es mapping).
Proof.
  unfold Nx.relabel_nodes. induction es as [ | e es IH ]; simpl.
  - intros k Hk. simpl in Hk. by apply elem_of_dom in Hk as [? ?].
  - by apply canonical_add_edge.
Qed.

Lemma relabel_nodes_nodes (ns : list Z) (es : list (Z * Z))
    (mapping : gmap Z Z) (i : Z) :
  i ∈ Nx.relabel mapping <$> ns →
  i ∈ Nx.nodes (Nx.relabel_nodes ns es mapping).
Proof.
  intros Hi. unfold Nx.relabel_nodes.
  induction es as [ | e es IH ]; simpl; set_solver.
Qed.

Lemma relabel_zip (ns ids : list Z) (i : Z) :
  NoDup ns → length ns = length ids → i ∈ ids →
  i ∈ Nx.relabel (list_to_map (reverse (zip ns ids))) <$> ns.
Proof.
  intros Hnd Hlen Hi.
  apply list_elem_of_lookup_1 in Hi as [j Hj].
  destruct (lookup_lt_is_Some_2 ns j) as [x Hx].
  { rewrite Hlen. by eapply lookup_lt_Some. }
  apply list_elem_of_fmap. exists x.
  split; [ | by eapply list_elem_of_lookup_2 ].
  unfold Nx.relabel.
  assert (list_to_map (reverse (zip ns ids)) !! x = Some i :> option Z) as ->;
    [ | reflexivity ].
  apply elem_of_list_to_map_1.
  - rewrite fmap_reverse, fst_zip by lia. by rewrite reverse_Permutation.
  - apply elem_of_reverse. apply (list_elem_of_lookup_2 _ j).
    apply lookup_zip_with_Some. by exists x, i.
Qed.

(** agents that are as their constructors leave them: nobody is Active
    and nobody is in jail *)
Lemma fresh_counts (cfg : Config) (l : list Agent) (z : Z) :
  Forall (fresh_agent cfg) l →
  fold_left
    (λ count a,
       match a with
       | ACop _ => count
       | ACitizen c =>
           if decide (0 < jail_sentence c)%Z then count
           else if decide (condition c = Active) then (count + 1)%Z
                else count
       end) l z = z
  ∧ fold_left
      (λ count a,
         match a with
         | ACitizen c =>
             if decide (0 < jail_sentence c)%Z then (count + 1)%Z else count
         | ACop _ => count
         end) l z = z.
Proof.
  intros Hl. revert z. induction Hl as [ | a l Ha Hl IH ]; intros z;
    [ by split | ].
  cbn [fold_left]. destruct a as [ c | k ]; [ | apply IH ].
  destruct Ha as (Hj & Hq & _).
  destruct (decide (0 < jail_sentence c)%Z); [ lia | ].
  destruct (decide (condition c = Active)); [ congruence | ]. apply IH.
Qed.
End Constructed.

Section ConstructedModel.
Local Open Scope R_scope.

Lemma init_fresh (env : Env) (cfg : Config) (m : Model) :
  init env cfg = Ok m → Forall (fresh_agent cfg) (schedule_agents m).
Proof.
  intros H. apply init_fields in H
    as (g & row & _ & _ & _ & _ & Hag & _).
  destruct (placement_ok env cfg) as (_ & _ & _ & _ & _ & Hf & _).
  apply Forall_forall. intros a Ha. unfold schedule_agents in Ha.
  apply list_elem_of_omap in Ha as (i & _ & Hi). rewrite Hag in Hi.
  by eapply Hf.
Qed.

Lemma init_consistent (env : Env) (cfg : Config) (m : Model) :
  init env cfg = Ok m → consistent m ∧ grid_sync m.
Proof.
  intros H.
  apply init_fields in H
    as (g & row & Hg & HG & _ & _ & Hag & Hs & Hc & _).
  destruct (placement_ok env cfg)
    as (Hu & Hsch & Hk & Hids & Hnd & Hf & Hsync & Hcount).
  split; [ | unfold grid_sync; by rewrite Hc, Hag ].
  split.
  - rewrite HG. unfold build_graph in Hg.
    destruct (watts_strogatz_graph env _ _ _) as [ [ns es] | e ];
      [ | discriminate ].
    injection Hg as <-. apply canonical_relabel_nodes.
  - split; [ rewrite Hs, Hsch; apply NoDup_seqZ | ].
    split.
    + intros i Hi'. rewrite Hag in Hi'. apply Hk in Hi'.
      rewrite Hs, Hsch. apply elem_of_seqZ. lia.
    + intros i c Hc'. unfold lookup_citizen in Hc'. rewrite Hag in Hc'.
      destruct (placed_agents (placement env cfg) !! i)
        as [ [ c0 | ? ] | ] eqn:E; try discriminate.
      injection Hc' as ->. apply Hf in E as (Hj & _). rewrite Hj.
      split; [ lia | lia ].
Qed.

(** X12.  What the constructor returns, when it returns, is a
    well-formed model: the scheduler holds the ids 0, 1, 2, ... once
    each, every agent stands on the cell that holds it and no cell holds
    two, nobody is in jail or Active, the edges of the network are stored
    in order and at least one exists, the pending set is empty, and the
    attributes [citizen_count] and [cop_count] and the first collected
    row agree with the agents: [citizen_count] is the length of
    [list_citizen_ids], the number of nodes asked of the generator. *)
Theorem constructed_model_is_well_formed (env : Env) (cfg : Config)
    (m : Model) :
  init env cfg = Ok m →
  consistent m
  ∧ grid_sync m
  ∧ schedule m = seqZ 0 (Z.of_nat (length (schedule m)))
  ∧ link_to_censor m = ∅
  ∧ iteration m = 0%Z
  ∧ running m = true
  ∧ number_of_edges m = Nx.number_of_edges (G m)
  ∧ number_of_edges m ≠ 0%Z
  ∧ citizen_count m = count_citizens m
  ∧ citizen_count m
    = Z.of_nat (length (list_citizen_ids (placement env cfg)))
  ∧ cop_count m = count_cops m
  ∧ ∃ row, datacollector m = [row]
           ∧ row_Quiescent row = citizen_count m
           ∧ row_Active row = 0%Z
           ∧ row_Jailed row = 0%Z.
Proof.
  intros H. pose proof (init_fresh _ _ _ H) as Hfresh.
  destruct (init_consistent _ _ _ H) as [Hcons Hsync'].
  apply init_fields in H
    as (g & row & Hg & HG & Hn & Hne & Hag & Hs & Hc & Hl & Hi & Hr & Hd
        & HQ & HA & HJ & Hcc & Hcop & _).
  destruct (placement_ok env cfg)
    as (Hu & Hsch & Hk & Hids & Hnd & Hf & Hsync & Hcount).
  assert (count_type_citizens m Active = 0%Z ∧ count_jailed m = 0%Z)
    as [Hact Hjail] by apply (fresh_counts cfg _ 0%Z Hfresh).
  pose proof (count_citizens_split m) as Hpart.
  assert (count_citizens m
          = Z.of_nat (length (list_citizen_ids (placement env cfg)))) as Hcit.
  { rewrite <- Hcount. unfold count_citizens, schedule_agents, placed_citizens.
    by rewrite Hag, Hs. }
  split; [ exact Hcons | ]. split; [ exact Hsync' | ].
  split.
  { rewrite Hs, Hsch, length_seqZ. f_equal. lia. }
  split; [ exact Hl | ]. split; [ exact Hi | ]. split; [ exact Hr | ].
  split; [ by rewrite HG | ]. split; [ exact Hne | ].
  split; [ lia | ]. split; [ lia | ]. split; [ exact Hcop | ].
  exists row. split; [ exact Hd | ]. split; [ lia | ]. split; lia.
Qed.

(** X13.  Every agent of a constructed model is as its constructor
    leaves it: a citizen is Quiescent and free, has no estimate yet,
    carries the legitimacy, threshold and vision of the configuration,
    a hardship and a risk aversion drawn from [0,1), and the grievance
    [hardship * (1 - legitimacy)], which lies in [0,1) when the
    legitimacy lies in [0,1]; a cop has the cop vision.  The agent
    stands on the cell that holds it, and it is in [list_citizen_ids]
    exactly when it is a citizen. *)
Theorem constructed_agents (env : Env) (cfg : Config) (m : Model) (i : Z)
    (a : Agent) :
  init env cfg = Ok m → agents m !! i = Some a →
  fresh_agent cfg a
  ∧ cells (grid m) !! agent_pos a = Some i
  ∧ (i ∈ list_citizen_ids (placement env cfg) ↔ is_cop a = false)
  ∧ ∀ c, a = ACitizen c → 0 <= cfg_legitimacy cfg <= 1 →
         0 <= grievance c < 1.
Proof.
  intros H Ha.
  apply init_fields in H
    as (g & row & _ & _ & _ & _ & Hag & _ & Hc & _).
  destruct (placement_ok env cfg) as (_ & _ & _ & Hids & _ & Hf & Hsync & _).
  rewrite Hag in Ha. pose proof (Hf _ _ Ha) as Hfa.
  split; [ exact Hfa | ].
  split; [ rewrite Hc; apply Hsync; eauto | ].
  split.
  { rewrite Hids. destruct a as [ c | k ]; cbn [is_cop].
    - split; [ done | eauto ].
    - split; [ intros [c Hc']; congruence | done ]. }
  intros c -> HL.
  destruct Hfa as (_ & _ & _ & _ & _ & Hh & _ & _ & _ & _ & ->). nra.
Qed.

Lemma steps_consistent (n : nat) (m m' : Model) :
  steps n m = Ok m' → consistent m → consistent m'.
Proof.
  revert m. induction n as [ | n IH ]; intros m; simpl.
  - by intros [= <-].
  - intros H Hc. bind_case H. apply (IH _ H). by eapply step_consistent.
Qed.

Lemma init_arrest_prob_constant (env : Env) (cfg : Config) (m : Model) :
  init env cfg = Ok m → arrest_prob_constant m = cfg_arrest_prob_constant cfg.
Proof.
  unfold init. intros H.
  apply bind_Ok in H as ([] & _ & H). cbv zeta in H.
  apply bind_Ok in H as (g & Eg & H). apply bind_Ok in H as (m0 & Ec & H).
  injection H as <-.
  unfold collect in Ec. do 4 (bind_case Ec). by injection Ec as <-.
Qed.

Lemma init_runnable (env : Env) (cfg : Config) (m : Model) :
  0 <= cfg_arrest_prob_constant cfg →
  (0 ≤ cfg_max_jail_term cfg)%Z →
  (cfg_activation_type cfg = WithSWN →
   small_world_generator (watts_strogatz_graph env)
   ∧ 0 <= cfg_strong_weak_ratio cfg) →
  init env cfg = Ok m → runnable m.
Proof.
  intros Hk Hmax Hnet H.
  pose proof (init_consistent _ _ _ H) as [ (Hcan & _) _ ].
  pose proof (init_arrest_prob_constant _ _ _ H) as Hconst.
  apply init_fields in H
    as (g & row & Hg & HG & Hsize & Hne & Hag & _ & _ & Hl & _ & _ & _ & _ & _
        & _ & _ & _ & Hmode & Hw & Hmj).
  destruct (placement_ok env cfg) as (_ & _ & _ & Hids & Hnd & _).
  split; [ exact Hcan | ]. rewrite Hmode, Hw, Hmj, Hl, Hconst.
  split; [ | split; [ exact Hk
                    | split; [ exact Hmax | split; [ exact Hne | set_solver ] ] ] ].
  intros Hm. destruct (Hnet Hm) as [ [_ Hgen] Hratio]. split; [ | exact Hratio ].
  intros i [c Hc]. unfold lookup_citizen in Hc. rewrite Hag in Hc.
  destruct (placed_agents (placement env cfg) !! i) as [ [ c0 | ? ] | ] eqn:E;
    try discriminate.
  assert (i ∈ list_citizen_ids (placement env cfg)) as Hi
    by (apply Hids; eauto).
  rewrite HG. unfold build_graph in Hg.
  destruct (watts_strogatz_graph env _ _ _) as [ [ns es] | e ] eqn:Ew;
    [ | discriminate ].
  injection Hg as <-.
  assert (es ≠ []) as Hes.
  { intros ->. apply Hne. by rewrite Hsize. }
  apply Hgen in Ew as [-> _]; [ | exact Hes ].
  apply relabel_nodes_nodes, relabel_zip; [ apply NoDup_seqZ | | exact Hi ].
  rewrite length_seqZ. lia.
Qed.

(** X14.  A simulation that has been constructed never crashes.  If
    the arrest constant and the largest sentence of the configuration
    are not negative and, for network mode, the generator keeps the
    contract of [networkx.watts_strogatz_graph] (a graph with an edge has
    the nodes 0 .. n-1) and the strong-to-weak ratio is not negative,
    then from the model that [__init__] returns any number of ticks can
    be made, none raises, and the model stays well formed. *)
Theorem constructed_model_never_raises (env : Env) (cfg : Config)
    (m : Model) (n : nat) :
  0 <= cfg_arrest_prob_constant cfg →
  (0 ≤ cfg_max_jail_term cfg)%Z →
  (cfg_activation_type cfg = WithSWN →
   small_world_generator (watts_strogatz_graph env)
   ∧ 0 <= cfg_strong_weak_ratio cfg) →
  init env cfg = Ok m →
  ∃ m', steps n m = Ok m' ∧ runnable m' ∧ consistent m' ∧ grid_sync m'.
Proof.
  intros Hk Hmax Hnet H.
  pose proof (init_runnable _ _ _ Hk Hmax Hnet H) as Hr.
  pose proof (init_consistent _ _ _ H) as [Hc Hs].
  clear H. revert m Hr Hc Hs. induction n as [ | n IH ]; intros m Hr Hc Hs.
  - exists m. split; [ reflexivity | ]. split; [ exact Hr | by split ].
  - destruct (step_succeeds m Hr) as [m1 H1].
    destruct (IH m1) as (m' & Hm' & Hgood).
    + by eapply step_runnable.
    + by eapply step_consistent.
    + by eapply step_sync.
    + exists m'. split; [ | exact Hgood ]. cbn [steps]. by rewrite H1.
Qed.
End ConstructedModel.

Section ConstructedExamples.
Import Examples.
Local Open Scope R_scope.

(** three citizens in a row, joined in a ring *)
Lemma row_of_three (mode : ActivationType) :
  succeeds (init ring_env (row_config 3 1 2 mode)).
Proof.
  apply (init_succeeds ring_env (row_config 3 1 2 mode)
           (graph_of [0; 1; 2]%Z [((0, 1), 0); ((1, 2), 0); ((0, 2), 0)]%Z)).
  - simpl. lra.
  - unfold placement.
    rewrite (placement_full_list (row_config 3 1 2 mode)) by reflexivity.
    vm_compute. reflexivity.
  - vm_compute. discriminate.
Qed.

Lemma placement_full_unique_id (cfg : Config) (cells : list (Z * Z))
    (s : Placement) :
  cfg_cop_density cfg = 0 → cfg_citizen_density cfg = 1 →
  unique_id (fold_left (place cfg) cells s)
  = (unique_id s + Z.of_nat (length cells))%Z.
Proof.
  intros Hc Hd. revert s. induction cells as [ | xy l IH ]; intros s.
  - simpl. lia.
  - cbn [fold_left length]. rewrite IH.
    destruct (place_full cfg s xy Hc Hd) as [_ ->]. lia.
Qed.

Lemma row_of_three_agent (mode : ActivationType) (m : Model) :
  init ring_env (row_config 3 1 2 mode) = Ok m → is_Some (agents m !! 0%Z).
Proof.
  intros H. apply init_fields in H as (g & row & _ & _ & _ & _ & -> & _).
  destruct (placement_ok ring_env (row_config 3 1 2 mode))
    as (_ & _ & Hk & _).
  apply Hk. unfold placement.
  rewrite (placement_full_unique_id (row_config 3 1 2 mode)) by reflexivity.
  vm_compute. by split.
Qed.

Lemma constructed_model_is_well_formed_witness :
  ∃ m,
    init ring_env (row_config 3 1 2 WithSWN) = Ok m
    ∧ consistent m
    ∧ grid_sync m
    ∧ schedule m = seqZ 0 (Z.of_nat (length (schedule m)))
    ∧ link_to_censor m = ∅
    ∧ iteration m = 0%Z
    ∧ running m = true
    ∧ number_of_edges m = Nx.number_of_edges (G m)
    ∧ number_of_edges m ≠ 0%Z
    ∧ citizen_count m = count_citizens m
    ∧ citizen_count m
      = Z.of_nat (length (list_citizen_ids
                            (placement ring_env (row_config 3 1 2 WithSWN))))
    ∧ cop_count m = count_cops m
    ∧ ∃ row, datacollector m = [row]
             ∧ row_Quiescent row = citizen_count m
             ∧ row_Active row = 0%Z
             ∧ row_Jailed row = 0%Z.
Proof.
  destruct (row_of_three WithSWN) as [m Hm].
  exists m. split; [ exact Hm | ].
  apply (constructed_model_is_well_formed ring_env
           (row_config 3 1 2 WithSWN) m Hm).
Defined.

Lemma constructed_agents_witness :
  ∃ m a,
    init ring_env (row_config 3 1 2 WithSWN) = Ok m
    ∧ agents m !! 0%Z = Some a
    ∧ fresh_agent (row_config 3 1 2 WithSWN) a
    ∧ cells (grid m) !! agent_pos a = Some 0%Z
    ∧ (0%Z ∈ list_citizen_ids (placement ring_env (row_config 3 1 2 WithSWN))
       ↔ is_cop a = false)
    ∧ ∀ c, a = ACitizen c →
           0 <= cfg_legitimacy (row_config 3 1 2 WithSWN) <= 1 →
           0 <= grievance c < 1.
Proof.
  destruct (row_of_three WithSWN) as [m Hm].
  destruct (row_of_three_agent WithSWN m Hm) as [a Ha].
  exists m, a. split; [ exact Hm | ]. split; [ exact Ha | ].
  apply (constructed_agents ring_env (row_config 3 1 2 WithSWN) m 0 a Hm Ha).
Defined.

Lemma constructed_model_never_raises_witness :
  ∃ m m',
    init ring_env (row_config 3 1 2 WithSWN) = Ok m
    ∧ steps 25 m = Ok m' ∧ runnable m' ∧ consistent m' ∧ grid_sync m'.
Proof.
  destruct (row_of_three WithSWN) as [m Hm].
  destruct (constructed_model_never_raises ring_env
              (row_config 3 1 2 WithSWN) m 25) as (m' & Hm').
  - simpl. lra.
  - simpl. lia.
  - intros _. split; [ apply ring_lattice_contract | simpl; lra ].
  - exact Hm.
  - exists m, m'. by split.
Defined.
End ConstructedExamples.

(** ** The decision of a citizen and the arrest by a cop *)

Section Decisions.
Local Open Scope R_scope.

(** X15.  The rule of the class docstring, "if grievance - risk >
    threshold, rebel", is what a free Quiescent citizen does: after its
    activation it holds an estimate [p] of the arrest probability, it is
    still free, and it is Active exactly when
    [grievance - risk_aversion * p > threshold]. *)
Theorem activation_rule (uid : Z) (c : Citizen) (m m' : Model) :
  Citizen_step uid c m = Ok m' →
  jail_sentence c = 0%Z → condition c = Quiescent →
  ∃ c' p,
    lookup_citizen m' uid = Some c'
    ∧ arrest_probability c' = Some p
    ∧ jail_sentence c' = 0%Z
    ∧ (condition c' = Active
       ↔ grievance c - risk_aversion c * p > threshold c).
Proof.
  intros H Hj Hq.
  apply Citizen_step_shape in H
    as (c2 & mid & Hag & _ & _
        & [ (Hne & _) | (_ & (x & p & s & w & ->) & ->) ]);
    [ contradiction | ].
  destruct (try_move_off_jail uid (update_neighbors m (pos c) (vision c)).2
              mid (decide_condition (set_estimate x p s w c)))
    as (c' & Hc' & Hcond & Hjail & _ & Hp & _).
  { unfold lookup_citizen. by rewrite Hag, lookup_insert_eq. }
  exists c', p. split; [ exact Hc' | ].
  rewrite Hp, Hjail, Hcond. clear Hc' Hp Hjail Hcond Hag.
  unfold decide_condition.
  change (condition (set_estimate x p s w c)) with (condition c).
  change (arrest_probability (set_estimate x p s w c)) with (Some p).
  change (grievance (set_estimate x p s w c)) with (grievance c).
  change (risk_aversion (set_estimate x p s w c)) with (risk_aversion c).
  change (threshold (set_estimate x p s w c)) with (threshold c).
  rewrite Hq.
  destruct (Rgt_dec (grievance c - risk_aversion c * p) (threshold c))
    as [ Hgt | Hle ].
  - split; [ reflexivity | ]. split; [ exact Hj | ]. by split.
  - split; [ reflexivity | ]. split; [ exact Hj | ].
    cbn [condition set_estimate]. rewrite Hq. split; [ discriminate | done ].
Qed.

Lemma activation_rule_witness :
  ∃ m' c' p,
    Citizen_step 0 (Examples.citizen_at (0, 0)%Z Quiescent 0)
      Examples.both_quiet = Ok m'
    ∧ lookup_citizen m' 0 = Some c'
    ∧ arrest_probability c' = Some p
    ∧ jail_sentence c' = 0%Z
    ∧ (condition c' = Active
       ↔ grievance (Examples.citizen_at (0, 0)%Z Quiescent 0)
         - risk_aversion (Examples.citizen_at (0, 0)%Z Quiescent 0) * p
         > threshold (Examples.citizen_at (0, 0)%Z Quiescent 0)).
Proof.
  destruct (Citizen_step_succeeds 0 (Examples.citizen_at (0, 0)%Z Quiescent 0)
              Examples.both_quiet runnable_both_quiet eq_refl) as [m' Hm'].
  destruct (activation_rule 0 (Examples.citizen_at (0, 0)%Z Quiescent 0)
              Examples.both_quiet m' Hm' eq_refl eq_refl)
    as (c' & p & Hrule).
  exists m', c', p. by split.
Defined.

Lemma arrestee_in (m : Model) (k : Cop) (a : Z) :
  arrestee_of m k = Some a → a ∈ active_neighbors m k.
Proof.
  unfold arrestee_of.
  destruct (active_neighbors m k) as [ | q l ] eqn:E; [ discriminate | ].
  intros H.
  destruct (choice_is_Some (q :: l) (random m) ltac:(done)) as (x & Hx & Hin).
  congruence.
Qed.

Lemma arrestee_none (m : Model) (k : Cop) :
  arrestee_of m k = None → active_neighbors m k = [].
Proof.
  unfold arrestee_of.
  destruct (active_neighbors m k) as [ | q l ] eqn:E; [ done | ].
  destruct (choice_is_Some (q :: l) (random m) ltac:(done)) as (x & Hx & _).
  congruence.
Qed.

(** X16.  A cop that has a free Active citizen in its neighbourhood
    always arrests one, and exactly one: the arrestee is such a citizen,
    it becomes Quiescent with a sentence between 0 and [max_jail_term]
    (0 included: then it is not in jail at all), and every other citizen
    is left as it is.  A cop with no such citizen in sight leaves every
    citizen as it is. *)
Theorem cop_arrests_one_active_citizen (uid : Z) (k : Cop) (m m' : Model) :
  agents m !! uid = Some (ACop k) → Cop_step uid k m = Ok m' →
  (active_neighbors m k = []
   ∧ ∀ i, lookup_citizen m' i = lookup_citizen m i)
  ∨ ∃ a c s,
      a ∈ (update_neighbors m (cop_pos k) (cop_vision k)).1
      ∧ lookup_citizen m a = Some c
      ∧ condition c = Active ∧ jail_sentence c = 0%Z
      ∧ (0 ≤ s ≤ max_jail_term m)%Z
      ∧ lookup_citizen m' a
        = Some (set_condition Quiescent (set_jail_sentence s c))
      ∧ ∀ i, i ≠ a → lookup_citizen m' i = lookup_citizen m i.
Proof.
  intros Hk H.
  assert (∀ mid i, lookup_citizen mid uid = None →
            lookup_citizen
              (try_move uid (update_neighbors m (cop_pos k) (cop_vision k)).2
                 mid) i
            = lookup_citizen mid i) as Hmove.
  { intros mid i Hnone. destruct (decide (i = uid)) as [ -> | Hne ].
    - rewrite Hnone. unfold lookup_citizen in Hnone |- *.
      destruct (try_move_self uid
                  (update_neighbors m (cop_pos k) (cop_vision k)).2 mid)
        as [ -> | (q & _ & _ & ->) ]; [ exact Hnone | ].
      destruct (agents mid !! uid) as [ [ ? | ? ] | ]; try discriminate;
        reflexivity.
    - apply lookup_citizen_agents. by apply try_move_other. }
  assert (lookup_citizen m uid = None) as Hcop
    by (unfold lookup_citizen; by rewrite Hk).
  apply Cop_step_shape in H
    as (mid & -> & _ & _
        & [ [Hnone ->] | (a & c & s & Harr & Hc & Hact & Hs & Hag) ]).
  - left. split; [ by apply arrestee_none | ].
    intros i. by apply Hmove.
  - right. exists a, c, s.
    apply arrestee_in in Harr. unfold active_neighbors in Harr.
    apply list_elem_of_filter in Harr as [_ Hin].
    unfold active_free in Hact. apply andb_true_iff in Hact as [Ha Hj].
    apply bool_decide_eq_true in Ha, Hj.
    assert (a ≠ uid) as Hau by congruence.
    assert (lookup_citizen mid uid = None) as Hmid.
    { unfold lookup_citizen. by rewrite Hag, lookup_insert_ne, Hk. }
    split; [ exact Hin | ]. split; [ exact Hc | ]. split; [ exact Ha | ].
    split; [ exact Hj | ]. split; [ exact Hs | ].
    split.
    + rewrite Hmove by exact Hmid. unfold lookup_citizen.
      by rewrite Hag, lookup_insert_eq.
    + intros i Hi. rewrite Hmove by exact Hmid.
      apply lookup_citizen_agents. by rewrite Hag, lookup_insert_ne.
Qed.
End Decisions.

Section DecisionExamples.
Import Examples.

Lemma cop_arrests_one_active_citizen_witness :
  ∃ m',
    Cop_step 0 (mkCop (0, 0) 1) patrol = Ok m'
    ∧ ((active_neighbors patrol (mkCop (0, 0) 1) = []
        ∧ ∀ i, lookup_citizen m' i = lookup_citizen patrol i)
       ∨ ∃ a c s,
           a ∈ (update_neighbors patrol (cop_pos (mkCop (0, 0) 1))
                  (cop_vision (mkCop (0, 0) 1))).1
           ∧ lookup_citizen patrol a = Some c
           ∧ condition c = Active ∧ jail_sentence c = 0
           ∧ 0 ≤ s ≤ max_jail_term patrol
           ∧ lookup_citizen m' a
             = Some (set_condition Quiescent (set_jail_sentence s c))
           ∧ ∀ i, i ≠ a → lookup_citizen m' i = lookup_citizen patrol i).
Proof.
  destruct (Cop_step_succeeds 0 (mkCop (0, 0) 1) patrol) as [m' Hm'].
  { simpl. lia. }
  exists m'. split; [ exact Hm' | ].
  apply (cop_arrests_one_active_citizen 0 (mkCop (0, 0) 1) patrol m');
    [ reflexivity | exact Hm' ].
Defined.
End DecisionExamples.

(** ** The estimate as a function of what the citizen sees *)

Section Monotone.
Local Open Scope R_scope.

Lemma Int_part_le (x y : R) : x <= y → (Int_part x ≤ Int_part y)%Z.
Proof.
  intros Hxy.
  destruct (base_Int_part x) as [Hx _]. destruct (base_Int_part y) as [_ Hy].
  assert (IZR (Int_part x) < IZR (Int_part y + 1)) as Hlt
    by (rewrite plus_IZR; lra).
  apply lt_IZR in Hlt. lia.
Qed.

Lemma saturation_le (k : R) (n n' : Z) :
  0 <= k → (n ≤ n')%Z → saturation k n <= saturation k n'.
Proof.
  intros Hk Hn. unfold saturation. apply IZR_le in Hn.
  assert (-1 * k * IZR n' <= -1 * k * IZR n) as Hle by nra.
  destruct Hle as [ Hlt | -> ]; [ | lra ].
  apply exp_increasing in Hlt. lra.
Qed.

(** X17.  The estimate of the arrest probability goes the right way:
    with an arrest constant that is not negative, more cops in vision
    never lower it and more actives in vision never raise it. *)
Theorem estimate_is_monotone (k : R) (c c' : Z) (a a' : R) :
  0 <= k → (0 ≤ c ≤ c')%Z → 0 < a' <= a →
  ∃ p p', estimate k c a = Ok p ∧ estimate k c' a' = Ok p' ∧ p <= p'.
Proof.
  intros Hk Hc Ha.
  rewrite (estimate_defined k c a),  (estimate_defined k c' a');
    try lra; try (apply exponent_nonpos; [ exact Hk | lia | lra ]).
  eexists _, _. split; [ reflexivity | ]. split; [ reflexivity | ].
  apply (saturation_le k _ _ Hk). apply Int_part_le.
  assert (0 <= IZR c <= IZR c') as [H0 H1]
    by (split; apply IZR_le; lia).
  assert (/ a <= / a') as Hinv by (apply Rinv_le_contravar; lra).
  assert (0 < / a) as Hpos by (apply Rinv_0_lt_compat; lra).
  unfold Rdiv. nra.
Qed.

Lemma estimate_is_monotone_witness :
  ∃ p p', estimate 2.3 1 3 = Ok p ∧ estimate 2.3 4 2 = Ok p' ∧ p <= p'.
Proof.
  apply (estimate_is_monotone 2.3 1 4 3 2); [ lra | lia | lra ].
Defined.
End Monotone.

(** ** What an agent sees *)

Section Vision.

(** X18.  [update_neighbors] splits the neighbourhood: every cell of it
    is either reported empty or contributes its one occupant, so the two
    lists have together the length of the neighbourhood; and when the
    grid and the agents agree, the occupants reported are exactly the
    agents that stand on a cell of the neighbourhood. *)
Theorem neighbourhood_is_split (m : Model) (p : Z * Z) (v : Z) :
  (length (update_neighbors m p v).1 + length (update_neighbors m p v).2
   = length (get_neighborhood (grid m) p v))%nat
  ∧ (∀ q, q ∈ (update_neighbors m p v).2
          ↔ q ∈ get_neighborhood (grid m) p v ∧ cells (grid m) !! q = None)
  ∧ (∀ i, i ∈ (update_neighbors m p v).1
          ↔ ∃ q, q ∈ get_neighborhood (grid m) p v
                 ∧ cells (grid m) !! q = Some i)
  ∧ (grid_sync m →
     ∀ i, i ∈ (update_neighbors m p v).1
          ↔ ∃ a, agents m !! i = Some a
                 ∧ agent_pos a ∈ get_neighborhood (grid m) p v).
Proof.
  unfold update_neighbors. cbn [fst snd].
  generalize (get_neighborhood (grid m) p v). intros l.
  assert (∀ i, i ∈ get_cell_list_contents (grid m) l
               ↔ ∃ q, q ∈ l ∧ cells (grid m) !! q = Some i) as Hocc.
  { intros i. unfold get_cell_list_contents. apply list_elem_of_omap. }
  split.
  { clear Hocc. unfold get_cell_list_contents, is_cell_empty.
    induction l as [ | q l IH ]; [ reflexivity | ].
    cbn [omap list_omap]. rewrite filter_cons.
    destruct (cells (grid m) !! q) as [ i | ] eqn:E.
    - rewrite decide_False.
      + cbn [length Nat.add]. f_equal. exact IH.
      + rewrite bool_decide_eq_true. congruence.
    - rewrite decide_True by (by rewrite bool_decide_eq_true).
      cbn [length]. rewrite Nat.add_succ_r. f_equal. exact IH. }
  split.
  { intros q. rewrite list_elem_of_filter. unfold is_cell_empty.
    rewrite bool_decide_eq_true. tauto. }
  split; [ exact Hocc | ].
  intros Hs i. rewrite Hocc. split.
  - intros (q & Hq & Hc). apply Hs in Hc as (a & Ha & <-). eauto.
  - intros (a & Ha & Hin). exists (agent_pos a). split; [ exact Hin | ].
    apply Hs. eauto.
Qed.
End Vision.

(** ** The canvas and the chart *)

Section Canvas.

Lemma color_of (a : Agent) :
  citizen_cop_portrayal (Some a) ≫= p_Color
  = Some match a with
         | ACop _ => COP_COLOR
         | ACitizen c =>
             if decide (jail_sentence c ≠ 0) then JAIL_COLOR
             else if decide (condition c = Quiescent) then AGENT_QUIET_COLOR
                  else AGENT_REBEL_COLOR
         end.
Proof.
  destruct a as [ c | k ]; [ | reflexivity ].
  unfold citizen_cop_portrayal.
  destruct (decide (jail_sentence c ≠ 0)); reflexivity.
Qed.

Lemma drawn_cons (col : Z) (a : Agent) (l : list Agent) :
  length (filter (λ a, (citizen_cop_portrayal (Some a) ≫= p_Color) = Some col)
            (a :: l))
  = ((if decide (match a with
                 | ACop _ => COP_COLOR
                 | ACitizen c =>
                     if decide (jail_sentence c ≠ 0%Z) then JAIL_COLOR
                     else if decide (condition c = Quiescent)
                          then AGENT_QUIET_COLOR
                          else AGENT_REBEL_COLOR
                 end = col) then 1 else 0)
     + length (filter (λ a, (citizen_cop_portrayal (Some a) ≫= p_Color)
                            = Some col) l))%nat.
Proof.
  rewrite filter_cons, color_of.
  destruct (decide (Some _ = Some col)) as [ [= H] | H ];
    destruct (decide (_ = col)) as [ H' | H' ]; try reflexivity; congruence.
Qed.

Ltac colours :=
  unfold JAIL_COLOR, AGENT_QUIET_COLOR, AGENT_REBEL_COLOR, COP_COLOR;
  repeat first [ rewrite decide_True by reflexivity
               | rewrite decide_False by lia ];
  cbn [Nat.add]; lia.

Lemma drawn_counts (l : list Agent) :
  Forall (λ a, ∀ c, a = ACitizen c → 0 ≤ jail_sentence c) l →
  ∀ z,
    fold_left
      (λ count a,
         match a with
         | ACop _ => count
         | ACitizen c =>
             if decide (0 < jail_sentence c) then count
             else if decide (condition c = Quiescent) then count + 1
                  else count
         end) l z
    = z + Z.of_nat (length (filter
            (λ a, (citizen_cop_portrayal (Some a) ≫= p_Color)
                  = Some AGENT_QUIET_COLOR) l))
    ∧ fold_left
        (λ count a,
           match a with
           | ACop _ => count
           | ACitizen c =>
               if decide (0 < jail_sentence c) then count
               else if decide (condition c = Active) then count + 1
                    else count
           end) l z
      = z + Z.of_nat (length (filter
              (λ a, (citizen_cop_portrayal (Some a) ≫= p_Color)
                    = Some AGENT_REBEL_COLOR) l))
    ∧ fold_left
        (λ count a,
           match a with
           | ACitizen c =>
               if decide (0 < jail_sentence c) then count + 1 else count
           | ACop _ => count
           end) l z
      = z + Z.of_nat (length (filter
              (λ a, (citizen_cop_portrayal (Some a) ≫= p_Color)
                    = Some JAIL_COLOR) l))
    ∧ fold_left (λ count a, if is_cop a then count + 1 else count) l z
      = z + Z.of_nat (length (filter
              (λ a, (citizen_cop_portrayal (Some a) ≫= p_Color)
                    = Some COP_COLOR) l)).
Proof.
  intros Hl. induction Hl as [ | a l Ha Hl IH ]; intros z.
  - cbn [fold_left filter list_filter length]. repeat split; lia.
  - cbn [fold_left]. rewrite !drawn_cons.
    destruct a as [ c | k ]; cbn [is_cop].
    + specialize (Ha c eq_refl).
      destruct (decide (0 < jail_sentence c)) as [ Hpos | Hnp ].
      * rewrite (decide_True (P := jail_sentence c ≠ 0)) by lia.
        destruct (IH z) as (-> & -> & _ & ->).
        destruct (IH (z + 1)) as (_ & _ & -> & _).
        repeat split; colours.
      * rewrite (decide_False (P := jail_sentence c ≠ 0)) by lia.
        destruct (condition c).
        -- rewrite (decide_True (P := Quiescent = Quiescent)) by done.
           rewrite (decide_False (P := Quiescent = Active)) by done.
           destruct (IH z) as (_ & -> & -> & ->).
           destruct (IH (z + 1)) as (-> & _).
           repeat split; colours.
        -- rewrite (decide_False (P := Active = Quiescent)) by done.
           rewrite (decide_True (P := Active = Active)) by done.
           destruct (IH z) as (-> & _ & -> & ->).
           destruct (IH (z + 1)) as (_ & -> & _).
           repeat split; colours.
    + destruct (IH z) as (-> & -> & -> & _).
      destruct (IH (z + 1)) as (_ & _ & _ & ->).
      repeat split; colours.
Qed.

(** X19.  The canvas and the chart tell one story.  In a model whose
    sentences are not negative, the agents that the canvas draws in the
    colour of a chart series are as many as the series counts: grey for
    Jailed, blue for Quiescent, orange for Active; the cops are the
    agents drawn in black; and an agent is drawn as a rectangle exactly
    when it is a citizen in jail. *)
Theorem canvas_agrees_with_chart (m : Model) :
  (∀ i c, lookup_citizen m i = Some c → 0 ≤ jail_sentence c) →
  (∀ s, series_count m s = drawn_in m (chart_color s))
  ∧ count_cops m = drawn_in m COP_COLOR
  ∧ ∀ a p, a ∈ schedule_agents m →
           citizen_cop_portrayal (Some a) = Some p →
           (p_Shape p = rect ↔ ∃ c, a = ACitizen c ∧ 0 < jail_sentence c).
Proof.
  intros Hpos.
  assert (Forall (λ a, ∀ c, a = ACitizen c → 0 ≤ jail_sentence c)
            (schedule_agents m)) as Hl.
  { apply Forall_forall. intros a Ha c ->. unfold schedule_agents in Ha.
    apply list_elem_of_omap in Ha as (i & _ & Hi).
    apply (Hpos i). unfold lookup_citizen. by rewrite Hi. }
  destruct (drawn_counts _ Hl 0) as (HQ & HA & HJ & HK).
  split; [ intros [ | | ]; unfold series_count, drawn_in | split ].
  - unfold count_type_citizens. rewrite HQ. apply Z.add_0_l.
  - unfold count_type_citizens. rewrite HA. apply Z.add_0_l.
  - unfold count_jailed. rewrite HJ. apply Z.add_0_l.
  - unfold count_cops, drawn_in. rewrite HK. apply Z.add_0_l.
  - intros a p Ha Hp. rewrite Forall_forall in Hl. specialize (Hl a Ha).
    destruct a as [ c | k ].
    + specialize (Hl c eq_refl). unfold citizen_cop_portrayal in Hp.
      destruct (decide (jail_sentence c ≠ 0)) as [ Hj | Hj ];
        injection Hp as <-; cbn [p_Shape JAIL_SHAPE].
      * split; [ intros _; exists c; split; [ done | lia ] | done ].
      * split; [ done | intros (c0 & [= <-] & Hc0); lia ].
    + injection Hp as <-. cbn [p_Shape].
      split; [ done | by intros (c0 & [=] & _) ].
Qed.

Lemma canvas_agrees_with_chart_witness :
  (∀ s, series_count Examples.fresh_arrest s
        = drawn_in Examples.fresh_arrest (chart_color s))
  ∧ count_cops Examples.fresh_arrest = drawn_in Examples.fresh_arrest COP_COLOR
  ∧ ∀ a p, a ∈ schedule_agents Examples.fresh_arrest →
           citizen_cop_portrayal (Some a) = Some p →
           (p_Shape p = rect ↔ ∃ c, a = ACitizen c ∧ 0 < jail_sentence c).
Proof.
  apply (canvas_agrees_with_chart Examples.fresh_arrest).
  intros i c Hc.
  by destruct consistent_fresh_arrest as (_ & _ & _ & Hj);
    destruct (Hj i c Hc).
Defined.
End Canvas.

(** ** The parameter sets of the batch script *)

Section Batch.
Context {K V : Type}.

Lemma length_bind_const {A B : Type} (f : A → list B) (l : list A) (n : nat) :
  (∀ x, length (f x) = n) → length (l ≫= f) = (length l * n)%nat.
Proof.
  intros Hf. induction l as [ | x l IH ]; [ reflexivity | ].
  cbn [mbind list_bind]. rewrite length_app, Hf.
  change (length (list_bind _ _ f l)) with (length (l ≫= f)).
  rewrite IH. cbn [length]. lia.
Qed.

Lemma fmap_bind {A B C : Type} (f : B → C) (g : A → list B) (l : list A) :
  f <$> (l ≫= g) = l ≫= (λ x, f <$> g x).
Proof.
  induction l as [ | x l IH ]; [ reflexivity | ].
  cbn [mbind list_bind]. rewrite fmap_app. f_equal. exact IH.
Qed.

(** the parameter sets of a dict with one more key in front *)
Lemma dict_product_cons (k : K) (vs : list V) (ds : list (K * list V)) :
  dict_product ((k, vs) :: ds)
  = v ← vs; t ← dict_product ds; [(k, v) :: t].
Proof.
  unfold dict_product.
  change (((k, vs) :: ds).*1) with (k :: ds.*1).
  change (product ((k, vs) :: ds).*2)
    with (v ← vs; t ← product ds.*2; [v :: t]).
  rewrite fmap_bind. apply list_bind_ext; [ | reflexivity ].
  intros v. rewrite fmap_bind, list_fmap_bind.
  apply list_bind_ext; [ | reflexivity ]. by intros t.
Qed.

(** X20.  [dict_product] enumerates the parameter grid: a parameter
    set is produced exactly when it gives every key of the dict, in the
    dict's order, one of the values listed for that key; and there are as
    many parameter sets as the product of the numbers of values. *)
Theorem dict_product_enumerates (dicts : list (K * list V)) :
  length (dict_product dicts)
  = foldr (λ d n, (length d.2 * n)%nat) 1%nat dicts
  ∧ ∀ combo, combo ∈ dict_product dicts
             ↔ Forall2 (λ kv d, kv.1 = d.1 ∧ kv.2 ∈ d.2) combo dicts.
Proof.
  induction dicts as [ | [k vs] ds [IHlen IHin] ].
  - split; [ reflexivity | ]. intros combo.
    change (dict_product []) with [@nil (K * V)].
    rewrite list_elem_of_singleton. split.
    + intros ->. constructor.
    + by intros ->%Forall2_nil_inv_r.
  - rewrite dict_product_cons. split.
    + cbn [foldr snd]. rewrite <- IHlen. apply length_bind_const.
      intros v. rewrite (length_bind_const _ _ 1%nat); [ lia | done ].
    + intros combo. rewrite list_elem_of_bind. split.
      * intros (v & Hin & Hv).
        apply list_elem_of_bind in Hin as (t & Hc & Ht).
        apply list_elem_of_singleton in Hc as ->.
        constructor; [ by split | by apply IHin ].
      * intros H. apply Forall2_cons_inv_r in H
          as ([k' v] & t & [Hk Hv] & Ht & ->).
        cbn [fst snd] in Hk, Hv. subst k'. exists v. split; [ | exact Hv ].
        apply list_elem_of_bind. exists t.
        split; [ by apply list_elem_of_singleton | by apply IHin ].
Qed.
End Batch.

Section BatchExample.
Local Open Scope R_scope.

(** the script runs ten parameter sets, the first with 3 lattice
    neighbours and rewiring probability 0 *)
Lemma parameters_list_head :
  length parameters_list = 10%nat
  ∧ head parameters_list = Some [(lattice_neighbor, 3); (rewire_prob, 0)].
Proof. split; reflexivity. Qed.
End BatchExample.

(** ** The ego network *)

Section EgoNetwork.

(** X21.  The two passes of [prepare_ego] (ego graph, removal of the
    censored edges, ego graph again) give the two-hop view of the
    uncensored network: the strong ties are the neighbours over
    uncensored edges, the weak ties are the other nodes within two
    uncensored hops, the centre among them, and no edge of the view is
    censored or leaves the view's nodes. *)
Theorem ego_network_is_the_uncensored_view (g : Nx.Graph) (n : Z)
    (ego : Nx.Graph) :
  canonical g → pruned_ego g n = Ok ego →
  n ∈ Nx.nodes g
  ∧ ego = Nx.subgraph (live g) (Nx.within2 (live g) n)
  ∧ degree_1_ids ego n = Nx.neighbors (live g) n
  ∧ degree_2_ids ego n
    = (Nx.nodes g ∩ Nx.within2 (live g) n) ∖ Nx.neighbors (live g) n
  ∧ (n ∉ Nx.neighbors (live g) n → n ∈ degree_2_ids ego n)
  ∧ ∀ k d, Nx.edges ego !! k = Some d
           ↔ Nx.edges g !! k = Some d ∧ ¬ 0 < d
             ∧ k.1 ∈ Nx.within2 (live g) n ∧ k.2 ∈ Nx.within2 (live g) n.
Proof.
  intros Hc H.
  assert (n ∈ Nx.nodes g) as Hn.
  { destruct (decide (n ∈ Nx.nodes g)) as [ | Hnot ]; [ assumption | ].
    rewrite (pruned_ego_raises g n Hnot) in H. discriminate. }
  split; [ exact Hn | ].
  split; [ rewrite (pruned_ego_eq g n Hc Hn) in H; by injection H as <- | ].
  split; [ by apply degree_1_ids_eq | ].
  split; [ by apply degree_2_ids_eq | ].
  split; [ by apply centre_in_degree_2 | ].
  intros k d. by apply pruned_ego_edges.
Qed.

Lemma ego_network_is_the_uncensored_view_witness :
  ∃ ego,
    pruned_ego (G Examples.censoring) 0 = Ok ego
    ∧ 0 ∈ Nx.nodes (G Examples.censoring)
    ∧ ego = Nx.subgraph (live (G Examples.censoring))
              (Nx.within2 (live (G Examples.censoring)) 0)
    ∧ degree_1_ids ego 0 = Nx.neighbors (live (G Examples.censoring)) 0
    ∧ degree_2_ids ego 0
      = (Nx.nodes (G Examples.censoring)
         ∩ Nx.within2 (live (G Examples.censoring)) 0)
        ∖ Nx.neighbors (live (G Examples.censoring)) 0
    ∧ (0 ∉ Nx.neighbors (live (G Examples.censoring)) 0 →
       0 ∈ degree_2_ids ego 0)
    ∧ ∀ k d, Nx.edges ego !! k = Some d
             ↔ Nx.edges (G Examples.censoring) !! k = Some d ∧ ¬ 0 < d
               ∧ k.1 ∈ Nx.within2 (live (G Examples.censoring)) 0
               ∧ k.2 ∈ Nx.within2 (live (G Examples.censoring)) 0.
Proof.
  assert (canonical (G Examples.censoring)) as Hc
    by apply canonical_graph_of.
  assert (0 ∈ Nx.nodes (G Examples.censoring)) as Hn by (by vm_compute).
  eexists. split; [ by apply pruned_ego_eq | ].
  apply (ego_network_is_the_uncensored_view (G Examples.censoring) 0);
    [ exact Hc | by apply pruned_ego_eq ].
Defined.
End EgoNetwork.

(** * The network that the constructor builds *)

Section Relabelling.

(** the edges of the relabelled graph: the images of the generated
    edges, each with countdown 0 *)
Lemma relabel_nodes_edges (ns : list Z) (es : list (Z * Z))
    (mapping : gmap Z Z) (key : Z * Z) (d : Z) :
  Nx.edges (Nx.relabel_nodes ns es mapping) !! key = Some d
  ↔ d = 0
    ∧ ∃ e, e ∈ es
           ∧ key = Nx.canon (Nx.relabel mapping e.1) (Nx.relabel mapping e.2).
Proof.
  unfold Nx.relabel_nodes. induction es as [ | e es IH ]; simpl.
  - rewrite lookup_empty. split; [ done | ].
    intros (_ & e & He & _). by apply elem_of_nil in He.
  - destruct (decide (key = Nx.canon (Nx.relabel mapping e.1)
                                     (Nx.relabel mapping e.2)))
      as [ -> | Hne ].
    + rewrite lookup_insert_eq. split.
      * intros [= <-]. split; [ done | ]. exists e.
        split; [ apply list_elem_of_here | done ].
      * by intros (-> & _).
    + rewrite lookup_insert_ne by done. rewrite IH.
      split; intros (-> & e' & He' & Hk); (split; [ done | ]); exists e'.
      * split; [ by apply list_elem_of_further | done ].
      * apply elem_of_cons in He' as [ -> | He' ]; [ done | ]. by split.
Qed.

(** the nodes of the relabelled graph: the images of the generated nodes
    and of the endpoints of the generated edges *)
Lemma relabel_nodes_node_set (ns : list Z) (es : list (Z * Z))
    (mapping : gmap Z Z) (i : Z) :
  i ∈ Nx.nodes (Nx.relabel_nodes ns es mapping)
  ↔ i ∈ Nx.relabel mapping <$> ns
    ∨ ∃ e, e ∈ es ∧ (i = Nx.relabel mapping e.1 ∨ i = Nx.relabel mapping e.2).
Proof.
  unfold Nx.relabel_nodes. induction es as [ | e es IH ]; simpl.
  - rewrite elem_of_list_to_set. split; [ by left | ].
    intros [ H | (e & He & _) ]; [ done | by apply elem_of_nil in He ].
  - rewrite !elem_of_union, !elem_of_singleton, IH. split.
    + intros [ [ -> | -> ] | [ H | (e' & He' & H) ] ].
      * right. exists e. split; [ apply list_elem_of_here | by left ].
      * right. exists e. split; [ apply list_elem_of_here | by right ].
      * by left.
      * right. exists e'. split; [ by apply list_elem_of_further | done ].
    + intros [ H | (e' & He' & H) ]; [ right; by left | ].
      apply elem_of_cons in He' as [ -> | He' ].
      * left. destruct H; [ by left | by right ].
      * right. right. by exists e'.
Qed.

(** [dict(zip(G, ids))] on the nodes [0 .. n-1]: node [a] is relabelled
    with the citizen id at place [a] *)
Lemma relabel_seqZ (ids : list Z) (a ia : Z) :
  0 ≤ a → ids !! Z.to_nat a = Some ia →
  Nx.relabel
    (list_to_map (reverse (zip (seqZ 0 (Z.of_nat (length ids))) ids))) a
  = ia.
Proof.
  intros Ha Hia. unfold Nx.relabel.
  assert (list_to_map (reverse (zip (seqZ 0 (Z.of_nat (length ids))) ids))
            !! a = Some ia :> option Z) as ->; [ | reflexivity ].
  apply elem_of_list_to_map_1.
  - rewrite fmap_reverse, fst_zip by (rewrite length_seqZ; lia).
    rewrite reverse_Permutation. apply NoDup_seqZ.
  - apply elem_of_reverse. apply (list_elem_of_lookup_2 _ (Z.to_nat a)).
    apply lookup_zip_with_Some. exists a, ia.
    split; [ reflexivity | ]. split; [ | exact Hia ].
    pose proof (lookup_lt_Some _ _ _ Hia).
    rewrite lookup_seqZ. split; lia.
Qed.
End Relabelling.

Section ClaimC10.
Import Examples.
Local Open Scope R_scope.

(** C10 (amended).  Let the generator keep the contract of
    [networkx.watts_strogatz_graph].  If the densities pass the check
    and fewer citizens are placed than the lattice degree, the
    constructor raises the generator's NetworkXError.  If the
    constructor returns, the lattice degree is at most the number of
    citizens placed, and in either activation mode the network of the
    model is the generated graph on the nodes 0 .. n-1 relabelled
    with the citizen ids in the order of their placement: its nodes are
    the citizen ids, its edges are the generated edges between the
    citizens at these places, each with countdown 0, and
    [number_of_edges] is their number. *)
Theorem construction_builds_the_network (env : Env) (cfg : Config) :
  small_world_generator (watts_strogatz_graph env) →
  (cfg_cop_density cfg + cfg_citizen_density cfg <= 1 →
   (Z.of_nat (length (list_citizen_ids (placement env cfg)))
    < cfg_lattice_neighbor cfg)%Z →
   init env cfg = Raise NetworkXError)
  ∧ ∀ m : Model,
      init env cfg = Ok m →
      (cfg_lattice_neighbor cfg
       ≤ Z.of_nat (length (list_citizen_ids (placement env cfg))))%Z
      ∧ (∃ es : list (Z * Z),
           watts_strogatz_graph env
             (Z.of_nat (length (list_citizen_ids (placement env cfg))))
             (cfg_lattice_neighbor cfg) (cfg_rewire_prob cfg)
           = Ok (seqZ 0 (Z.of_nat (length (list_citizen_ids
                                             (placement env cfg)))), es)
           ∧ Nx.nodes (G m) = list_to_set (list_citizen_ids (placement env cfg))
           ∧ ∀ (key : Z * Z) (d : Z),
               Nx.edges (G m) !! key = Some d
               ↔ d = 0%Z
                 ∧ ∃ a b ia ib : Z,
                     (a, b) ∈ es
                     ∧ list_citizen_ids (placement env cfg) !! Z.to_nat a
                       = Some ia
                     ∧ list_citizen_ids (placement env cfg) !! Z.to_nat b
                       = Some ib
                     ∧ key = Nx.canon ia ib)
      ∧ number_of_edges m = Nx.number_of_edges (G m)
      ∧ ∀ mode : ActivationType,
          ∃ m', init env (with_activation_type mode cfg) = Ok m'
                ∧ activation_type m' = mode
                ∧ G m' = G m.
Proof.
  intros Hgen. split; [ by apply init_too_few_citizens | ].
  intros m H.
  pose proof (init_fields _ _ _ H) as (g0 & row & _ & HG0 & Hsize & _).
  apply init_Ok in H as (Hd & g & Hg & Hne & HG & _).
  destruct Hgen as [Hreject Hgraph].
  set (ids := list_citizen_ids (placement env cfg)) in *.
  split.
  { apply Z.nlt_ge. intros Hlt. unfold build_graph in Hg.
    rewrite (Hreject _ _ (cfg_rewire_prob cfg) Hlt) in Hg. discriminate. }
  split; [ | split; [ by rewrite Hsize, HG0 | ] ].
  - pose proof Hg as Hb. unfold build_graph in Hb.
    destruct (watts_strogatz_graph env _ _ _) as [ [ns es] | e ] eqn:Ew;
      [ | discriminate ].
    injection Hb as Hb.
    assert (es ≠ []) as Hes by (intros ->; apply Hne; by rewrite <- Hb).
    destruct (Hgraph _ _ _ _ _ Ew Hes) as [-> Hends].
    exists es. split; [ reflexivity | ].
    assert (∀ a, (0 ≤ a < Z.of_nat (length ids))%Z →
              ∃ ia, ids !! Z.to_nat a = Some ia
                    ∧ Nx.relabel
                        (list_to_map
                           (reverse (zip (seqZ 0 (Z.of_nat (length ids))) ids)))
                        a = ia) as Hlabel.
    { intros a Ha.
      destruct (lookup_lt_is_Some_2 ids (Z.to_nat a)) as [ia Hia]; [ lia | ].
      exists ia. split; [ exact Hia | ]. apply relabel_seqZ; [ lia | exact Hia ]. }
    rewrite HG, <- Hb. split.
    + apply set_eq. intros i.
      rewrite relabel_nodes_node_set, elem_of_list_to_set. split.
      * intros [ Hi | ([a b] & He & Hi) ].
        -- apply list_elem_of_fmap in Hi as (a & -> & Ha).
           apply elem_of_seqZ in Ha.
           destruct (Hlabel a ltac:(lia)) as (ia & Hia & ->).
           by eapply list_elem_of_lookup_2.
        -- destruct (Hends a b He) as [Ha Hb'].
           destruct (Hlabel a Ha) as (ia & Hia & Hra).
           destruct (Hlabel b Hb') as (ib & Hib & Hrb).
           simpl in Hi. rewrite Hra, Hrb in Hi.
           destruct Hi as [ -> | -> ]; by eapply list_elem_of_lookup_2.
      * intros Hi. left. apply relabel_zip; [ apply NoDup_seqZ | | exact Hi ].
        rewrite length_seqZ. lia.
    + intros key d. rewrite relabel_nodes_edges. split.
      * intros (-> & [a b] & He & ->). split; [ reflexivity | ].
        destruct (Hends a b He) as [Ha Hb'].
        destruct (Hlabel a Ha) as (ia & Hia & Hra).
        destruct (Hlabel b Hb') as (ib & Hib & Hrb).
        exists a, b, ia, ib. simpl. by rewrite Hra, Hrb.
      * intros (-> & a & b & ia & ib & He & Hia & Hib & ->).
        split; [ reflexivity | ]. exists (a, b). split; [ exact He | ].
        destruct (Hends a b He) as [Ha Hb'].
        simpl. rewrite (relabel_seqZ ids a ia), (relabel_seqZ ids b ib);
          [ reflexivity | lia | exact Hib | lia | exact Hia ].
  - intros mode.
    destruct (init_succeeds env (with_activation_type mode cfg) g)
      as [m' Hm']; [ exact Hd | exact Hg | exact Hne | ].
    exists m'. split; [ exact Hm' | ].
    apply init_Ok in Hm' as (_ & g' & Hg' & _ & HG' & Hmode).
    rewrite build_graph_mode, placement_mode in Hg'.
    split; [ exact Hmode | ]. unfold ids in Hg. congruence.
Qed.
End ClaimC10.

Section ClaimC10Examples.
Import Examples.
Local Open Scope R_scope.

Lemma construction_builds_the_network_witness :
  ∃ m : Model,
    init ring_env (row_config 3 1 2 WithoutSWN) = Ok m
    ∧ (2 ≤ Z.of_nat (length (list_citizen_ids
                               (placement ring_env
                                  (row_config 3 1 2 WithoutSWN)))))%Z
    ∧ (∃ es : list (Z * Z),
         ring_lattice
           (Z.of_nat (length (list_citizen_ids
                                (placement ring_env
                                   (row_config 3 1 2 WithoutSWN))))) 2 0
         = Ok (seqZ 0 (Z.of_nat (length (list_citizen_ids
                                           (placement ring_env
                                              (row_config 3 1 2 WithoutSWN))))),
               es)
         ∧ Nx.nodes (G m)
           = list_to_set (list_citizen_ids
                            (placement ring_env (row_config 3 1 2 WithoutSWN)))
         ∧ ∀ (key : Z * Z) (d : Z),
             Nx.edges (G m) !! key = Some d
             ↔ d = 0%Z
               ∧ ∃ a b ia ib : Z,
                   (a, b) ∈ es
                   ∧ list_citizen_ids
                       (placement ring_env (row_config 3 1 2 WithoutSWN))
                       !! Z.to_nat a = Some ia
                   ∧ list_citizen_ids
                       (placement ring_env (row_config 3 1 2 WithoutSWN))
                       !! Z.to_nat b = Some ib
                   ∧ key = Nx.canon ia ib)
    ∧ number_of_edges m = Nx.number_of_edges (G m)
    ∧ ∀ mode : ActivationType,
        ∃ m', init ring_env
                (with_activation_type mode (row_config 3 1 2 WithoutSWN))
              = Ok m'
              ∧ activation_type m' = mode
              ∧ G m' = G m.
Proof.
  destruct (row_of_three WithoutSWN) as [m Hm].
  exists m. split; [ exact Hm | ].
  exact (proj2 (construction_builds_the_network ring_env
                  (row_config 3 1 2 WithoutSWN) ring_lattice_contract) m Hm).
Defined.

(** C10 as stated fails where the number of citizens equals the lattice
    degree: three citizens are placed, the lattice degree is 3, the
    generator returns the complete graph on three nodes, and the
    constructor returns a model. *)
Lemma construction_with_as_many_citizens_as_lattice_degree :
  ∃ m : Model,
    init ring_env (row_config 3 1 3 WithoutSWN) = Ok m
    ∧ length (list_citizen_ids (placement ring_env (row_config 3 1 3 WithoutSWN)))
      = 3%nat
    ∧ cfg_lattice_neighbor (row_config 3 1 3 WithoutSWN) = 3%Z
    ∧ watts_strogatz_graph ring_env 3 3 0 = Ok (complete_graph 3)
    ∧ number_of_edges m = 3%Z.
Proof.
  assert (list_citizen_ids (placement ring_env (row_config 3 1 3 WithoutSWN))
          = [0; 1; 2]%Z) as Hids.
  { unfold placement.
    rewrite (placement_full_list (row_config 3 1 3 WithoutSWN));
      reflexivity. }
  destruct (init_succeeds ring_env (row_config 3 1 3 WithoutSWN)
              (graph_of [0; 1; 2]%Z
                 [((0, 1), 0); ((0, 2), 0); ((1, 2), 0)]%Z)) as [m Hm].
  { simpl. lra. }
  { rewrite Hids. vm_compute. reflexivity. }
  { vm_compute. discriminate. }
  exists m. split; [ exact Hm | ].
  split; [ by rewrite Hids | ]. split; [ reflexivity | ].
  split; [ reflexivity | ].
  pose proof (init_fields _ _ _ Hm) as (g0 & row & Hg & _ & -> & _).
  rewrite Hids in Hg. vm_compute in Hg. injection Hg as <-. reflexivity.
Qed.
End ClaimC10Examples.
